(** * SRGAN patch preprocessing ([preprocess.py]): a shallow embedding

    The script cuts aligned high-resolution / low-resolution patch pairs
    out of source images.  This development embeds it function by
    function:

    - [PyFloat]: the binary64 arithmetic Python uses for [/], [*] on a
      float, and [round];
    - [Img]: the part of PIL the script calls ([size], [crop], [resize],
      [copy]);
    - [World]: the file system, the module-wide [random] generator and
      the trace of effects, threaded through a state-and-exception monad;
    - [Preprocess]: the functions of [preprocess.py] themselves, under
      their own names. *)

From Stdlib Require Import ZArith QArith Qround Qabs Qpower Lqa Lia.
From Stdlib Require Import List String Ascii Bool DecimalString.
From Stdlib Require Decimal DecimalZ.
From Stdlib Require Import Floats.SpecFloat.
Import ListNotations.

Local Open Scope Z_scope.

(** ** Python floats *)

Module PyFloat.

(** A finite binary64 value is a dyadic rational; it is kept as the
    rational it denotes.  Every operation is the exact operation followed
    by [fl], rounding to the nearest value with a 53-bit significand, ties
    to the even significand.  The exponent range is not bounded: the
    magnitudes the script produces are quotients and products of image
    dimensions, far inside the binary64 range. *)

Definition prec : Z := 53.

Definition pow2 (e : Z) : Q := (2 ^ e)%Q.

(** [2 ^ 53], the reciprocal of the unit roundoff. *)
Definition two53 : Q := 9007199254740992.

(** [round(x)] of a float [x] with no [ndigits]: the nearest integer,
    ties to the even one. *)
Definition round_half_even (x : Q) : Z :=
  let f := Qfloor x in
  match (x - inject_Z f ?= 1 # 2)%Q with
  | Lt => f
  | Gt => f + 1
  | Eq => if Z.even f then f else f + 1
  end.

(** Exponent of the last significand bit of the binade of [x <> 0]:
    the [e] with [2^52 <= |x| / 2^e < 2^53]. *)
Definition ulp_exp (x : Q) : Z :=
  let e0 := Z.log2 (Z.abs (Qnum x)) - Z.log2 (Zpos (Qden x)) - prec in
  if Qle_bool (pow2 prec) (Qabs x / pow2 e0) then e0 + 1 else e0.

Definition fl (x : Q) : Q :=
  if Qeq_bool x 0 then 0%Q
  else (inject_Z (round_half_even (x / pow2 (ulp_exp x))) * pow2 (ulp_exp x))%Q.

(** [float(n)] for an [int]. *)
Definition of_int (n : Z) : Q := fl (inject_Z n).

Definition fadd (x y : Q) : Q := fl (x + y).
Definition fsub (x y : Q) : Q := fl (x - y).
Definition fmul (x y : Q) : Q := fl (x * y).
Definition fdiv (x y : Q) : Q := fl (x / y).
Definition fabs (x : Q) : Q := Qabs x.

(** [x > y] on floats. *)
Definition fgt (x y : Q) : bool :=
  match (x ?= y)%Q with Gt => true | _ => false end.

(** [a / b] on two [int]s, for [b <> 0]: the correctly rounded quotient. *)
Definition int_truediv (a b : Z) : Q := fl (inject_Z a / inject_Z b).

(** The decimal literals of the script. *)
Definition lit_0_1 : Q := fl (1 # 10).
Definition lit_0_5 : Q := fl (1 # 2).
Definition lit_2_0 : Q := fl 2.

(** The value of a finite [spec_float], to compare [fl] with the
    Standard Library's IEEE 754 operations. *)
Definition SF2Q (f : spec_float) : option Q :=
  match f with
  | S754_zero _ => Some 0%Q
  | S754_finite s m e =>
      Some (inject_Z (if s then Z.neg m else Z.pos m) * pow2 e)%Q
  | _ => None
  end.

Definition SF_of_int (n : Z) : spec_float :=
  binary_normalize 53 1024 n 0 false.

Definition agrees (x : Q) (f : spec_float) : bool :=
  match SF2Q f with
  | Some y => Qeq_bool x y
  | None => false
  end.

(** One test of [fl] against the Standard Library's operations: the
    quotients, products, sums and differences the script forms from the
    integers [a] and [b]. *)
Definition agrees_on (ab : Z * Z) : bool :=
  let '(a, b) := ab in
  let D := SFdiv 53 1024 in
  let I := SF_of_int in
  agrees (int_truediv a b) (D (I a) (I b))
  && agrees (fmul (of_int a) (int_truediv 384 b))
            (SFmul 53 1024 (I a) (D (I 384) (I b)))
  && agrees (fsub (int_truediv a b) (int_truediv b 7))
            (SFsub 53 1024 (D (I a) (I b)) (D (I b) (I 7)))
  && agrees (fdiv (fadd (int_truediv a b) (int_truediv b 7)) lit_2_0)
            (D (SFadd 53 1024 (D (I a) (I b)) (D (I b) (I 7))) (I 2))
  && agrees (fsub (int_truediv a b) (of_int 4))
            (SFsub 53 1024 (D (I a) (I b)) (I 4)).

Definition test_numerators : list Z :=
  [1; 2; 3; 7; 96; 100; 200; 383; 384; 500; 1023; 4096; 65535; 1000003;
   2147483647].

Definition test_denominators : list Z :=
  [1; 3; 5; 6; 7; 9; 10; 96; 100; 127; 200; 255; 383; 1000003].

End PyFloat.

(** ** Exceptions and results *)

(** A path is the list of its components, the working directory being
    the empty list: [os.path.join d name] is [d ++ [name]].  The file
    system is keyed by such lists, so a list stands for one place only
    when it is [plain] (below): no component is empty, [.] or [..], or
    holds a separator.  [./x] and [x] are one place but two lists. *)
Definition path := list string.

Inductive exn : Type :=
| ZeroDivisionError
| ValueError (msg : string)
| FileNotFoundError (p : path)
| FileExistsError (p : path)
| NotADirectoryError (p : path)
| IsADirectoryError (p : path)
| UnidentifiedImageError (p : path)
| OSError (msg : string).

(** [str(e)].  The script prints the text of an exception and does not
    make it: the text comes from the interpreter, the operating system
    and the libraries that raise the exception (the [errno] and its
    message, the quoted file name). *)
Class ExnText : Type := {
  str_exn : exn -> string
}.

Inductive result (A : Type) : Type :=
| Ok (a : A)
| Raise (e : exn).

Arguments Ok {A} a.
Arguments Raise {A} e.

Definition rbind {A B} (c : result A) (k : A -> result B) : result B :=
  match c with
  | Ok a => k a
  | Raise e => Raise e
  end.

Declare Scope py_scope.
Delimit Scope py_scope with py.
Local Open Scope py_scope.

Notation "'let!' x ':=' c 'in' k" := (rbind c (fun x => k))
  (at level 61, x pattern, c at next level, right associativity) : py_scope.

(** ** Images: the part of PIL the script uses *)

Module Img.

Definition pixel : Type := Z * Z * Z.
Definition black : pixel := (0, 0, 0).

(** An RGB image: its size and the sample at every coordinate. *)
Record Image : Type := mkImage {
  width : Z;
  height : Z;
  pix : Z -> Z -> pixel
}.

Definition size (img : Image) : Z * Z := (width img, height img).

(** [img.copy()]: a new object with the same size and samples.  Images
    are never modified in place by the script, so the copy is the value. *)
Definition copy (img : Image) : Image := img.

(** [img.crop((x0, y0, x1, y1))]: the region has size [(x1-x0, y1-y0)]
    whatever the size of [img]; samples outside [img] are zero. *)
Definition crop (img : Image) (box : Z * Z * Z * Z) : result Image :=
  let '(x0, y0, x1, y1) := box in
  if x1 <? x0 then Raise (ValueError "Coordinate 'right' is less than 'left'")
  else if y1 <? y0 then Raise (ValueError "Coordinate 'lower' is less than 'upper'")
  else Ok {| width := x1 - x0;
             height := y1 - y0;
             pix := fun x y =>
               if (0 <=? x0 + x) && (x0 + x <? width img)
                  && (0 <=? y0 + y) && (y0 + y <? height img)
               then pix img (x0 + x) (y0 + y) else black |}.

Inductive Resampling : Type := LANCZOS | BICUBIC.

(** The interpolation kernels are external to the script: for a filter,
    a source and a target size they give the samples of the result. *)
Class Resampler : Type := {
  resample : Resampling -> Image -> Z -> Z -> Z -> Z -> pixel
}.

(** [img.resize(new_size, resample=f)]. *)
Definition resize `{Resampler} (img : Image) (new_size : Z * Z)
    (f : Resampling) : result Image :=
  let '(nw, nh) := new_size in
  if (nw =? width img) && (nh =? height img) then Ok (copy img)
  else if (nw <? 1) || (nh <? 1)
  then Raise (ValueError "height and width must be > 0")
  else Ok {| width := nw; height := nh; pix := resample f img nw nh |}.

End Img.

Import Img.
Import PyFloat.

(** ** Strings and dictionaries *)

Module PyStr.

Local Open Scope string_scope.

Definition newline : string := String (ascii_of_nat 10) EmptyString.

(** [str(n)] for an [int]. *)
Definition str_int (n : Z) : string :=
  DecimalString.NilZero.string_of_int (Z.to_int n).

Fixpoint zeros (k : nat) : string :=
  match k with
  | O => ""
  | S k' => "0" ++ zeros k'
  end.

(** [f"{n:0kd}"] for [n >= 0]: decimal digits, zero-padded on the left
    to at least [k] characters. *)
Definition zfill (k : nat) (n : Z) : string :=
  let s := str_int n in zeros (k - String.length s) ++ s.

(** [f"{x:.2f}"]: two decimals, correctly rounded from the exact value. *)
Definition fmt_2f (x : Q) : string :=
  let c := round_half_even (Qabs x * 100) in
  (if Qle_bool 0 x then "" else "-")
    ++ str_int (c / 100) ++ "." ++ zfill 2 (c mod 100).

(** [s.rfind(".")]. *)
Fixpoint rfind_dot (s : string) : option nat :=
  match s with
  | EmptyString => None
  | String a s' =>
      match rfind_dot s' with
      | Some i => Some (S i)
      | None => if Ascii.eqb a "." then Some O else None
      end
  end.

(** [PurePath.stem] of a file name: the name without its last suffix;
    a leading or a trailing dot starts no suffix. *)
Definition name_stem (name : string) : string :=
  match rfind_dot name with
  | Some i =>
      if (0 <? i)%nat && (i <? String.length name - 1)%nat
      then substring 0 i name else name
  | None => name
  end.

Fixpoint is_suffix_from (suf s : string) (skip : nat) : bool :=
  match skip with
  | O => String.eqb suf s
  | S k => match s with
           | EmptyString => false
           | String _ s' => is_suffix_from suf s' k
           end
  end.

(** [s.endswith(suf)]. *)
Definition endswith (s suf : string) : bool :=
  (String.length suf <=? String.length s)%nat
  && is_suffix_from suf s (String.length s - String.length suf).

(** [fnmatch] for the patterns of the script: a leading [*] followed by
    literal characters (case-sensitive, as on POSIX). *)
Definition fnmatch (name pat : string) : bool :=
  match pat with
  | String "*" rest => endswith name rest
  | _ => String.eqb name pat
  end.

(** A decimal digit. *)
Definition is_digit (c : ascii) : bool :=
  match uint_of_char c (Some Decimal.Nil) with Some _ => true | None => false end.

End PyStr.

Import PyStr.

(** [Path(p).stem]: the stem of the last component. *)
Definition path_stem (p : path) : string := name_stem (last p ""%string).

(** [os.path.join(d, name)] for a file name [name]. *)
Definition os_path_join (d : path) (name : string) : path := d ++ [name].

(** [str(p)]. *)
Definition str_path (p : path) : string := String.concat "/" p.

Definition path_eqb (p q : path) : bool :=
  if list_eq_dec string_dec p q then true else false.

Fixpoint has_char (a : ascii) (s : string) : bool :=
  match s with
  | EmptyString => false
  | String c s' => Ascii.eqb c a || has_char a s'
  end.

(** A name of a directory entry. *)
Definition proper_name (c : string) : bool :=
  negb (String.eqb c "") && negb (String.eqb c ".")
  && negb (String.eqb c "..") && negb (has_char "/" c).

(** A path spelled with names of entries only: two such paths are the
    same place exactly when they are the same list. *)
Definition plain (p : path) : Prop := forallb proper_name p = true.

(** A [dict] keeps its keys in insertion order; assigning to a key that
    is present replaces the value where it stands. *)
Section Dict.
Context {K V : Type} (eqb : K -> K -> bool).

Fixpoint dict_get (d : list (K * V)) (k : K) : option V :=
  match d with
  | [] => None
  | (k', v) :: d' => if eqb k k' then Some v else dict_get d' k
  end.

Fixpoint dict_set (d : list (K * V)) (k : K) (v : V) : list (K * V) :=
  match d with
  | [] => [(k, v)]
  | (k', v') :: d' =>
      if eqb k k' then (k, v) :: d' else (k', v') :: dict_set d' k v
  end.
End Dict.

(** ** The world: file system, random generator, trace of effects *)

(** The module-wide generator of [random]: [randint a b] draws from the
    state and returns a value of [a..b] for [a <= b]. *)
Class Random : Type := {
  rng_state : Type;
  seed : Z -> rng_state;
  randint : Z -> Z -> rng_state -> Z * rng_state;
  randint_range : forall a b g, a <= b -> a <= fst (randint a b g) <= b
}.

Module World.

(** A regular file either loads as an image or does not: [OtherFile e]
    is a file on which [Image.open(p).convert("RGB")] raises [e], an
    [UnidentifiedImageError] for a file that is no image, an [OSError]
    for an image whose data is truncated. *)
Inductive node : Type :=
| Dir
| ImageFile (img : Image)
| OtherFile (e : exn).

(** What the script does to the outside, in the order it does it. *)
Inductive event : Type :=
| EMakedirs (p : path)
| EOpen (p : path)
| ESave (p : path) (img : Image)
| EPrint (line : string).


(** The paths opened, in order. *)
Definition opened (t : list event) : list path :=
  flat_map (fun e => match e with EOpen p => [p] | _ => [] end) t.

(** The images saved, with their paths, in order. *)
Definition saves (t : list event) : list (path * Image) :=
  flat_map (fun e => match e with ESave p img => [(p, img)] | _ => [] end) t.

Section WithRandom.
Context `{Random}.

(** The entries of the file system are kept in the order in which the
    operating system enumerates them. *)
Record world : Type := mkWorld {
  fs : list (path * node);
  rng : rng_state;
  trace : list event
}.

(** A computation of the script: it returns or raises, and changes the
    world either way. *)
Definition M (A : Type) : Type := world -> result A * world.

Definition ret {A} (a : A) : M A := fun w => (Ok a, w).

Definition raise {A} (e : exn) : M A := fun w => (Raise e, w).

Definition bind {A B} (c : M A) (k : A -> M B) : M B :=
  fun w =>
    match c w with
    | (Ok a, w') => k a w'
    | (Raise e, w') => (Raise e, w')
    end.

(** [try: c  except Exception as e: h e]. *)
Definition try_except {A} (c : M A) (h : exn -> M A) : M A :=
  fun w =>
    match c w with
    | (Ok a, w') => (Ok a, w')
    | (Raise e, w') => h e w'
    end.

Definition lift {A} (r : result A) : M A := fun w => (r, w).

Definition log (e : event) : M unit :=
  fun w => (Ok tt, {| fs := fs w; rng := rng w; trace := trace w ++ [e] |}).

Definition print (line : string) : M unit := log (EPrint line).

Definition lookup (w : world) (p : path) : option node :=
  dict_get path_eqb (fs w) p.

(** The working directory exists; any other path is a directory when the
    file system says so. *)
Definition is_dir (w : world) (p : path) : bool :=
  match p with
  | [] => true
  | _ => match lookup w p with Some Dir => true | _ => false end
  end.

Definition set_node (p : path) (n : node) : M unit :=
  fun w => (Ok tt, {| fs := dict_set path_eqb (fs w) p n;
                      rng := rng w; trace := trace w |}).

(** [mkdir] of one path after the other, from the outermost ancestor.
    A regular file where the last directory is to be made gives
    [FileExistsError] on it; a regular file on the way gives
    [NotADirectoryError] on the directory that was to be made in it. *)
Fixpoint mkdir_chain (done : path) (todo : list string) : M unit :=
  match todo with
  | [] => ret tt
  | c :: todo' =>
      let p := done ++ [c] in
      bind (fun w => (Ok (lookup w p), w)) (fun n =>
      match n with
      | Some Dir => mkdir_chain p todo'
      | Some _ =>
          match todo' with
          | [] => raise (FileExistsError p)
          | c' :: _ => raise (NotADirectoryError (p ++ [c']))
          end
      | None => bind (set_node p Dir) (fun _ => mkdir_chain p todo')
      end)
  end.

(** [os.makedirs(p, exist_ok=True)]. *)
Definition makedirs (p : path) : M unit :=
  bind (log (EMakedirs p)) (fun _ => mkdir_chain [] p).

(** The error of a system call on [target] when the walk along
    [done ++ todo] does not arrive: [ENOTDIR] when a regular file stands
    where a directory is needed, [ENOENT] when a component is missing. *)
Fixpoint path_error (w : world) (target done : path) (todo : list string)
    : exn :=
  match todo with
  | [] => FileNotFoundError target
  | c :: todo' =>
      match lookup w (done ++ [c]) with
      | Some Dir => path_error w target (done ++ [c]) todo'
      | Some _ => NotADirectoryError target
      | None => FileNotFoundError target
      end
  end.

(** [Image.open(p).convert("RGB")]. *)
Definition open_rgb (p : path) : M Image :=
  bind (log (EOpen p)) (fun _ w =>
    match lookup w p with
    | Some (ImageFile img) => (Ok img, w)
    | Some Dir => (Raise (IsADirectoryError p), w)
    | Some (OtherFile e) => (Raise e, w)
    | None => (Raise (path_error w p [] p), w)
    end).

(** [img.save(p, "PNG")]. *)
Definition save (img : Image) (p : path) : M unit :=
  fun w =>
    if negb (is_dir w (removelast p))
    then (Raise (path_error w p [] (removelast p)), w)
    else match lookup w p with
         | Some Dir => (Raise (IsADirectoryError p), w)
         | _ => (Ok tt, {| fs := dict_set path_eqb (fs w) p (ImageFile img);
                           rng := rng w;
                           trace := trace w ++ [ESave p img] |})
         end.

(** [Path(folder).glob(pat)]: the entries directly under [folder] whose
    name matches, in enumeration order. *)
Definition glob (w : world) (folder : path) (pat : string) : list path :=
  filter (fun p => path_eqb (removelast p) folder
                   && negb (path_eqb p [])
                   && fnmatch (last p ""%string) pat)
         (map fst (fs w)).

(** A directory into which the script can save: it exists and holds no
    sub-directory that could stand where a file is to be written. *)
Definition out_ready (w : world) (d : path) : Prop :=
  is_dir w d = true /\
  forall name, lookup w (os_path_join d name) <> Some Dir.

(** [os.makedirs(p, exist_ok=True)] has no file in its way: [p] and its
    ancestors are directories or do not exist yet. *)
Definition can_makedirs (w : world) (p : path) : Prop :=
  forall k, (1 <= k <= List.length p)%nat ->
    lookup w (firstn k p) = None \/ lookup w (firstn k p) = Some Dir.

(** Two worlds with the same directories. *)
Definition same_dirs (w w' : world) : Prop :=
  forall q, lookup w' q = Some Dir <-> lookup w q = Some Dir.

(** What [makedirs] may do to a world: nothing to the generator, and to
    the file system only new directories where nothing was. *)
Definition adds_dirs (w w' : world) : Prop :=
  rng w' = rng w /\
  forall q, lookup w' q = lookup w q
            \/ (lookup w q = None /\ lookup w' q = Some Dir).

(** A computation that opens no file. *)
Definition quiet {A} (c : M A) : Prop :=
  forall w, exists evs, trace (snd (c w)) = trace w ++ evs /\ opened evs = [].

(** The file system after the [save] events of [evs], in order. *)
Definition apply_saves (evs : list event) (files : list (path * node))
    : list (path * node) :=
  fold_left (fun f e => match e with
                        | ESave p img => dict_set path_eqb f p (ImageFile img)
                        | _ => f
                        end) evs files.

(** A computation whose events all satisfy [Q] and which changes the
    file system by its [save] events only. *)
Definition emits {A} (Q : event -> Prop) (c : M A) : Prop :=
  forall w, exists evs,
    trace (snd (c w)) = trace w ++ evs /\
    fs (snd (c w)) = apply_saves evs (fs w) /\
    Forall Q evs.

(** [random.randint(a, b)]. *)
Definition py_randint (a b : Z) : M Z :=
  fun w =>
    if b <? a then (Raise (ValueError "empty range for randrange()"), w)
    else let '(v, g) := randint a b (rng w) in
         (Ok v, {| fs := fs w; rng := g; trace := trace w |}).

(** [for x in xs: body x]. *)
Fixpoint for_each {X} (xs : list X) (body : X -> M unit) : M unit :=
  match xs with
  | [] => ret tt
  | x :: xs' => bind (body x) (fun _ => for_each xs' body)
  end.

(** [range(n)]. *)
Definition range (n : Z) : list Z := map Z.of_nat (seq 0 (Z.to_nat n)).

End WithRandom.

Arguments world {_}.
Arguments M {_} A.

End World.

Import World.

Notation "x <- c ;; k" := (bind c (fun x => k))
  (at level 61, c at next level, right associativity) : py_scope.
Notation "' pat <- c ;; k" := (bind c (fun x => match x with pat => k end))
  (at level 61, pat pattern, c at next level, right associativity) : py_scope.
Notation "c ;; k" := (bind c (fun _ => k))
  (at level 61, right associativity) : py_scope.

(** ** The script *)

Module Preprocess.

Local Open Scope string_scope.
Local Open Scope Z_scope.
Local Open Scope py_scope.

Definition HR_PATCH : Z := 384.
Definition LR_PATCH : Z := 96.
Definition UPSCALE : Z := HR_PATCH / LR_PATCH.
Definition PATCHES_PER_IMAGE : Z := 6.
Definition MODE : string := "generate".
Definition RANDOM_CROP : bool := true.
Definition SEED : Z := 201.
Definition MIN_HR_DIM : Z := HR_PATCH.

Definition exts : list string :=
  ["*.jpg"; "*.jpeg"; "*.png"; "*.bmp"; "*.tiff";
   "*.JPG"; "*.JPEG"; "*.PNG"; "*.BMP"; "*.TIFF"].

Section Script.
Context `{Random} `{Resampler} `{ExnText}.

(** The files of [folder] in the order the two nested loops meet them. *)
Definition enumerate (w : world) (folder : path) : list path :=
  flat_map (glob w folder) exts.

Definition get_all_image_files (folder : path) : M (list (string * path)) :=
  fun w =>
    (Ok (fold_left
           (fun files pattern =>
              fold_left (fun files fp => dict_set String.eqb files (path_stem fp) fp)
                        (glob w folder pattern) files)
           exts []), w).

(** The division raises on an empty image. *)
Definition ensure_min_size (img : Image) (min_size : Z) : result Image :=
  let '(w, h) := size img in
  if Z.min w h >=? min_size then Ok img
  else if Z.min w h =? 0 then Raise ZeroDivisionError
  else
    let scale := int_truediv min_size (Z.min w h) in
    let new_size := (round_half_even (fmul (of_int w) scale),
                     round_half_even (fmul (of_int h) scale)) in
    resize img new_size LANCZOS.

(** The crop geometry the script relies on: the window of size
    [crop_w] by [crop_h] at offset [off] lies inside the image. *)
Definition in_bounds (img : Image) (crop_w crop_h : Z) (off : Z * Z) : Prop :=
  0 <= fst off /\ 0 <= snd off /\
  fst off + crop_w <= width img /\ snd off + crop_h <= height img.

Definition center_crop (img : Image) (crop_w crop_h : Z)
    : result (Image * (Z * Z)) :=
  let '(w, h) := size img in
  let left := Z.max 0 ((w - crop_w) / 2) in
  let top := Z.max 0 ((h - crop_h) / 2) in
  let! patch := crop img (left, top, left + crop_w, top + crop_h) in
  Ok (patch, (left, top)).

Definition random_crop (img : Image) (crop_w crop_h : Z)
    : M (Image * (Z * Z)) :=
  let '(w, h) := size img in
  if (w =? crop_w) && (h =? crop_h) then ret (copy img, (0, 0))
  else
    let max_left := Z.max 0 (w - crop_w) in
    let max_top := Z.max 0 (h - crop_h) in
    left <- py_randint 0 max_left ;;
    top <- py_randint 0 max_top ;;
    patch <- lift (crop img (left, top, left + crop_w, top + crop_h)) ;;
    ret (patch, (left, top)).

Definition downsample (img : Image) (out_size : Z * Z) : result Image :=
  resize img out_size BICUBIC.

(** [f"{base}_p{i:03d}.png"]. *)
Definition generate_name (base : string) (i : Z) : string :=
  base ++ "_p" ++ zfill 3 i ++ ".png".

(** [f"{base}_paired_p{i:03d}.png"]. *)
Definition paired_name (base : string) (i : Z) : string :=
  base ++ "_paired_p" ++ zfill 3 i ++ ".png".

Definition process_generate_mode (hr_path hr_out_dir lr_out_dir : path)
    (patches_per_image : Z) (random_crop_enabled : bool) : M unit :=
  img <- open_rgb hr_path ;;
  img <- lift (ensure_min_size img MIN_HR_DIM) ;;
  let '(w, h) := size img in
  for_each (range patches_per_image) (fun i =>
    '(hr_patch, _) <-
      (if random_crop_enabled
       then if (w >? HR_PATCH) && (h >? HR_PATCH)
            then random_crop img HR_PATCH HR_PATCH
            else lift (center_crop img HR_PATCH HR_PATCH)
       else lift (center_crop img HR_PATCH HR_PATCH)) ;;
    lr_patch <- lift (downsample hr_patch (LR_PATCH, LR_PATCH)) ;;
    let base := path_stem hr_path in
    let out_hr := os_path_join hr_out_dir (generate_name base i) in
    let out_lr := os_path_join lr_out_dir (generate_name base i) in
    save hr_patch out_hr ;;
    save lr_patch out_lr).

(** The two divisions raise on a zero divisor. *)
Definition process_paired_mode (hr_path lr_path hr_out_dir lr_out_dir : path)
    (random_crop_enabled : bool) : M unit :=
  hr_img <- open_rgb hr_path ;;
  lr_img <- open_rgb lr_path ;;
  lr_img <- lift (ensure_min_size lr_img LR_PATCH) ;;
  hr_img <- lift (ensure_min_size hr_img HR_PATCH) ;;
  let '(hr_w, hr_h) := size hr_img in
  let '(lr_w, lr_h) := size lr_img in
  if (lr_w =? 0) || (lr_h =? 0) then raise ZeroDivisionError else
  let scale_w := int_truediv hr_w lr_w in
  let scale_h := int_truediv hr_h lr_h in
  if fgt (fabs (fsub scale_w scale_h)) lit_0_1 then
    print ("[WARN] HR/LR aspect/scale mismatch for " ++ path_stem hr_path
           ++ " -> falling back to generate mode.") ;;
    process_generate_mode hr_path hr_out_dir lr_out_dir 1 random_crop_enabled
  else
  let scale := fdiv (fadd scale_w scale_h) lit_2_0 in
  if fgt (fabs (fsub scale (of_int UPSCALE))) lit_0_5 then
    print ("[WARN] Expected scale ~" ++ str_int UPSCALE ++ ", got "
           ++ fmt_2f scale ++ " for " ++ path_stem hr_path
           ++ ". Falling back to generate mode.") ;;
    process_generate_mode hr_path hr_out_dir lr_out_dir 1 random_crop_enabled
  else
  let '(lr_w, lr_h) := size lr_img in
  let patches := if random_crop_enabled then 3 else 1 in
  for_each (range patches) (fun i =>
    '(lr_patch, (l_left, l_top)) <-
      (if random_crop_enabled && (lr_w >? LR_PATCH) && (lr_h >? LR_PATCH)
       then random_crop lr_img LR_PATCH LR_PATCH
       else lift (center_crop lr_img LR_PATCH LR_PATCH)) ;;
    let hr_left := round_half_even (fmul (of_int l_left) scale) in
    let hr_top := round_half_even (fmul (of_int l_top) scale) in
    let hr_left := Z.min (Z.max 0 hr_left) (hr_w - HR_PATCH) in
    let hr_top := Z.min (Z.max 0 hr_top) (hr_h - HR_PATCH) in
    hr_patch <- lift (crop hr_img (hr_left, hr_top,
                                   hr_left + HR_PATCH, hr_top + HR_PATCH)) ;;
    lr_patch_resized <- lift (resize lr_patch (LR_PATCH, LR_PATCH) BICUBIC) ;;
    let base := path_stem hr_path in
    let out_hr := os_path_join hr_out_dir (paired_name base i) in
    let out_lr := os_path_join lr_out_dir (paired_name base i) in
    save hr_patch out_hr ;;
    save lr_patch_resized out_lr).

(** An image as a decoder hands it over: both sides positive and within
    the range of a C [int]. *)
Definition decoded (img : Image) : Prop :=
  0 < width img < 2 ^ 31 /\ 0 < height img < 2 ^ 31.

(** A patch pair of generate mode cut from [img]: the high-resolution
    patch is a window of [img] lying inside it, the low-resolution patch
    is that patch downsampled. *)
Definition generated_pair (img : Image) (pr : Image * Image) : Prop :=
  exists off,
    in_bounds img HR_PATCH HR_PATCH off /\
    crop img (fst off, snd off, fst off + HR_PATCH, snd off + HR_PATCH)
      = Ok (fst pr) /\
    downsample (fst pr) (LR_PATCH, LR_PATCH) = Ok (snd pr).

(** The two [save] events of the patch pairs numbered from [i]. *)
Fixpoint pair_events (hr_out_dir lr_out_dir : path) (base : string) (i : Z)
    (pairs : list (Image * Image)) : list event :=
  match pairs with
  | [] => []
  | (hr_patch, lr_patch) :: rest =>
      ESave (os_path_join hr_out_dir (generate_name base i)) hr_patch
      :: ESave (os_path_join lr_out_dir (generate_name base i)) lr_patch
      :: pair_events hr_out_dir lr_out_dir base (i + 1) rest
  end.

(** The paths written for the first [n] pairs of the source of stem
    [base], in the order of the saves. *)
Definition pair_targets (hr_out_dir lr_out_dir : path) (base : string) (n : nat)
    : list path :=
  flat_map (fun i => [os_path_join hr_out_dir (generate_name base (Z.of_nat i));
                      os_path_join lr_out_dir (generate_name base (Z.of_nat i))])
           (seq 0 n).

(** An event that is no [save], or the [save] of a 384 by 384 image
    directly under [hr_out_dir] or of a 96 by 96 image directly under
    [lr_out_dir]. *)
Definition patch_save (hr_out_dir lr_out_dir : path) (e : event) : Prop :=
  match e with
  | ESave p img =>
      (removelast p = hr_out_dir /\ size img = (HR_PATCH, HR_PATCH)) \/
      (removelast p = lr_out_dir /\ size img = (LR_PATCH, LR_PATCH))
  | _ => True
  end.

(** The two [save] events of the paired-mode pairs numbered from [i]. *)
Fixpoint paired_events (hr_out_dir lr_out_dir : path) (base : string) (i : Z)
    (pairs : list (Image * Image)) : list event :=
  match pairs with
  | [] => []
  | (hr_patch, lr_patch) :: rest =>
      ESave (os_path_join hr_out_dir (paired_name base i)) hr_patch
      :: ESave (os_path_join lr_out_dir (paired_name base i)) lr_patch
      :: paired_events hr_out_dir lr_out_dir base (i + 1) rest
  end.

(** A patch pair of paired mode: the low-resolution patch is a window of
    [lr_img] lying inside it, at some offset [(l, t)]; the
    high-resolution patch is the window of [hr_img] at that offset
    scaled by [scale], rounded and clamped so that it lies inside
    [hr_img]. *)
Definition paired_pair (hr_img lr_img : Image) (scale : Q)
    (pr : Image * Image) : Prop :=
  exists l t,
    in_bounds lr_img LR_PATCH LR_PATCH (l, t) /\
    crop lr_img (l, t, l + LR_PATCH, t + LR_PATCH) = Ok (snd pr) /\
    let hr_left := Z.min (Z.max 0 (round_half_even (fmul (of_int l) scale)))
                         (width hr_img - HR_PATCH) in
    let hr_top := Z.min (Z.max 0 (round_half_even (fmul (of_int t) scale)))
                        (height hr_img - HR_PATCH) in
    in_bounds hr_img HR_PATCH HR_PATCH (hr_left, hr_top) /\
    crop hr_img (hr_left, hr_top, hr_left + HR_PATCH, hr_top + HR_PATCH)
      = Ok (fst pr).

(** The body of the [for] loop of [batch_process], with the counter
    [processed] passed along. *)
Fixpoint batch_loop (items : list (string * path)) (hr_out lr_out : path)
    (total : nat) (processed : Z) : M Z :=
  match items with
  | [] => ret processed
  | (hr_name, hr_path) :: rest =>
      processed <-
        try_except
          (process_generate_mode hr_path hr_out lr_out
                                 PATCHES_PER_IMAGE RANDOM_CROP ;;
           let processed := processed + 1 in
           (if processed mod 20 =? 0
            then print ("  Processed " ++ str_int processed ++ "/"
                        ++ str_int (Z.of_nat total) ++ " HR images...")
            else ret tt) ;;
           ret processed)
          (fun e =>
             print ("[ERROR] Processing " ++ str_path hr_path ++ ": "
                    ++ str_exn e) ;;
             ret processed) ;;
      batch_loop rest hr_out lr_out total processed
  end.

(** The line printed for a file whose processing raised [e]. *)
Definition error_line (hr_path : path) (e : exn) : string :=
  "[ERROR] Processing " ++ str_path hr_path ++ ": " ++ str_exn e.

Definition count_ok (rs : list (result unit)) : Z :=
  Z.of_nat (List.length (filter (fun r => match r with Ok _ => true | Raise _ => false end) rs)).

(** Isolation of failures, as a relation: the files are taken in turn,
    each in the world its predecessors left; a file that is processed
    adds one to the count, a file that raises leaves the count as it is
    and has its error line printed; either way the run goes on with the
    next file.  [isolated_run items p w rs p' w'] relates the count and
    world before the files [items] to the outcomes [rs] of the files and
    the count and world after them. *)
Inductive isolated_run (hr_out lr_out : path) (total : nat)
    : list (string * path) -> Z -> world -> list (result unit) -> Z -> world
      -> Prop :=
| isolated_done p w :
    isolated_run hr_out lr_out total [] p w [] p w
| isolated_processed hr_name hr_path rest p w w1 rs p' w' :
    process_generate_mode hr_path hr_out lr_out PATCHES_PER_IMAGE RANDOM_CROP w
      = (Ok tt, w1) ->
    isolated_run hr_out lr_out total rest (p + 1)
      (if (p + 1) mod 20 =? 0
       then snd (print ("  Processed " ++ str_int (p + 1) ++ "/"
                        ++ str_int (Z.of_nat total) ++ " HR images...") w1)
       else w1)
      rs p' w' ->
    isolated_run hr_out lr_out total ((hr_name, hr_path) :: rest) p w
      (Ok tt :: rs) p' w'
| isolated_failed hr_name hr_path rest p w e w1 rs p' w' :
    process_generate_mode hr_path hr_out lr_out PATCHES_PER_IMAGE RANDOM_CROP w
      = (Raise e, w1) ->
    isolated_run hr_out lr_out total rest p
      (snd (print (error_line hr_path e) w1)) rs p' w' ->
    isolated_run hr_out lr_out total ((hr_name, hr_path) :: rest) p w
      (Raise e :: rs) p' w'.

Definition batch_process (hr_folder output_folder : path) (mode : string)
    : M unit :=
  let hr_out := os_path_join output_folder "hr" in
  let lr_out := os_path_join output_folder "lr" in
  makedirs hr_out ;;
  makedirs lr_out ;;
  hr_files <- get_all_image_files hr_folder ;;
  print ("Found " ++ str_int (Z.of_nat (List.length hr_files)) ++ " HR images") ;;
  let processed := 0 in
  processed <-
    (if String.eqb mode "generate" then
       print "Mode: generate LR patches by downsampling HR." ;;
       batch_loop hr_files hr_out lr_out (List.length hr_files) processed
     else raise (ValueError "Unknown mode. Choose 'generate'.")) ;;
  print (newline ++ "Finished. Processed " ++ str_int processed ++ " HR images.") ;;
  print ("Output HR dir: " ++ str_path hr_out) ;;
  print ("Output LR dir: " ++ str_path lr_out).

(** The script run as a program: the generator is seeded when the module
    is loaded, then the batch runs on the fixed folders. *)
Definition main (files : list (path * node)) : result unit * world :=
  batch_process ["data"; "hr"] ["processed"] MODE
    {| fs := files; rng := seed SEED; trace := [] |}.

End Script.
End Preprocess.

Import Preprocess.

(** ** A concrete generator and a concrete kernel

    The theorems below hold for every generator and every interpolation
    kernel.  To run the script on examples, a linear congruential
    generator and nearest-neighbour sampling stand in for them. *)

Module Concrete.

Definition lcg_next (g : Z) : Z := (g * 1103515245 + 12345) mod 2147483648.

Definition lcg_randint (a b : Z) (g : Z) : Z * Z :=
  let g' := lcg_next g in (a + g' mod (b - a + 1), g').

#[export] Instance lcg : Random.
Proof.
  refine {| rng_state := Z;
            seed := fun s => s;
            randint := lcg_randint;
            randint_range := _ |}.
  intros a b g Hab. unfold lcg_randint. cbn [fst].
  pose proof (Z.mod_pos_bound (lcg_next g) (b - a + 1)) as Hm.
  lia.
Defined.

#[export] Instance nearest : Resampler := {|
  resample := fun _ img nw nh x y =>
    pix img (x * width img / nw) (y * height img / nh)
|}.

(** The texts of CPython and Pillow on Linux, for file names that
    [repr] shows between single quotes as they are. *)
#[export] Instance posix_text : ExnText := {|
  str_exn := fun e =>
    match e with
    | ZeroDivisionError => "division by zero"
    | ValueError msg => msg
    | FileNotFoundError p =>
        "[Errno 2] No such file or directory: '" ++ str_path p ++ "'"
    | FileExistsError p => "[Errno 17] File exists: '" ++ str_path p ++ "'"
    | NotADirectoryError p => "[Errno 20] Not a directory: '" ++ str_path p ++ "'"
    | IsADirectoryError p => "[Errno 21] Is a directory: '" ++ str_path p ++ "'"
    | UnidentifiedImageError p =>
        "cannot identify image file '" ++ str_path p ++ "'"
    | OSError msg => msg
    end%string
|}.

(** A test image: the sample at [(x, y)] is [(x, y, 0)]. *)
Definition gradient (w h : Z) : Image :=
  {| width := w; height := h; pix := fun x y => (x, y, 0) |}.

(** The world at the start of a run on the files [files]. *)
Definition world_of (files : list (path * node)) : world :=
  {| fs := files; rng := seed SEED; trace := [] |}.

(** The lines printed, in order. *)
Definition printed (t : list event) : list string :=
  flat_map (fun e => match e with EPrint l => [l] | _ => [] end) t.

(** The files saved with the size of the image saved, in order. *)
Definition saved (t : list event) : list (string * (Z * Z)) :=
  flat_map (fun e => match e with
                     | ESave p img => [(str_path p, size img)]
                     | _ => []
                     end) t.

(** Three sources, the second of which is no image. *)
Definition files3 : list (path * node) :=
  [ (["data"], Dir);
    (["data"; "hr"], Dir);
    (["data"; "hr"; "a.png"], ImageFile (gradient 500 500));
    (["data"; "hr"; "b.png"],
     OtherFile (UnidentifiedImageError ["data"; "hr"; "b.png"]));
    (["data"; "hr"; "c.png"], ImageFile (gradient 200 300)) ]%string.

(** Three sources with their companions, and output directories: [s]
    has a companion of another aspect, [t] one at scale 6, [u] one at
    scale 4. *)
Definition paired_files : list (path * node) :=
  [ (["data"], Dir);
    (["data"; "hr"], Dir);
    (["data"; "lr"], Dir);
    (["data"; "hr"; "s.png"], ImageFile (gradient 800 400));
    (["data"; "lr"; "s.png"], ImageFile (gradient 100 100));
    (["data"; "hr"; "t.png"], ImageFile (gradient 600 600));
    (["data"; "lr"; "t.png"], ImageFile (gradient 100 100));
    (["data"; "hr"; "u.png"], ImageFile (gradient 400 400));
    (["data"; "lr"; "u.png"], ImageFile (gradient 100 100));
    (["out"], Dir);
    (["out"; "hr"], Dir);
    (["out"; "lr"], Dir) ]%string.

(** Two sources of one stem. *)
Definition twin_files : list (path * node) :=
  [ (["data"], Dir);
    (["data"; "hr"], Dir);
    (["data"; "hr"; "a.png"], ImageFile (gradient 500 500));
    (["data"; "hr"; "a.jpg"], ImageFile (gradient 400 400)) ]%string.

(** The source of 200 by 300 as [ensure_min_size] leaves it. *)
Definition upscaled : Image :=
  {| width := 384; height := 576;
     pix := resample LANCZOS (gradient 200 300) 384 576 |}.

(** Two sources and a file that is no image, with output directories. *)
Definition ready_files : list (path * node) :=
  [ (["data"], Dir);
    (["data"; "hr"], Dir);
    (["data"; "hr"; "a.png"], ImageFile (gradient 500 500));
    (["data"; "hr"; "b.png"],
     OtherFile (UnidentifiedImageError ["data"; "hr"; "b.png"]));
    (["data"; "hr"; "c.png"], ImageFile (gradient 200 300));
    (["out"], Dir);
    (["out"; "hr"], Dir);
    (["out"; "lr"], Dir) ]%string.

(** Two sources that open, and notes that are no source. *)
Definition two_files : list (path * node) :=
  [ (["data"], Dir);
    (["data"; "hr"], Dir);
    (["data"; "hr"; "a.png"], ImageFile (gradient 500 500));
    (["data"; "hr"; "c.jpg"], ImageFile (gradient 200 300));
    (["data"; "hr"; "notes.txt"],
     OtherFile (UnidentifiedImageError ["data"; "hr"; "notes.txt"])) ]%string.

(** A file where the output folder is to be made. *)
Definition blocked_files : list (path * node) :=
  [ (["data"], Dir);
    (["data"; "hr"], Dir);
    (["data"; "hr"; "a.png"], ImageFile (gradient 500 500));
    (["processed"], OtherFile (UnidentifiedImageError ["processed"])) ]%string.

(** A source cut short, and a regular file where a folder is looked
    for. *)
Definition broken_files : list (path * node) :=
  [ (["data"], Dir);
    (["data"; "hr"], Dir);
    (["data"; "hr"; "a.png"], ImageFile (gradient 500 500));
    (["data"; "hr"; "d.png"],
     OtherFile (OSError "image file is truncated (4 bytes not processed)"));
    (["notes"], OtherFile (UnidentifiedImageError ["notes"])) ]%string.

(** The two side conditions on a concrete world: a directory is ready
    for saving; a directory of two components can be made. *)
Ltac ready :=
  split; [reflexivity | intros name; vm_compute; discriminate].

Ltac makeable :=
  let k := fresh "k" in
  let Hk := fresh "Hk" in
  intros k Hk; cbn [List.length os_path_join app] in Hk;
  assert (k = 1 \/ k = 2)%nat as [-> | ->] by lia; vm_compute; auto.

End Concrete.


(** * Facts *)

(** ** Rounding *)

Module PyFloatFacts.

Lemma pow2_pos e : (0 < pow2 e)%Q.
Proof. unfold pow2. apply Qpower_0_lt. reflexivity. Qed.

Lemma pow2_add e1 e2 : (pow2 (e1 + e2) == pow2 e1 * pow2 e2)%Q.
Proof. unfold pow2. apply Qpower_plus. discriminate. Qed.

Lemma pow2_inject n : 0 <= n -> (pow2 n == inject_Z (2 ^ n))%Q.
Proof. intros Hn. unfold pow2. rewrite Zpower_Qpower by assumption. reflexivity. Qed.

Lemma round_half_even_bounds x :
  (inject_Z (round_half_even x) - x <= 1 # 2)%Q /\
  (x - inject_Z (round_half_even x) <= 1 # 2)%Q.
Proof.
  unfold round_half_even.
  pose proof (Qfloor_le x) as Hlo.
  pose proof (Qlt_floor x) as Hhi.
  rewrite inject_Z_plus in Hhi.
  destruct (Qcompare_spec (x - inject_Z (Qfloor x)) (1 # 2)) as [He | Hl | Hg].
  - destruct (Z.even (Qfloor x)); [| rewrite inject_Z_plus];
    change (inject_Z 1) with 1%Q in *; lra.
  - change (inject_Z 1) with 1%Q in *; lra.
  - rewrite inject_Z_plus. change (inject_Z 1) with 1%Q in *; lra.
Qed.

#[export] Instance round_half_even_comp : Proper (Qeq ==> eq) round_half_even.
Proof.
  intros x y Hxy. unfold round_half_even.
  rewrite (Qfloor_comp _ _ Hxy).
  assert (Hc : (x - inject_Z (Qfloor y) ?= 1 # 2)%Q = (y - inject_Z (Qfloor y) ?= 1 # 2)%Q).
  { apply Qcompare_comp; [rewrite Hxy|]; reflexivity. }
  rewrite Hc. reflexivity.
Qed.

Lemma round_half_even_Z k : round_half_even (inject_Z k) = k.
Proof.
  unfold round_half_even. rewrite Qfloor_Z.
  destruct (Qcompare_spec (inject_Z k - inject_Z k) (1 # 2)) as [He | Hl | Hg]; try lra.
  reflexivity.
Qed.

Lemma Qdiv_mult_cancel (a c : Q) : (0 < c)%Q -> (a / c * c == a)%Q.
Proof. intros Hc. field. lra. Qed.

Lemma ulp_exp_lower x : ~ (x == 0)%Q -> (pow2 (prec - 1) * pow2 (ulp_exp x) <= Qabs x)%Q.
Proof.
  intros Hx. unfold ulp_exp.
  set (e0 := Z.log2 (Z.abs (Qnum x)) - Z.log2 (Z.pos (Qden x)) - prec).
  destruct (Qle_bool (pow2 prec) (Qabs x / pow2 e0)) eqn:Ht.
  - apply Qle_bool_iff in Ht.
    pose proof (pow2_pos e0) as Hp.
    apply (Qmult_le_compat_r _ _ (pow2 e0)) in Ht; [| lra].
    rewrite Qdiv_mult_cancel in Ht by assumption.
    rewrite pow2_add.
    assert (Hs : (pow2 prec == pow2 (prec - 1) * pow2 1)%Q).
    { rewrite <- pow2_add. reflexivity. }
    rewrite Hs in Ht. lra.
  - clear Ht. destruct x as [n d]. cbn [Qnum Qden] in e0.
    assert (Hn : 0 < Z.abs n).
    { destruct (Z.eq_dec n 0) as [-> | Hne]; [exfalso; apply Hx; reflexivity | lia]. }
    pose proof (Z.log2_spec _ Hn) as [Hlo _].
    pose proof (Z.log2_spec (Z.pos d) (Pos2Z.is_pos d)) as [_ Hhi].
    pose proof (Z.log2_nonneg (Z.abs n)) as Ha.
    pose proof (Z.log2_nonneg (Z.pos d)) as Hb.
    set (a := Z.log2 (Z.abs n)) in *. set (b := Z.log2 (Z.pos d)) in *.
    rewrite <- pow2_add.
    replace (prec - 1 + e0) with (a + - (Z.succ b)) by (unfold e0, prec; lia).
    rewrite pow2_add. unfold pow2 at 2. rewrite Qpower_opp.
    fold (pow2 (Z.succ b)).
    rewrite !pow2_inject by lia.
    change (Qabs (n # d)) with (Z.abs n # d).
    rewrite (Qmake_Qdiv (Z.abs n) d).
    apply Qle_shift_div_l; [reflexivity |].
    assert (Hpos : (0 < inject_Z (2 ^ Z.succ b))%Q).
    { rewrite <- pow2_inject by lia. apply pow2_pos. }
    setoid_replace (inject_Z (2 ^ a) * / inject_Z (2 ^ Z.succ b) * inject_Z (Z.pos d))%Q
      with (inject_Z (2 ^ a * Z.pos d) / inject_Z (2 ^ Z.succ b))%Q
      by (rewrite inject_Z_mult; field; lra).
    apply Qle_shift_div_r; [assumption |].
    rewrite <- inject_Z_mult, <- Zle_Qle.
    nia.
Qed.

Lemma pow2_prec : (pow2 prec == two53)%Q.
Proof. vm_compute. reflexivity. Qed.

(** The rounding error of [fl]: [|fl x - x| <= 2^-53 * |x|]. *)
Lemma fl_error x :
  ((fl x - x) * two53 <= Qabs x)%Q /\ ((x - fl x) * two53 <= Qabs x)%Q.
Proof.
  unfold fl. destruct (Qeq_bool x 0) eqn:Hz.
  - apply Qeq_bool_iff in Hz. rewrite Hz. cbn. split; lra.
  - assert (Hx : ~ (x == 0)%Q).
    { intros Hc. apply Qeq_bool_iff in Hc. congruence. }
    pose proof (ulp_exp_lower x Hx) as Hlow.
    set (e := ulp_exp x) in *.
    pose proof (pow2_pos e) as Hp.
    pose proof (round_half_even_bounds (x / pow2 e)) as [H1 H2].
    set (m := inject_Z (round_half_even (x / pow2 e))) in *.
    assert (Hs : (pow2 prec == pow2 (prec - 1) * 2)%Q).
    { change 2%Q with (pow2 1). rewrite <- pow2_add. reflexivity. }
    rewrite pow2_prec in Hs.
    assert (Hy : (x == x / pow2 e * pow2 e)%Q) by (rewrite Qdiv_mult_cancel; [reflexivity | assumption]).
    set (y := (x / pow2 e)%Q) in *.
    set (p := pow2 e) in *. set (q := pow2 (prec - 1)) in *.
    assert (Hq : (0 < q)%Q) by apply pow2_pos.
    split.
    + setoid_replace ((m * p - x) * two53)%Q with ((m - y) * (q * p) * 2)%Q
        by (rewrite Hs, Hy at 1; ring).
      assert ((m - y) * (q * p) <= (1 # 2) * (q * p))%Q.
      { apply Qmult_le_compat_r; [assumption | nra]. }
      lra.
    + setoid_replace ((x - m * p) * two53)%Q with ((y - m) * (q * p) * 2)%Q
        by (rewrite Hs, Hy at 1; ring).
      assert ((y - m) * (q * p) <= (1 # 2) * (q * p))%Q.
      { apply Qmult_le_compat_r; [assumption | nra]. }
      lra.
Qed.

Lemma fl_error_scaled x c :
  (0 <= x)%Q -> (0 <= c)%Q ->
  ((fl x * c - x * c) * two53 <= x * c)%Q /\
  ((x * c - fl x * c) * two53 <= x * c)%Q.
Proof.
  intros Hx Hc. destruct (fl_error x) as [H1 H2].
  rewrite (Qabs_pos x Hx) in H1, H2.
  apply (Qmult_le_compat_r _ _ c) in H1; [| assumption].
  apply (Qmult_le_compat_r _ _ c) in H2; [| assumption].
  split; lra.
Qed.

Lemma round_half_even_scaled x c :
  (0 <= c)%Q ->
  (inject_Z (round_half_even x) * c - x * c <= (1 # 2) * c)%Q /\
  (x * c - inject_Z (round_half_even x) * c <= (1 # 2) * c)%Q.
Proof.
  intros Hc. destruct (round_half_even_bounds x) as [H1 H2].
  apply (Qmult_le_compat_r _ _ c) in H1; [| assumption].
  apply (Qmult_le_compat_r _ _ c) in H2; [| assumption].
  split; lra.
Qed.

Lemma ulp_exp_int n : n <> 0 -> Z.abs n < 2 ^ prec -> ulp_exp (inject_Z n) <= 0.
Proof.
  intros Hn Hb. unfold ulp_exp. cbn [Qnum Qden inject_Z].
  change (Z.log2 1) with 0.
  assert (Z.log2 (Z.abs n) < prec).
  { apply Z.log2_lt_pow2; [lia | assumption]. }
  destruct (Qle_bool _ _); lia.
Qed.

Lemma fl_int n : Z.abs n < 2 ^ prec -> (fl (inject_Z n) == inject_Z n)%Q.
Proof.
  intros Hb. unfold fl. destruct (Qeq_bool (inject_Z n) 0) eqn:Hz.
  - apply Qeq_bool_iff in Hz. symmetry. exact Hz.
  - assert (Hn : n <> 0).
    { intros ->. discriminate Hz. }
    pose proof (ulp_exp_int n Hn Hb) as He.
    set (e := ulp_exp (inject_Z n)) in *.
    assert (Hp : (pow2 e == / inject_Z (2 ^ (- e)))%Q).
    { replace e with (- (- e)) at 1 by lia. unfold pow2. rewrite Qpower_opp.
      fold (pow2 (- e)). rewrite pow2_inject by lia. reflexivity. }
    assert (Hpos : (0 < inject_Z (2 ^ (- e)))%Q).
    { rewrite <- pow2_inject by lia. apply pow2_pos. }
    assert (Hy : (inject_Z n / pow2 e == inject_Z (n * 2 ^ (- e)))%Q).
    { rewrite Hp, inject_Z_mult. field. lra. }
    rewrite Hy, round_half_even_Z, Hp, inject_Z_mult. field. lra.
Qed.

Lemma of_int_exact n : Z.abs n < 2 ^ prec -> (of_int n == inject_Z n)%Q.
Proof. exact (fl_int n). Qed.

Lemma fl_nonneg x : (0 <= x)%Q -> (0 <= fl x)%Q.
Proof.
  intros Hx. destruct (fl_error x) as [_ H2].
  rewrite (Qabs_pos x Hx) in H2. unfold two53 in H2. lra.
Qed.

(** The new length of a side of [d] pixels when the shorter side [s] is
    brought to [m]: a nearest integer to [d * m / s]. *)
Lemma scaled_side_nearest (d s m : Z) :
  0 < s -> 0 < d -> 0 < m -> d * m < 2 ^ 50 ->
  2 * Z.abs (round_half_even (fmul (of_int d) (int_truediv m s)) * s - d * m) <= s.
Proof.
  intros Hs Hd Hm Hdm.
  assert (Hdb : Z.abs d < 2 ^ prec).
  { unfold prec. assert (d <= d * m) by nia. lia. }
  unfold fmul, int_truediv.
  set (x1 := (inject_Z m / inject_Z s)%Q).
  set (S1 := fl x1).
  set (x2 := (of_int d * S1)%Q).
  set (P := fl x2).
  set (d' := round_half_even P).
  assert (Hsq : (0 < inject_Z s)%Q) by (rewrite <- (Zlt_Qlt 0); assumption).
  assert (Hdq : (0 < inject_Z d)%Q) by (rewrite <- (Zlt_Qlt 0); assumption).
  assert (Hmq : (0 < inject_Z m)%Q) by (rewrite <- (Zlt_Qlt 0); assumption).
  assert (Hx1 : (0 <= x1)%Q).
  { unfold x1. apply Qle_shift_div_l; [assumption | lra]. }
  assert (HS1 : (0 <= S1)%Q) by (apply fl_nonneg; assumption).
  assert (Hof : (of_int d == inject_Z d)%Q) by (apply of_int_exact; assumption).
  assert (Hx2 : (0 <= x2)%Q).
  { unfold x2. rewrite Hof. apply Qmult_le_0_compat; lra. }
  assert (Hc : (0 <= inject_Z s * inject_Z d)%Q) by (apply Qmult_le_0_compat; lra).
  destruct (fl_error_scaled x1 (inject_Z s * inject_Z d) Hx1 Hc) as [A1 A2].
  fold S1 in A1, A2.
  assert (Hx1s : (x1 * (inject_Z s * inject_Z d) == inject_Z m * inject_Z d)%Q).
  { unfold x1. field. lra. }
  rewrite Hx1s in A1, A2.
  destruct (fl_error_scaled x2 (inject_Z s) Hx2 (Qlt_le_weak _ _ Hsq)) as [B1 B2].
  fold P in B1, B2.
  assert (Hx2s : (x2 * inject_Z s == S1 * (inject_Z s * inject_Z d))%Q).
  { unfold x2. rewrite Hof. ring. }
  rewrite Hx2s in B1, B2.
  destruct (round_half_even_scaled P (inject_Z s) (Qlt_le_weak _ _ Hsq)) as [C1 C2].
  fold d' in C1, C2.
  assert (HE : (inject_Z m * inject_Z d < 1125899906842624)%Q).
  { rewrite <- inject_Z_mult. change 1125899906842624%Q with (inject_Z (2 ^ 50)).
    rewrite <- Zlt_Qlt. lia. }
  unfold two53 in *.
  assert (Hup : (inject_Z (2 * (d' * s - d * m)) < inject_Z (s + 1))%Q).
  { rewrite inject_Z_plus, !inject_Z_mult. unfold Z.sub.
    rewrite inject_Z_plus, inject_Z_opp, !inject_Z_mult.
    change (inject_Z 2) with 2%Q. change (inject_Z 1) with 1%Q. lra. }
  assert (Hdn : (inject_Z (2 * (d * m - d' * s)) < inject_Z (s + 1))%Q).
  { rewrite inject_Z_plus, !inject_Z_mult. unfold Z.sub.
    rewrite inject_Z_plus, inject_Z_opp, !inject_Z_mult.
    change (inject_Z 2) with 2%Q. change (inject_Z 1) with 1%Q. lra. }
  rewrite <- Zlt_Qlt in Hup, Hdn. lia.
Qed.

Lemma ulp_exp_upper x :
  ~ (x == 0)%Q -> (Qabs x < pow2 prec * pow2 (ulp_exp x))%Q.
Proof.
  intros Hx. unfold ulp_exp.
  set (e0 := Z.log2 (Z.abs (Qnum x)) - Z.log2 (Z.pos (Qden x)) - prec).
  pose proof (pow2_pos e0) as Hp.
  destruct (Qle_bool (pow2 prec) (Qabs x / pow2 e0)) eqn:Ht.
  - clear Ht. destruct x as [n d]. cbn [Qnum Qden] in e0.
    assert (Hn : 0 < Z.abs n).
    { destruct (Z.eq_dec n 0) as [-> | Hne]; [exfalso; apply Hx; reflexivity | lia]. }
    pose proof (Z.log2_spec _ Hn) as [_ Hhi].
    pose proof (Z.log2_spec (Z.pos d) (Pos2Z.is_pos d)) as [Hlo _].
    pose proof (Z.log2_nonneg (Z.abs n)) as Ha.
    pose proof (Z.log2_nonneg (Z.pos d)) as Hb.
    set (a := Z.log2 (Z.abs n)) in *. set (b := Z.log2 (Z.pos d)) in *.
    rewrite <- pow2_add.
    replace (prec + (e0 + 1)) with (Z.succ a + - b) by (unfold e0, prec; lia).
    rewrite pow2_add. unfold pow2 at 2. rewrite Qpower_opp.
    fold (pow2 b). rewrite !pow2_inject by lia.
    change (Qabs (n # d)) with (Z.abs n # d).
    rewrite (Qmake_Qdiv (Z.abs n) d).
    assert (Hpos : (0 < inject_Z (2 ^ b))%Q).
    { rewrite <- pow2_inject by lia. apply pow2_pos. }
    apply Qlt_shift_div_r; [reflexivity |].
    setoid_replace (inject_Z (2 ^ Z.succ a) * / inject_Z (2 ^ b) * inject_Z (Z.pos d))%Q
      with (inject_Z (2 ^ Z.succ a * Z.pos d) / inject_Z (2 ^ b))%Q
      by (rewrite inject_Z_mult; field; lra).
    apply Qlt_shift_div_l; [assumption |].
    rewrite <- inject_Z_mult, <- Zlt_Qlt.
    nia.
  - assert (Hlt : (Qabs x / pow2 e0 < pow2 prec)%Q).
    { apply Qnot_le_lt. intros Hle. apply Qle_bool_iff in Hle. congruence. }
    apply (Qmult_lt_compat_r _ _ (pow2 e0)) in Hlt; [| assumption].
    rewrite Qdiv_mult_cancel in Hlt by assumption. exact Hlt.
Qed.

Lemma round_half_even_ge (x : Q) (k : Z) :
  (inject_Z k <= x)%Q -> k <= round_half_even x.
Proof.
  intros Hk. apply Qfloor_resp_le in Hk. rewrite Qfloor_Z in Hk.
  unfold round_half_even.
  destruct (_ ?= _)%Q; [destruct (Z.even _) | |]; lia.
Qed.

Lemma round_half_even_le (x : Q) (k : Z) :
  (x <= inject_Z k)%Q -> round_half_even x <= k.
Proof.
  intros Hk. destruct (Qlt_le_dec x (inject_Z k)) as [Hlt | Hge].
  - assert (Hf : Qfloor x < k).
    { apply Z.lt_nge. intros Hc. rewrite Zle_Qle in Hc.
      pose proof (Qfloor_le x). lra. }
    unfold round_half_even.
    destruct (_ ?= _)%Q; [destruct (Z.even _) | |]; lia.
  - assert (Hx : (x == inject_Z k)%Q) by lra.
    rewrite Hx, round_half_even_Z. lia.
Qed.

(** [fl x] is a binary64 value next to [x]: a significand of 53 bits
    times a power of two, at most half a unit in the last place away. *)
Lemma fl_binary64_nearest (x : Q) :
  ~ (x == 0)%Q ->
  exists m : Z,
    (fl x == inject_Z m * pow2 (ulp_exp x))%Q /\
    2 ^ (prec - 1) <= Z.abs m <= 2 ^ prec /\
    (Qabs (fl x - x) <= (1 # 2) * pow2 (ulp_exp x))%Q.
Proof.
  intros Hx. unfold fl.
  destruct (Qeq_bool x 0) eqn:Hz.
  { apply Qeq_bool_iff in Hz. contradiction. }
  pose proof (ulp_exp_lower x Hx) as Hlo.
  pose proof (ulp_exp_upper x Hx) as Hhi.
  set (e := ulp_exp x) in *.
  pose proof (pow2_pos e) as Hp.
  set (y := (x / pow2 e)%Q).
  assert (Hy : (x == y * pow2 e)%Q).
  { unfold y. rewrite Qdiv_mult_cancel; [reflexivity | assumption]. }
  rewrite !pow2_inject in Hlo, Hhi by (unfold prec; lia).
  exists (round_half_even y). split; [reflexivity |]. split.
  - destruct (Qlt_le_dec x 0) as [Hneg | Hpos].
    + rewrite (Qabs_neg x) in Hlo, Hhi by lra.
      assert (Hyl : (inject_Z (- 2 ^ prec) <= y)%Q).
      { rewrite inject_Z_opp. apply Qle_shift_div_l; [assumption |]. lra. }
      assert (Hyh : (y <= inject_Z (- 2 ^ (prec - 1)))%Q).
      { rewrite inject_Z_opp. apply Qle_shift_div_r; [assumption |]. lra. }
      apply round_half_even_ge in Hyl. apply round_half_even_le in Hyh.
      assert (0 < 2 ^ (prec - 1)) by (apply Z.pow_pos_nonneg; unfold prec; lia).
      lia.
    + rewrite (Qabs_pos x) in Hlo, Hhi by lra.
      assert (Hyl : (inject_Z (2 ^ (prec - 1)) <= y)%Q).
      { apply Qle_shift_div_l; [assumption |]. lra. }
      assert (Hyh : (y <= inject_Z (2 ^ prec))%Q).
      { apply Qle_shift_div_r; [assumption |]. lra. }
      apply round_half_even_ge in Hyl. apply round_half_even_le in Hyh.
      assert (0 < 2 ^ (prec - 1)) by (apply Z.pow_pos_nonneg; unfold prec; lia).
      lia.
  - destruct (round_half_even_scaled y (pow2 e) (Qlt_le_weak _ _ Hp)) as [H1 H2].
    apply Qabs_Qle_condition. clearbody y. split; rewrite Hy; lra.
Qed.

(** [fl] gives what the Standard Library's IEEE 754 binary64 operations
    give, on a grid of the quotients, products and differences the script
    forms. *)
Example fl_agrees_with_binary64 :
  forallb agrees_on (list_prod test_numerators test_denominators) = true
  /\ agrees lit_0_1 (SFdiv 53 1024 (SF_of_int 1) (SF_of_int 10)) = true
  /\ agrees lit_0_5 (SFdiv 53 1024 (SF_of_int 1) (SF_of_int 2)) = true.
Proof. vm_compute. auto. Qed.

End PyFloatFacts.

Import PyFloatFacts.

(** ** Dictionaries and the file system *)

Module WorldFacts.

Lemma path_eqb_eq (p q : path) : path_eqb p q = true <-> p = q.
Proof.
  unfold path_eqb. destruct (list_eq_dec string_dec p q); split; congruence.
Qed.

Lemma path_eqb_refl (p : path) : path_eqb p p = true.
Proof. apply path_eqb_eq. reflexivity. Qed.

Lemma path_eqb_neq (p q : path) : p <> q -> path_eqb p q = false.
Proof.
  intros Hne. destruct (path_eqb p q) eqn:E; [| reflexivity].
  apply path_eqb_eq in E. contradiction.
Qed.

Section DictFacts.
Context {K V : Type} (eqb : K -> K -> bool).
Hypothesis eqb_eq : forall a b, eqb a b = true <-> a = b.

Lemma dict_get_set_same (d : list (K * V)) k v :
  dict_get eqb (dict_set eqb d k v) k = Some v.
Proof.
  assert (Hr : eqb k k = true) by (apply eqb_eq; reflexivity).
  induction d as [| [k' v'] d IH]; cbn.
  - rewrite Hr. reflexivity.
  - destruct (eqb k k') eqn:E; cbn.
    + rewrite Hr. reflexivity.
    + rewrite E. exact IH.
Qed.

Lemma dict_get_set_other (d : list (K * V)) k v k' :
  k' <> k -> dict_get eqb (dict_set eqb d k v) k' = dict_get eqb d k'.
Proof.
  intros Hne.
  assert (Hf : eqb k' k = false).
  { destruct (eqb k' k) eqn:E; [apply eqb_eq in E; contradiction | reflexivity]. }
  induction d as [| [k0 v0] d IH]; cbn.
  - rewrite Hf. reflexivity.
  - destruct (eqb k k0) eqn:E; cbn.
    + apply eqb_eq in E. subst k0. rewrite Hf. reflexivity.
    + destruct (eqb k' k0); [reflexivity | exact IH].
Qed.
End DictFacts.

Section DictMore.
Context {K V : Type} (eqb : K -> K -> bool).
Hypothesis eqb_eq : forall a b, eqb a b = true <-> a = b.

Lemma dict_set_keys (d : list (K * V)) k v k' :
  In k' (map fst (dict_set eqb d k v)) <-> k' = k \/ In k' (map fst d).
Proof.
  induction d as [| [k0 v0] d IH]; cbn.
  - intuition.
  - destruct (eqb k k0) eqn:E; cbn.
    + apply eqb_eq in E. subst k0. intuition.
    + rewrite IH. intuition.
Qed.

Lemma dict_set_NoDup (d : list (K * V)) k v :
  NoDup (map fst d) -> NoDup (map fst (dict_set eqb d k v)).
Proof.
  induction d as [| [k0 v0] d IH]; cbn; intros Hnd.
  - constructor; [intros [] | constructor].
  - inversion Hnd as [| ? ? Hnin Hnd']; subst.
    destruct (eqb k k0) eqn:E; cbn.
    + apply eqb_eq in E. subst k0. constructor; assumption.
    + constructor; [| apply IH; assumption].
      rewrite dict_set_keys. intros [-> | Hin]; [| contradiction].
      assert (eqb k k = true) by (apply eqb_eq; reflexivity). congruence.
Qed.

Lemma dict_get_In (d : list (K * V)) k v :
  dict_get eqb d k = Some v -> In (k, v) d.
Proof.
  induction d as [| [k0 v0] d IH]; cbn; [discriminate |].
  destruct (eqb k k0) eqn:E.
  - apply eqb_eq in E. subst k0. intros [= ->]. left. reflexivity.
  - intros Hg. right. apply IH. exact Hg.
Qed.

Lemma dict_In_get (d : list (K * V)) k v :
  NoDup (map fst d) -> In (k, v) d -> dict_get eqb d k = Some v.
Proof.
  induction d as [| [k0 v0] d IH]; cbn; [intros _ [] |].
  intros Hnd Hin. inversion Hnd as [| ? ? Hnin Hnd']; subst.
  destruct Hin as [[= -> ->] | Hin].
  - assert (E : eqb k k = true) by (apply eqb_eq; reflexivity).
    rewrite E. reflexivity.
  - destruct (eqb k k0) eqn:E.
    + apply eqb_eq in E. subst k0. exfalso. apply Hnin.
      apply (in_map fst) in Hin. exact Hin.
    + apply IH; assumption.
Qed.

(** Assignments in sequence: the last assignment to a key is the one
    that stays. *)
Lemma dict_fold_last (key : V -> K) (l1 l2 : list V) (x : V) (d : list (K * V)) :
  (forall y, In y l2 -> key y <> key x) ->
  dict_get eqb (fold_left (fun d y => dict_set eqb d (key y) y)
                          (l1 ++ x :: l2) d) (key x) = Some x.
Proof.
  intros Hl2. rewrite fold_left_app. cbn [fold_left].
  set (d1 := dict_set eqb _ (key x) x).
  assert (H1 : dict_get eqb d1 (key x) = Some x)
    by (apply dict_get_set_same; exact eqb_eq).
  clearbody d1. revert d1 H1.
  induction l2 as [| y l2 IH]; intros d1 H1; cbn [fold_left]; [exact H1 |].
  apply IH.
  - intros z Hz. apply Hl2. right. exact Hz.
  - rewrite dict_get_set_other; [exact H1 | exact eqb_eq |].
    intros Hc. apply (Hl2 y); [left; reflexivity | symmetry; exact Hc].
Qed.

Lemma dict_fold_NoDup (key : V -> K) (l : list V) (d : list (K * V)) :
  NoDup (map fst d) ->
  NoDup (map fst (fold_left (fun d y => dict_set eqb d (key y) y) l d)).
Proof.
  revert d. induction l as [| y l IH]; intros d Hnd; cbn [fold_left]; [exact Hnd |].
  apply IH, dict_set_NoDup, Hnd.
Qed.
End DictMore.

Lemma string_eqb_eq (a b : string) : String.eqb a b = true <-> a = b.
Proof. apply String.eqb_eq. Qed.

Lemma fold_left_flat_map {A B C} (f : A -> C -> A) (g : B -> list C)
    (l : list B) (a : A) :
  fold_left f (flat_map g l) a = fold_left (fun a x => fold_left f (g x) a) l a.
Proof.
  revert a. induction l as [| x l IH]; intros a; cbn; [reflexivity |].
  rewrite fold_left_app. apply IH.
Qed.

Section Facts.
Context {rnd : Random}.

Lemma lookup_set_same (w : world) p n :
  lookup (snd (set_node p n w)) p = Some n.
Proof. unfold lookup, set_node. cbn. apply dict_get_set_same, path_eqb_eq. Qed.

Lemma lookup_set_other (w : world) p n q :
  q <> p -> lookup (snd (set_node p n w)) q = lookup w q.
Proof.
  intros Hne. unfold lookup, set_node. cbn.
  apply dict_get_set_other; [apply path_eqb_eq | exact Hne].
Qed.

Lemma same_dirs_refl w : same_dirs w w.
Proof. intros q. reflexivity. Qed.

Lemma same_dirs_fs w w' : fs w' = fs w -> same_dirs w w'.
Proof. intros E q. unfold lookup. rewrite E. reflexivity. Qed.

Lemma same_dirs_trans w1 w2 w3 :
  same_dirs w1 w2 -> same_dirs w2 w3 -> same_dirs w1 w3.
Proof. intros H12 H23 q. rewrite (H23 q). apply H12. Qed.

Lemma out_ready_same_dirs w w' d :
  same_dirs w w' -> out_ready w d -> out_ready w' d.
Proof.
  intros Hs [Hd Hn]. split.
  - unfold is_dir in *. destruct d as [| c d]; [reflexivity |].
    destruct (lookup w (c :: d)) as [[| |] |] eqn:E; try discriminate.
    apply Hs in E. rewrite E. reflexivity.
  - intros name Hc. apply Hs in Hc. exact (Hn name Hc).
Qed.

Lemma save_ok (img : Image) (d : path) (name : string) (w : world) :
  out_ready w d ->
  exists w',
    save img (os_path_join d name) w = (Ok tt, w') /\
    trace w' = trace w ++ [ESave (os_path_join d name) img] /\
    rng w' = rng w /\
    same_dirs w w'.
Proof.
  intros [Hd Hn]. unfold save, os_path_join.
  rewrite removelast_last, Hd. cbn [negb].
  specialize (Hn name). unfold os_path_join in Hn.
  eexists. split.
  - destruct (lookup w (d ++ [name])) as [[| |] |]; try reflexivity. congruence.
  - cbn [trace rng]. split; [reflexivity |]. split; [reflexivity |].
    intros q. unfold lookup at 1. cbn [fs].
    destruct (list_eq_dec string_dec q (d ++ [name])) as [-> | Hne].
    + rewrite dict_get_set_same by apply path_eqb_eq. split; congruence.
    + rewrite dict_get_set_other; [reflexivity | apply path_eqb_eq | exact Hne].
Qed.

(** *** Creating the output directories *)

Lemma adds_dirs_refl w : adds_dirs w w.
Proof. split; [reflexivity | intros q; left; reflexivity]. Qed.

Lemma adds_dirs_trans w1 w2 w3 :
  adds_dirs w1 w2 -> adds_dirs w2 w3 -> adds_dirs w1 w3.
Proof.
  intros [Hr12 H12] [Hr23 H23]. split; [congruence |].
  intros q. destruct (H12 q) as [E12 | [N12 D12]], (H23 q) as [E23 | [N23 D23]].
  - left. congruence.
  - right. split; congruence.
  - right. split; congruence.
  - congruence.
Qed.

Lemma mkdir_chain_frame (todo : list string) :
  forall (done : path) (w : world),
  exists r w',
    mkdir_chain done todo w = (r, w') /\
    trace w' = trace w /\ adds_dirs w w'.
Proof.
  induction todo as [| c todo IH]; intros done w; cbn [mkdir_chain].
  - exists (Ok tt), w. split; [reflexivity |]. split; [reflexivity |].
    apply adds_dirs_refl.
  - unfold bind at 1.
    destruct (lookup w (done ++ [c])) as [[| img |] |] eqn:El.
    + apply IH.
    + destruct todo; eexists; exists w; (split; [reflexivity |]);
        (split; [reflexivity | apply adds_dirs_refl]).
    + destruct todo; eexists; exists w; (split; [reflexivity |]);
        (split; [reflexivity | apply adds_dirs_refl]).
    + unfold bind at 1.
      change (set_node (done ++ [c]) Dir w)
        with (Ok tt, snd (set_node (done ++ [c]) Dir w)).
      set (w1 := snd (set_node (done ++ [c]) Dir w)).
      destruct (IH (done ++ [c]) w1) as (r & w' & E & Htr & Hadd).
      exists r, w'. split; [exact E |]. split; [rewrite Htr; reflexivity |].
      apply (adds_dirs_trans _ w1); [| exact Hadd].
      split; [reflexivity |]. intros q.
      destruct (list_eq_dec string_dec q (done ++ [c])) as [-> | Hne].
      * right. split; [exact El |]. apply lookup_set_same.
      * left. apply lookup_set_other. exact Hne.
Qed.

Lemma mkdir_chain_ok (todo : list string) :
  forall (done : path) (w : world),
  (forall k, (1 <= k <= List.length todo)%nat ->
     lookup w (done ++ firstn k todo) = None
     \/ lookup w (done ++ firstn k todo) = Some Dir) ->
  fst (mkdir_chain done todo w) = Ok tt.
Proof.
  induction todo as [| c todo IH]; intros done w Hfree; cbn [mkdir_chain].
  - reflexivity.
  - unfold bind at 1.
    assert (Hc : lookup w (done ++ [c]) = None \/ lookup w (done ++ [c]) = Some Dir).
    { apply (Hfree 1%nat). cbn [List.length]. lia. }
    assert (Hrest : forall w1, adds_dirs w w1 ->
              fst (mkdir_chain (done ++ [c]) todo w1) = Ok tt).
    { intros w1 [_ Hadd]. apply IH. intros k Hk.
      rewrite <- app_assoc. cbn [app].
      change (c :: firstn k todo) with (firstn (S k) (c :: todo)).
      specialize (Hfree (S k)). cbn [List.length] in Hfree.
      destruct (Hadd (done ++ firstn (S k) (c :: todo))) as [E | [_ E]].
      - rewrite E. apply Hfree. lia.
      - right. exact E. }
    destruct Hc as [El | El]; rewrite El.
    + unfold bind at 1.
      change (set_node (done ++ [c]) Dir w)
        with (Ok tt, snd (set_node (done ++ [c]) Dir w)).
      apply Hrest. split; [reflexivity |]. intros q.
      destruct (list_eq_dec string_dec q (done ++ [c])) as [-> | Hne].
      * right. split; [exact El |]. apply lookup_set_same.
      * left. apply lookup_set_other. exact Hne.
    + apply Hrest, adds_dirs_refl.
Qed.

Lemma makedirs_frame (p : path) (w : world) :
  exists r w',
    makedirs p w = (r, w') /\
    trace w' = trace w ++ [EMakedirs p] /\ adds_dirs w w'.
Proof.
  unfold makedirs, bind, log.
  set (w0 := {| fs := fs w; rng := rng w; trace := trace w ++ [EMakedirs p] |}).
  destruct (mkdir_chain_frame p [] w0) as (r & w' & E & Htr & Hadd).
  exists r, w'. split; [exact E |]. split; [exact Htr |].
  exact Hadd.
Qed.

Lemma makedirs_ok (p : path) (w : world) :
  can_makedirs w p -> fst (makedirs p w) = Ok tt.
Proof.
  intros Hcan. unfold makedirs, bind, log.
  set (w0 := {| fs := fs w; rng := rng w; trace := trace w ++ [EMakedirs p] |}).
  apply (mkdir_chain_ok p [] w0). intros k Hk. cbn [app]. apply Hcan. exact Hk.
Qed.

Lemma can_makedirs_adds_dirs (w w' : world) (p : path) :
  adds_dirs w w' -> can_makedirs w p -> can_makedirs w' p.
Proof.
  intros [_ Hadd] Hcan k Hk.
  destruct (Hadd (firstn k p)) as [E | [_ E]].
  - rewrite E. apply Hcan. exact Hk.
  - right. exact E.
Qed.


(** *** Files opened by a run *)

Lemma opened_app (t1 t2 : list event) : opened (t1 ++ t2) = opened t1 ++ opened t2.
Proof. unfold opened. apply flat_map_app. Qed.

Lemma quiet_ret {A} (a : A) : quiet (ret a).
Proof. intros w. exists []. rewrite app_nil_r. auto. Qed.

Lemma quiet_lift {A} (r : result A) : quiet (lift r).
Proof. intros w. exists []. rewrite app_nil_r. auto. Qed.

Lemma quiet_bind {A B} (c : M A) (k : A -> M B) :
  quiet c -> (forall a, quiet (k a)) -> quiet (bind c k).
Proof.
  intros Hc Hk w. unfold bind. destruct (Hc w) as (e1 & T1 & O1).
  destruct (c w) as [[a | e] w1]; cbn [snd] in *.
  - destruct (Hk a w1) as (e2 & T2 & O2). exists (e1 ++ e2).
    rewrite T2, T1, opened_app, O1, O2, app_assoc. auto.
  - exists e1. auto.
Qed.

Lemma quiet_print (line : string) : quiet (print line).
Proof. intros w. exists [EPrint line]. auto. Qed.

Lemma quiet_save (img : Image) (p : path) : quiet (save img p).
Proof.
  intros w. unfold save.
  destruct (negb (is_dir w (removelast p))).
  - exists []. rewrite app_nil_r. auto.
  - destruct (lookup w p) as [[| |] |]; cbn [snd trace];
      solve [exists []; rewrite app_nil_r; auto | exists [ESave p img]; auto].
Qed.

Lemma quiet_py_randint (a b : Z) : quiet (py_randint a b).
Proof.
  intros w. unfold py_randint. exists []. rewrite app_nil_r.
  destruct (b <? a); [auto |]. destruct (randint a b (rng w)). auto.
Qed.

Lemma quiet_for_each {X} (xs : list X) (body : X -> M unit) :
  (forall x, quiet (body x)) -> quiet (for_each xs body).
Proof.
  intros Hb. induction xs as [| x xs IH]; cbn [for_each].
  - apply quiet_ret.
  - apply quiet_bind; [apply Hb | intros _; exact IH].
Qed.

(** The invariant rule for a [for] loop whose body does not raise. *)
Lemma for_each_inv {X} (xs : list X) (body : X -> M unit)
    (I : nat -> world -> Prop) (w : world) :
  (forall k x w1, nth_error xs k = Some x -> I k w1 ->
     exists w2, body x w1 = (Ok tt, w2) /\ I (S k) w2) ->
  I O w ->
  exists w', for_each xs body w = (Ok tt, w') /\ I (List.length xs) w'.
Proof.
  revert I w. induction xs as [| x xs IH]; intros I w Hbody H0.
  - exists w. split; [reflexivity | exact H0].
  - cbn [for_each]. unfold bind.
    destruct (Hbody O x w eq_refl H0) as (w1 & E1 & H1). rewrite E1.
    destruct (IH (fun k => I (S k)) w1) as (w' & E' & H').
    + intros k y w2 Hk Hi. exact (Hbody (S k) y w2 Hk Hi).
    + exact H1.
    + exists w'. split; [exact E' | exact H'].
Qed.

Lemma nth_error_range n k x :
  nth_error (range n) k = Some x -> x = Z.of_nat k.
Proof.
  unfold range. intros E. rewrite nth_error_map in E.
  destruct (nth_error (seq 0 (Z.to_nat n)) k) as [j |] eqn:Ej; [| discriminate].
  injection E as <-. apply nth_error_In in Ej as Hin.
  assert (Hlt : (k < List.length (seq 0 (Z.to_nat n)))%nat).
  { apply nth_error_Some. congruence. }
  rewrite (nth_error_nth' _ O Hlt) in Ej. injection Ej as <-.
  rewrite length_seq in Hlt. rewrite seq_nth by assumption. reflexivity.
Qed.

Lemma length_range n : List.length (range n) = Z.to_nat n.
Proof. unfold range. rewrite length_map, length_seq. reflexivity. Qed.

End Facts.
End WorldFacts.

Import WorldFacts.

(** ** Geometry: [ensure_min_size], [center_crop], [random_crop] *)

Module GeometryFacts.
Section Geometry.
Context {rnd : Random} {rsm : Resampler}.

Lemma resize_ok (img : Image) (nw nh : Z) (f : Resampling) :
  1 <= nw -> 1 <= nh ->
  exists img', resize img (nw, nh) f = Ok img' /\ size img' = (nw, nh).
Proof.
  intros Hw Hh. unfold resize.
  destruct ((nw =? width img) && (nh =? height img)) eqn:Hsame.
  - apply andb_true_iff in Hsame as [Ew Eh].
    apply Z.eqb_eq in Ew, Eh. exists (copy img). unfold copy, size. subst. auto.
  - destruct (Z.ltb_spec nw 1); [lia |]. destruct (Z.ltb_spec nh 1); [lia |].
    cbn [orb]. eexists. split; reflexivity.
Qed.

Lemma ensure_min_size_large (img : Image) (min_size : Z) :
  Z.min (width img) (height img) >= min_size ->
  ensure_min_size img min_size = Ok img.
Proof.
  intros Hmin. unfold ensure_min_size, size.
  rewrite Z.geb_leb. destruct (Z.leb_spec min_size (Z.min (width img) (height img))); [reflexivity | lia].
Qed.

Lemma ensure_min_size_small (img : Image) (min_size : Z) :
  0 < width img -> 0 < height img ->
  Z.min (width img) (height img) < min_size ->
  Z.max (width img) (height img) * min_size < 2 ^ 50 ->
  exists img',
    ensure_min_size img min_size = Ok img' /\
    Z.min (width img') (height img') = min_size /\
    2 * Z.abs (width img' * Z.min (width img) (height img)
               - width img * min_size) <= Z.min (width img) (height img) /\
    2 * Z.abs (height img' * Z.min (width img) (height img)
               - height img * min_size) <= Z.min (width img) (height img).
Proof.
  intros Hw Hh Hmin Hbound. unfold ensure_min_size, size.
  set (s := Z.min (width img) (height img)) in *.
  assert (Hs : 0 < s) by (unfold s; lia).
  rewrite Z.geb_leb. destruct (Z.leb_spec min_size s) as [Hle | _]; [lia |].
  destruct (Z.eqb_spec s 0) as [Hz | _]; [lia |].
  assert (Hm : 0 < min_size) by lia.
  assert (Hbw : width img * min_size < 2 ^ 50) by nia.
  assert (Hbh : height img * min_size < 2 ^ 50) by nia.
  pose proof (scaled_side_nearest (width img) s min_size Hs Hw Hm Hbw) as Nw.
  pose proof (scaled_side_nearest (height img) s min_size Hs Hh Hm Hbh) as Nh.
  set (nw := round_half_even (fmul (of_int (width img)) (int_truediv min_size s))) in *.
  set (nh := round_half_even (fmul (of_int (height img)) (int_truediv min_size s))) in *.
  assert (Hnw : min_size <= nw) by (unfold s in *; nia).
  assert (Hnh : min_size <= nh) by (unfold s in *; nia).
  assert (Hmin' : Z.min nw nh = min_size).
  { unfold s in *. destruct (Z.min_spec (width img) (height img)) as [[_ E] | [_ E]];
      rewrite E in *; nia. }
  unfold resize.
  destruct ((nw =? width img) && (nh =? height img)) eqn:Hsame.
  - apply andb_true_iff in Hsame as [Ew Eh].
    apply Z.eqb_eq in Ew, Eh. unfold s in *. lia.
  - destruct (Z.ltb_spec nw 1); [lia |]. destruct (Z.ltb_spec nh 1); [lia |].
    cbn [orb]. eexists. split; [reflexivity |]. cbn [width height].
    auto.
Qed.

Lemma ensure_min_size_ok (img : Image) (min_size : Z) :
  0 < width img -> 0 < height img ->
  Z.max (width img) (height img) * min_size < 2 ^ 50 ->
  exists img',
    ensure_min_size img min_size = Ok img' /\
    min_size <= width img' /\ min_size <= height img'.
Proof.
  intros Hw Hh Hb.
  destruct (Z_lt_ge_dec (Z.min (width img) (height img)) min_size) as [Hlt | Hge].
  - destruct (ensure_min_size_small img min_size Hw Hh Hlt Hb)
      as (img' & E & Hmin & _).
    exists img'. split; [exact E | lia].
  - exists img. split; [apply ensure_min_size_large; exact Hge | lia].
Qed.

(** C7.  An image whose shorter side is at least [min_size] comes back
    from [ensure_min_size] as it went in: the same size and the same
    samples. *)
Theorem ensure_min_size_identity (img : Image) (min_size : Z) :
  Z.min (width img) (height img) >= min_size ->
  ensure_min_size img min_size = Ok img.
Proof. exact (ensure_min_size_large img min_size). Qed.

(** C6.  An image whose shorter side [s] is below [min_size] comes back
    from [ensure_min_size] with its shorter side equal to [min_size], and
    with each side [d] replaced by an integer nearest to
    [d * min_size / s], so within half a pixel of the uniformly scaled
    length.  The sides are positive and [max side * min_size < 2^50],
    which keeps the binary64 products exact enough; every image PIL can
    hold meets it for the thresholds 384 and 96 of the script. *)
Theorem ensure_min_size_upscales (img : Image) (min_size : Z) :
  0 < width img -> 0 < height img ->
  Z.min (width img) (height img) < min_size ->
  Z.max (width img) (height img) * min_size < 2 ^ 50 ->
  exists img',
    ensure_min_size img min_size = Ok img' /\
    Z.min (width img') (height img') = min_size /\
    2 * Z.abs (width img' * Z.min (width img) (height img)
               - width img * min_size) <= Z.min (width img) (height img) /\
    2 * Z.abs (height img' * Z.min (width img) (height img)
               - height img * min_size) <= Z.min (width img) (height img).
Proof. exact (ensure_min_size_small img min_size). Qed.

Lemma crop_ok (img : Image) (l t cw ch : Z) :
  0 <= cw -> 0 <= ch ->
  exists patch,
    crop img (l, t, l + cw, t + ch) = Ok patch /\
    size patch = (cw, ch) /\
    forall x y,
      pix patch x y =
      if (0 <=? l + x) && (l + x <? width img)
         && (0 <=? t + y) && (t + y <? height img)
      then pix img (l + x) (t + y) else black.
Proof.
  intros Hcw Hch. unfold crop.
  destruct (Z.ltb_spec (l + cw) l); [lia |].
  destruct (Z.ltb_spec (t + ch) t); [lia |].
  eexists. split; [reflexivity |]. split.
  - unfold size. cbn [width height]. f_equal; lia.
  - intros x y. reflexivity.
Qed.

Lemma py_randint_ok (a b : Z) (w : world) :
  a <= b ->
  exists v w',
    py_randint a b w = (Ok v, w') /\ a <= v <= b /\
    fs w' = fs w /\ trace w' = trace w.
Proof.
  intros Hab. unfold py_randint.
  destruct (Z.ltb_spec b a); [lia |].
  pose proof (randint_range a b (rng w) Hab) as Hr.
  destruct (randint a b (rng w)) as [v g]. cbn [fst] in Hr.
  exists v. eexists. split; [reflexivity |]. cbn [fs trace]. auto.
Qed.

Lemma center_crop_spec (img : Image) (crop_w crop_h : Z) :
  0 <= crop_w -> 0 <= crop_h ->
  exists patch off,
    center_crop img crop_w crop_h = Ok (patch, off) /\
    off = (Z.max 0 ((width img - crop_w) / 2),
           Z.max 0 ((height img - crop_h) / 2)) /\
    crop img (fst off, snd off, fst off + crop_w, snd off + crop_h) = Ok patch /\
    (crop_w <= width img -> crop_h <= height img ->
     in_bounds img crop_w crop_h off).
Proof.
  intros Hcw Hch. unfold center_crop, size.
  set (l := Z.max 0 ((width img - crop_w) / 2)).
  set (t := Z.max 0 ((height img - crop_h) / 2)).
  destruct (crop_ok img l t crop_w crop_h Hcw Hch) as (patch & E & _).
  rewrite E. cbn [rbind]. exists patch, (l, t).
  split; [reflexivity |]. split; [reflexivity |]. split; [exact E |].
  intros Hw Hh. unfold in_bounds. cbn [fst snd].
  assert (0 <= (width img - crop_w) / 2 <= width img - crop_w).
  { split; [apply Z.div_pos; lia | apply Z.div_le_upper_bound; lia]. }
  assert (0 <= (height img - crop_h) / 2 <= height img - crop_h).
  { split; [apply Z.div_pos; lia | apply Z.div_le_upper_bound; lia]. }
  unfold l, t. lia.
Qed.

Lemma random_crop_spec (img : Image) (crop_w crop_h : Z) (w : world) :
  0 <= crop_w -> 0 <= crop_h ->
  exists patch off w',
    random_crop img crop_w crop_h w = (Ok (patch, off), w') /\
    fs w' = fs w /\ trace w' = trace w /\
    (size img = (crop_w, crop_h) /\ patch = copy img /\ off = (0, 0) /\ w' = w
     \/ size img <> (crop_w, crop_h) /\
        crop img (fst off, snd off, fst off + crop_w, snd off + crop_h)
          = Ok patch) /\
    (crop_w <= width img -> crop_h <= height img ->
     in_bounds img crop_w crop_h off).
Proof.
  intros Hcw Hch. unfold random_crop, size.
  destruct ((width img =? crop_w) && (height img =? crop_h)) eqn:Hsame.
  - apply andb_true_iff in Hsame as [Ew Eh]. apply Z.eqb_eq in Ew, Eh.
    exists (copy img), (0, 0), w. split; [reflexivity |].
    split; [reflexivity |]. split; [reflexivity |]. split.
    + left. subst. auto.
    + intros _ _. unfold in_bounds. cbn [fst snd]. lia.
  - assert (Hne : (width img, height img) <> (crop_w, crop_h)).
    { intros E. injection E as Ew Eh. rewrite Ew, Eh, !Z.eqb_refl in Hsame.
      discriminate. }
    unfold bind.
    destruct (py_randint_ok 0 (Z.max 0 (width img - crop_w)) w)
      as (l & w1 & E1 & Hl & Hfs1 & Htr1); [lia |].
    rewrite E1.
    destruct (py_randint_ok 0 (Z.max 0 (height img - crop_h)) w1)
      as (t & w2 & E2 & Ht & Hfs2 & Htr2); [lia |].
    rewrite E2. unfold lift.
    destruct (crop_ok img l t crop_w crop_h) as (patch & E & _); [lia | lia |].
    rewrite E. exists patch, (l, t), w2. split; [reflexivity |].
    split; [congruence |]. split; [congruence |]. split; [right; auto |].
    intros Hw Hh. unfold in_bounds. cbn [fst snd]. lia.
Qed.

(** C5.  For a window that fits the image ([0 <= crop_w <= width] and
    [0 <= crop_h <= height]) both [center_crop] and [random_crop] return,
    and the offset [(left, top)] they return has [left >= 0], [top >= 0],
    [left + crop_w <= width] and [top + crop_h <= height]. *)
Theorem crop_offsets_in_bounds (img : Image) (crop_w crop_h : Z) (w : world) :
  0 <= crop_w <= width img -> 0 <= crop_h <= height img ->
  (exists patch off,
     center_crop img crop_w crop_h = Ok (patch, off) /\
     in_bounds img crop_w crop_h off) /\
  (exists patch off w',
     random_crop img crop_w crop_h w = (Ok (patch, off), w') /\
     in_bounds img crop_w crop_h off).
Proof.
  intros [Hcw Hw] [Hch Hh]. split.
  - destruct (center_crop_spec img crop_w crop_h Hcw Hch)
      as (patch & off & E & _ & _ & Hin).
    exists patch, off. auto.
  - destruct (random_crop_spec img crop_w crop_h w Hcw Hch)
      as (patch & off & w' & E & _ & _ & _ & Hin).
    exists patch, off, w'. auto.
Qed.

(** C10.  On an image of exactly the requested size [random_crop]
    returns a copy at offset [(0, 0)] and leaves the world, the generator
    in it included, as it was: whatever runs next runs as if the call had
    not been made. *)
Theorem random_crop_exact_size (img : Image) (crop_w crop_h : Z) (w : world) :
  width img = crop_w -> height img = crop_h ->
  random_crop img crop_w crop_h w = (Ok (copy img, (0, 0)), w) /\
  forall (A : Type) (k : Image * (Z * Z) -> M A),
    bind (random_crop img crop_w crop_h) k w = k (copy img, (0, 0)) w.
Proof.
  intros Ew Eh.
  assert (E : random_crop img crop_w crop_h w = (Ok (copy img, (0, 0)), w)).
  { unfold random_crop, size. rewrite Ew, Eh, !Z.eqb_refl. reflexivity. }
  split; [exact E |].
  intros A k. unfold bind. rewrite E. reflexivity.
Qed.


Lemma decoded_min_size (img0 : Image) (m : Z) :
  decoded img0 -> 0 < m <= 2 ^ 19 ->
  exists img, ensure_min_size img0 m = Ok img /\ m <= width img /\ m <= height img.
Proof.
  intros [Hw Hh] Hm. apply ensure_min_size_ok; [lia | lia |].
  assert (Z.max (width img0) (height img0) < 2 ^ 31) by lia.
  assert (Z.max (width img0) (height img0) * m < 2 ^ 31 * 2 ^ 19) by nia.
  lia.
Qed.

Lemma downsample_ok (img : Image) :
  exists lr, downsample img (LR_PATCH, LR_PATCH) = Ok lr /\
             size lr = (LR_PATCH, LR_PATCH).
Proof. unfold downsample. apply resize_ok; unfold LR_PATCH; lia. Qed.

Lemma quiet_random_crop (img : Image) (cw ch : Z) : quiet (random_crop img cw ch).
Proof.
  unfold random_crop, size.
  destruct ((width img =? cw) && (height img =? ch)); [apply quiet_ret |].
  apply quiet_bind; [apply quiet_py_randint | intros l].
  apply quiet_bind; [apply quiet_py_randint | intros t].
  apply quiet_bind; [apply quiet_lift | intros p]. apply quiet_ret.
Qed.

End Geometry.
End GeometryFacts.

Import GeometryFacts.

(** ** Generate mode and paired mode *)

Module ScriptFacts.
Section Script.
Context {rnd : Random} {rsm : Resampler}.

Lemma pair_events_app ho lo base i ps qs :
  pair_events ho lo base i (ps ++ qs)
  = pair_events ho lo base i ps
    ++ pair_events ho lo base (i + Z.of_nat (List.length ps)) qs.
Proof.
  revert i. induction ps as [| [hp lp] ps IH]; intros i; cbn [pair_events app List.length].
  - rewrite Z.add_0_r. reflexivity.
  - rewrite IH. cbn [app]. f_equal. f_equal. f_equal. f_equal. rewrite Nat2Z.inj_succ. lia.
Qed.

(** The patches written by generate mode for a source that opens. *)
Lemma process_generate_mode_spec (hr_path ho lo : path) (n : Z) (rc : bool)
    (w : world) (img0 img : Image) :
  lookup w hr_path = Some (ImageFile img0) ->
  ensure_min_size img0 MIN_HR_DIM = Ok img ->
  HR_PATCH <= width img -> HR_PATCH <= height img ->
  out_ready w ho -> out_ready w lo ->
  exists pairs w',
    process_generate_mode hr_path ho lo n rc w = (Ok tt, w') /\
    List.length pairs = Z.to_nat n /\
    trace w' = trace w ++ EOpen hr_path
                 :: pair_events ho lo (path_stem hr_path) 0 pairs /\
    Forall (generated_pair img) pairs /\
    Forall (fun pr => size (fst pr) = (HR_PATCH, HR_PATCH)
                      /\ size (snd pr) = (LR_PATCH, LR_PATCH)) pairs /\
    same_dirs w w'.
Proof.
  intros Hlook Hens Hw Hh Hho Hlo.
  unfold process_generate_mode, open_rgb, bind at 1 2, log.
  unfold lookup at 1. cbn [fs]. fold (lookup w hr_path). rewrite Hlook.
  unfold bind at 1, lift at 1. rewrite Hens. unfold size.
  set (w0 := {| fs := fs w; rng := rng w; trace := trace w ++ [EOpen hr_path] |}).
  assert (Hw0 : same_dirs w w0) by (apply same_dirs_fs; reflexivity).
  match goal with
  | |- context [for_each ?xs ?body] =>
      destruct (for_each_inv xs body
        (fun k w1 => exists pairs,
           List.length pairs = k /\
           trace w1 = trace w0 ++ pair_events ho lo (path_stem hr_path) 0 pairs /\
           Forall (generated_pair img) pairs /\
           Forall (fun pr => size (fst pr) = (HR_PATCH, HR_PATCH)
                             /\ size (snd pr) = (LR_PATCH, LR_PATCH)) pairs /\
           same_dirs w w1) w0) as (w' & E & pairs & Hlen & Htr & Hgen & Hsz & Hsd)
  end.
  - intros k i w1 Hnth (pairs & Hlen & Htr & Hgen & Hsz & Hsd).
    apply nth_error_range in Hnth. subst i.
    assert (Hcrop : exists hp off w2,
      (if rc
       then if (width img >? HR_PATCH) && (height img >? HR_PATCH)
            then random_crop img HR_PATCH HR_PATCH
            else lift (center_crop img HR_PATCH HR_PATCH)
       else lift (center_crop img HR_PATCH HR_PATCH)) w1 = (Ok (hp, off), w2) /\
      fs w2 = fs w1 /\ trace w2 = trace w1 /\
      in_bounds img HR_PATCH HR_PATCH off /\
      crop img (fst off, snd off, fst off + HR_PATCH, snd off + HR_PATCH) = Ok hp).
    { assert (Hcenter : exists hp off w2,
        lift (center_crop img HR_PATCH HR_PATCH) w1 = (Ok (hp, off), w2) /\
        fs w2 = fs w1 /\ trace w2 = trace w1 /\
        in_bounds img HR_PATCH HR_PATCH off /\
        crop img (fst off, snd off, fst off + HR_PATCH, snd off + HR_PATCH) = Ok hp).
      { destruct (center_crop_spec img HR_PATCH HR_PATCH)
          as (hp & off & E & _ & Hc & Hin); [unfold HR_PATCH; lia .. |].
        exists hp, off, w1. unfold lift. rewrite E. auto 10. }
      destruct rc; [| exact Hcenter].
      destruct ((width img >? HR_PATCH) && (height img >? HR_PATCH)) eqn:Hbig;
        [| exact Hcenter].
      apply andb_true_iff in Hbig as [Hbw Hbh].
      apply Z.gtb_lt in Hbw, Hbh.
      destruct (random_crop_spec img HR_PATCH HR_PATCH w1)
        as (hp & off & w2 & E & Hfs & Htr' & Hcase & Hin); [unfold HR_PATCH; lia .. |].
      exists hp, off, w2. split; [exact E |]. split; [exact Hfs |].
      split; [exact Htr' |]. split; [apply Hin; lia |].
      destruct Hcase as [(Hsame & _) | (_ & Hc)]; [| exact Hc].
      unfold size in Hsame. injection Hsame as Ew Eh. lia. }
    destruct Hcrop as (hp & off & w2 & Ecrop & Hfs2 & Htr2 & Hin & Hc).
    unfold bind at 1. rewrite Ecrop.
    destruct (downsample_ok hp) as (lp & Edown & Hlsz).
    unfold bind at 1, lift at 1. rewrite Edown.
    assert (Hsd2 : same_dirs w w2).
    { apply (same_dirs_trans _ w1); [exact Hsd | apply same_dirs_fs; exact Hfs2]. }
    destruct (save_ok hp ho (generate_name (path_stem hr_path) (Z.of_nat k)) w2)
      as (w3 & Es1 & Htr3 & _ & Hsd3).
    { apply (out_ready_same_dirs w); assumption. }
    unfold bind at 1. rewrite Es1.
    assert (Hsd3' : same_dirs w w3) by (apply (same_dirs_trans _ w2); assumption).
    destruct (save_ok lp lo (generate_name (path_stem hr_path) (Z.of_nat k)) w3)
      as (w4 & Es2 & Htr4 & _ & Hsd4).
    { apply (out_ready_same_dirs w); assumption. }
    rewrite Es2. exists w4. split; [reflexivity |].
    exists (pairs ++ [(hp, lp)]). split.
    { rewrite length_app. cbn. lia. }
    split.
    { rewrite Htr4, Htr3, Htr2, Htr, pair_events_app, Hlen.
      cbn [pair_events]. rewrite Z.add_0_l, <- !app_assoc. reflexivity. }
    assert (Hhsz : size hp = (HR_PATCH, HR_PATCH)).
    { destruct (crop_ok img (fst off) (snd off) HR_PATCH HR_PATCH)
        as (hp' & E' & Hsz' & _); [unfold HR_PATCH; lia .. |].
      rewrite Hc in E'. injection E' as <-. exact Hsz'. }
    split; [| split].
    + apply Forall_app. split; [exact Hgen |]. constructor; [| constructor].
      exists off. cbn [fst snd]. auto.
    + apply Forall_app. split; [exact Hsz |]. constructor; [| constructor].
      cbn [fst snd]. auto.
    + apply (same_dirs_trans _ w3); assumption.
  - exists []. split; [reflexivity |]. cbn [pair_events]. rewrite app_nil_r.
    split; [reflexivity |]. auto.
  - rewrite length_range in Hlen.
    exists pairs, w'. split; [exact E |]. split; [exact Hlen |].
    split.
    { rewrite Htr. unfold w0. cbn [trace]. rewrite <- app_assoc. reflexivity. }
    auto.
Qed.

(** C4.  Generate mode on a source that opens, with output directories
    ready to be written to, returns after saving exactly
    [patches_per_image] patch pairs, and in every pair the
    high-resolution patch is 384 by 384 and the low-resolution patch is
    96 by 96. *)
Theorem generate_mode_patches (hr_path hr_out_dir lr_out_dir : path)
    (patches_per_image : Z) (random_crop_enabled : bool)
    (w : world) (img0 : Image) :
  lookup w hr_path = Some (ImageFile img0) ->
  decoded img0 ->
  0 <= patches_per_image ->
  out_ready w hr_out_dir -> out_ready w lr_out_dir ->
  exists pairs w',
    process_generate_mode hr_path hr_out_dir lr_out_dir
                          patches_per_image random_crop_enabled w
      = (Ok tt, w') /\
    Z.of_nat (List.length pairs) = patches_per_image /\
    trace w' = trace w ++ EOpen hr_path
                 :: pair_events hr_out_dir lr_out_dir (path_stem hr_path) 0 pairs /\
    Forall (fun pr => size (fst pr) = (384, 384) /\ size (snd pr) = (96, 96))
           pairs.
Proof.
  intros Hlook Hdec Hn Hho Hlo.
  destruct (decoded_min_size img0 MIN_HR_DIM Hdec) as (img & Hens & Hw & Hh).
  { unfold MIN_HR_DIM, HR_PATCH. lia. }
  destruct (process_generate_mode_spec hr_path hr_out_dir lr_out_dir
              patches_per_image random_crop_enabled w img0 img
              Hlook Hens Hw Hh Hho Hlo)
    as (pairs & w' & E & Hlen & Htr & _ & Hsz & _).
  exists pairs, w'. split; [exact E |]. split; [lia |]. split; [exact Htr |].
  exact Hsz.
Qed.

(** C3.  Paired mode, when the two scale factors measured after
    [ensure_min_size] differ by more than 0.1 or their mean is more than
    0.5 away from [UPSCALE]: a warning is printed, then the source is
    opened again and exactly one patch pair is saved, under the
    generate-mode name with index 0.  The high-resolution patch is a
    window of the high-resolution image and the low-resolution patch is
    that window downsampled, so nothing of the low-resolution file
    reaches the output. *)
Theorem paired_mode_fallback (hr_path lr_path hr_out_dir lr_out_dir : path)
    (random_crop_enabled : bool) (w : world)
    (hr0 lr0 hr_img lr_img : Image) :
  lookup w hr_path = Some (ImageFile hr0) ->
  lookup w lr_path = Some (ImageFile lr0) ->
  decoded hr0 -> decoded lr0 ->
  ensure_min_size lr0 LR_PATCH = Ok lr_img ->
  ensure_min_size hr0 HR_PATCH = Ok hr_img ->
  let scale_w := int_truediv (width hr_img) (width lr_img) in
  let scale_h := int_truediv (height hr_img) (height lr_img) in
  let scale := fdiv (fadd scale_w scale_h) lit_2_0 in
  fgt (fabs (fsub scale_w scale_h)) lit_0_1 = true \/
  fgt (fabs (fsub scale (of_int UPSCALE))) lit_0_5 = true ->
  out_ready w hr_out_dir -> out_ready w lr_out_dir ->
  exists warning hr_patch lr_patch w',
    process_paired_mode hr_path lr_path hr_out_dir lr_out_dir
                        random_crop_enabled w = (Ok tt, w') /\
    prefix "[WARN]" warning = true /\
    trace w' = trace w ++
      [EOpen hr_path; EOpen lr_path; EPrint warning; EOpen hr_path;
       ESave (os_path_join hr_out_dir (generate_name (path_stem hr_path) 0))
             hr_patch;
       ESave (os_path_join lr_out_dir (generate_name (path_stem hr_path) 0))
             lr_patch] /\
    generated_pair hr_img (hr_patch, lr_patch).
Proof.
  intros Hhr Hlr Hdhr Hdlr Elr Ehr scale_w scale_h scale Hmis Hho Hlo.
  destruct (decoded_min_size lr0 LR_PATCH Hdlr) as (lr' & Elr' & Hlw & Hlh).
  { unfold LR_PATCH. lia. }
  rewrite Elr in Elr'. injection Elr' as <-.
  destruct (decoded_min_size hr0 HR_PATCH Hdhr) as (hr' & Ehr' & Hhw & Hhh).
  { unfold HR_PATCH. lia. }
  rewrite Ehr in Ehr'. injection Ehr' as <-.
  unfold process_paired_mode, open_rgb, bind at 1 2, log.
  unfold lookup at 1. cbn [fs]. fold (lookup w hr_path). rewrite Hhr.
  unfold bind at 1 2. unfold lookup at 1. cbn [fs]. fold (lookup w lr_path).
  rewrite Hlr.
  unfold bind at 1, lift at 1. rewrite Elr.
  unfold bind at 1, lift at 1. rewrite Ehr.
  unfold size.
  destruct (Z.eqb_spec (width lr_img) 0) as [Hz | _]; [unfold LR_PATCH in Hlw; lia |].
  destruct (Z.eqb_spec (height lr_img) 0) as [Hz | _]; [unfold LR_PATCH in Hlh; lia |].
  cbn [orb]. fold scale_w scale_h. fold scale.
  set (w1 := {| fs := fs w; rng := rng w;
                trace := (trace w ++ [EOpen hr_path]) ++ [EOpen lr_path] |}).
  assert (Hfall : forall warning,
    exists hr_patch lr_patch w',
      (print warning ;;
       process_generate_mode hr_path hr_out_dir lr_out_dir 1 random_crop_enabled)%py
        w1 = (Ok tt, w') /\
      trace w' = trace w ++
        [EOpen hr_path; EOpen lr_path; EPrint warning; EOpen hr_path;
         ESave (os_path_join hr_out_dir (generate_name (path_stem hr_path) 0))
               hr_patch;
         ESave (os_path_join lr_out_dir (generate_name (path_stem hr_path) 0))
               lr_patch] /\
      generated_pair hr_img (hr_patch, lr_patch)).
  { intros warning. unfold bind, print, log.
    set (w2 := {| fs := fs w1; rng := rng w1;
                  trace := trace w1 ++ [EPrint warning] |}).
    assert (Hsd : same_dirs w w2) by (apply same_dirs_fs; reflexivity).
    destruct (process_generate_mode_spec hr_path hr_out_dir lr_out_dir 1
                random_crop_enabled w2 hr0 hr_img)
      as (pairs & w' & E & Hlen & Htr & Hgen & _ & _).
    { exact Hhr. }
    { exact Ehr. }
    { exact Hhw. }
    { exact Hhh. }
    { apply (out_ready_same_dirs w); assumption. }
    { apply (out_ready_same_dirs w); assumption. }
    destruct pairs as [| [hp lp] [| ? ?]]; try discriminate Hlen.
    exists hp, lp, w'. split; [exact E |]. split.
    - rewrite Htr. unfold w2, w1. cbn [trace pair_events].
      rewrite <- !app_assoc. reflexivity.
    - inversion Hgen; assumption. }
  destruct (fgt (fabs (fsub scale_w scale_h)) lit_0_1) eqn:Hasp.
  - match goal with
    | |- context [print ?msg] => destruct (Hfall msg) as (hp & lp & w' & E & Htr & Hg);
        exists msg, hp, lp, w'
    end.
    split; [exact E |]. split; [reflexivity |]. split; [exact Htr | exact Hg].
  - destruct Hmis as [Hc | Hsc]; [discriminate |]. rewrite Hsc.
    match goal with
    | |- context [print ?msg] => destruct (Hfall msg) as (hp & lp & w' & E & Htr & Hg);
        exists msg, hp, lp, w'
    end.
    split; [exact E |]. split; [reflexivity |]. split; [exact Htr | exact Hg].
Qed.

End Script.
End ScriptFacts.

Import ScriptFacts.

(** ** The batch driver *)

Module BatchFacts.
Section Batch.
Context {rnd : Random} {rsm : Resampler} {txt : ExnText}.

Lemma get_all_image_files_enumerate (folder : path) (w : world) :
  get_all_image_files folder w
  = (Ok (fold_left (fun files fp => dict_set String.eqb files (path_stem fp) fp)
                   (enumerate w folder) []), w).
Proof.
  unfold get_all_image_files, enumerate. rewrite fold_left_flat_map. reflexivity.
Qed.

(** C9.  When the files enumerated in the folder are [earlier], then
    [fp], then [later], and no file of [later] has the stem of [fp]:
    the mapping returned has exactly one entry for that stem, and it is
    [fp], whatever files of the same stem [earlier] holds. *)
Theorem stem_collision_last_wins (folder : path) (w : world)
    (earlier later : list path) (fp : path) :
  enumerate w folder = earlier ++ fp :: later ->
  (forall q, In q later -> path_stem q <> path_stem fp) ->
  exists files,
    get_all_image_files folder w = (Ok files, w) /\
    count_occ string_dec (map fst files) (path_stem fp) = 1%nat /\
    (forall v, In (path_stem fp, v) files <-> v = fp).
Proof.
  intros Henum Hlater. rewrite get_all_image_files_enumerate, Henum.
  set (files := fold_left _ _ _).
  assert (Hnd : NoDup (map fst files)).
  { apply dict_fold_NoDup; [exact string_eqb_eq | constructor]. }
  assert (Hget : dict_get String.eqb files (path_stem fp) = Some fp).
  { apply (dict_fold_last String.eqb string_eqb_eq path_stem); exact Hlater. }
  exists files. split; [reflexivity |]. split.
  - apply NoDup_count_occ'; [exact Hnd |].
    apply dict_get_In in Hget; [| exact string_eqb_eq].
    apply (in_map fst) in Hget. exact Hget.
  - intros v. split.
    + intros Hin. apply (dict_In_get String.eqb string_eqb_eq) in Hin; [| exact Hnd].
      congruence.
    + intros ->. apply (dict_get_In String.eqb string_eqb_eq). exact Hget.
Qed.


(** Generate mode opens its source, once, whatever happens next. *)
Lemma process_generate_mode_opens (hr_path ho lo : path) (n : Z) (rc : bool)
    (w : world) :
  exists evs,
    trace (snd (process_generate_mode hr_path ho lo n rc w))
      = trace w ++ EOpen hr_path :: evs /\
    opened evs = [].
Proof.
  unfold process_generate_mode, open_rgb, bind at 1 2, log.
  set (w0 := {| fs := fs w; rng := rng w; trace := trace w ++ [EOpen hr_path] |}).
  assert (Hq : forall (c : M unit), quiet c ->
            exists evs, trace (snd (c w0)) = trace w ++ EOpen hr_path :: evs
                        /\ opened evs = []).
  { intros c Hc. destruct (Hc w0) as (evs & T & O). exists evs.
    rewrite T. unfold w0. cbn [trace]. rewrite <- app_assoc. auto. }
  destruct (lookup w0 hr_path) as [[| img |] |];
    try (apply (Hq (raise _)); intros w1; exists []; rewrite app_nil_r; auto).
  apply (Hq (bind (lift (ensure_min_size img MIN_HR_DIM)) _)).
  apply quiet_bind; [apply quiet_lift | intros img'].
  unfold size. apply quiet_for_each. intros i.
  apply quiet_bind.
  { destruct rc; [destruct (_ && _) |];
      solve [apply quiet_random_crop | apply quiet_lift]. }
  intros [hp off].
  apply quiet_bind; [apply quiet_lift | intros lp].
  apply quiet_bind; [apply quiet_save | intros _]. apply quiet_save.
Qed.

(** *** The loop over the files *)

Lemma batch_loop_isolated (ho lo : path) (total : nat)
    (items : list (string * path)) :
  forall (p : Z) (w : world),
  exists rs p' w',
    batch_loop items ho lo total p w = (Ok p', w') /\
    isolated_run ho lo total items p w rs p' w'.
Proof.
  induction items as [| [hr_name hr_path] rest IH]; intros p w; cbn [batch_loop].
  - exists [], p, w. split; [reflexivity | constructor].
  - unfold bind at 1, try_except, bind at 1.
    destruct (process_generate_mode hr_path ho lo PATCHES_PER_IMAGE RANDOM_CROP w)
      as [[[] | e] w1] eqn:E.
    + unfold bind at 1.
      destruct ((p + 1) mod 20 =? 0) eqn:Hprog.
      * match goal with
        | |- context [print ?line w1] =>
            change (print line w1) with (Ok tt, snd (print line w1));
            destruct (IH (p + 1) (snd (print line w1))) as (rs & p' & w' & El & Hrun)
        end.
        exists (Ok tt :: rs), p', w'. split; [exact El |].
        eapply isolated_processed; [exact E |]. rewrite Hprog. exact Hrun.
      * unfold ret at 1.
        destruct (IH (p + 1) w1) as (rs & p' & w' & El & Hrun).
        exists (Ok tt :: rs), p', w'. split; [exact El |].
        eapply isolated_processed; [exact E |]. rewrite Hprog. exact Hrun.
    + unfold bind at 1.
      match goal with
      | |- context [print ?line w1] =>
          change (print line w1) with (Ok tt, snd (print line w1));
          destruct (IH p (snd (print line w1))) as (rs & p' & w' & El & Hrun)
      end.
      exists (Raise e :: rs), p', w'. split; [exact El |].
      eapply isolated_failed; [exact E | exact Hrun].
Qed.

Lemma isolated_run_count ho lo total items p w rs p' w' :
  isolated_run ho lo total items p w rs p' w' ->
  p' = p + count_ok rs /\ List.length rs = List.length items.
Proof.
  induction 1 as [p w | n hp rest p w w1 rs p' w' E Hrun [IHp IHl]
                      | n hp rest p w e w1 rs p' w' E Hrun [IHp IHl]].
  - unfold count_ok. cbn. split; [lia | reflexivity].
  - unfold count_ok in *. cbn [filter List.length]. split; [lia | congruence].
  - unfold count_ok in *. cbn [filter List.length]. split; [lia | congruence].
Qed.

Lemma isolated_run_trace ho lo total items p w rs p' w' :
  isolated_run ho lo total items p w rs p' w' ->
  exists evs,
    trace w' = trace w ++ evs /\
    opened evs = map snd items /\
    forall i hr_name hr_path e,
      nth_error items i = Some (hr_name, hr_path) ->
      nth_error rs i = Some (Raise e) ->
      In (EPrint (error_line hr_path e)) evs.
Proof.
  induction 1 as [p w | n hp rest p w w1 rs p' w' E Hrun (evs & T & O & L)
                      | n hp rest p w e w1 rs p' w' E Hrun (evs & T & O & L)].
  - exists []. rewrite app_nil_r. split; [reflexivity |]. split; [reflexivity |].
    intros [| i] ? ? ? Hn; discriminate Hn.
  - destruct (process_generate_mode_opens hp ho lo PATCHES_PER_IMAGE RANDOM_CROP w)
      as (e1 & T1 & O1).
    rewrite E in T1. cbn [snd] in T1.
    destruct ((p + 1) mod 20 =? 0).
    + cbn [print log snd trace] in T.
      match type of T with
      | _ = (_ ++ [?ev]) ++ _ => exists ((EOpen hp :: e1) ++ ev :: evs)
      end.
      split.
      { rewrite T, T1, <- !app_assoc. reflexivity. }
      split.
      { rewrite opened_app. cbn [opened flat_map app]. fold (opened e1). fold (opened evs).
        rewrite O1, O. reflexivity. }
      intros [| i] hn hp' e' Hi Hr; [discriminate Hr |].
      apply in_or_app. right. right. exact (L i hn hp' e' Hi Hr).
    + exists ((EOpen hp :: e1) ++ evs). split.
      { rewrite T, T1, <- !app_assoc. reflexivity. }
      split.
      { rewrite opened_app. cbn [opened flat_map app]. fold (opened e1).
        rewrite O1, O. reflexivity. }
      intros [| i] hn hp' e' Hi Hr; [discriminate Hr |].
      apply in_or_app. right. exact (L i hn hp' e' Hi Hr).
  - destruct (process_generate_mode_opens hp ho lo PATCHES_PER_IMAGE RANDOM_CROP w)
      as (e1 & T1 & O1).
    rewrite E in T1. cbn [snd] in T1.
    exists ((EOpen hp :: e1) ++ EPrint (error_line hp e) :: evs). split.
    { rewrite T. cbn [print log snd trace]. rewrite T1, <- !app_assoc. reflexivity. }
    split.
    { rewrite opened_app. cbn [opened flat_map app]. fold (opened e1). fold (opened evs).
      rewrite O1, O. reflexivity. }
    intros [| i] hn hp' e' Hi Hr.
    + cbn in Hi, Hr. injection Hi as <- <-. injection Hr as <-.
      apply in_or_app. right. left. reflexivity.
    + apply in_or_app. right. right. exact (L i hn hp' e' Hi Hr).
Qed.

End Batch.
End BatchFacts.

Import BatchFacts.

(** ** The script on concrete inputs *)

Module Runs.

Import Concrete.
Local Open Scope string_scope.
Local Open Scope list_scope.
Local Open Scope Z_scope.

(** The scenario of three files with a bad one in the middle: the run
    returns, reports the bad file, and counts two. *)
Example three_files_one_corrupt :
  fst (main files3) = Ok tt /\
  opened (trace (snd (main files3)))
    = [["data"; "hr"; "a.png"]; ["data"; "hr"; "b.png"];
       ["data"; "hr"; "c.png"]] /\
  printed (trace (snd (main files3)))
    = ["Found 3 HR images";
       "Mode: generate LR patches by downsampling HR.";
       "[ERROR] Processing data/hr/b.png: cannot identify image file 'data/hr/b.png'";
       (newline ++ "Finished. Processed 2 HR images.")%string;
       "Output HR dir: processed/hr";
       "Output LR dir: processed/lr"] /\
  List.length (saved (trace (snd (main files3)))) = 24%nat /\
  firstn 2 (saved (trace (snd (main files3))))
    = [("processed/hr/a_p000.png", (384, 384));
       ("processed/lr/a_p000.png", (96, 96))].
Proof. repeat split; vm_compute; reflexivity. Qed.

(** Paired mode on a companion at scale 6: the warning names the scale
    measured, and one pair is saved under the generate-mode name. *)
Example paired_scale_6_falls_back :
  let run := process_paired_mode ["data"; "hr"; "t.png"] ["data"; "lr"; "t.png"]
               ["out"; "hr"] ["out"; "lr"] true (world_of paired_files) in
  fst run = Ok tt /\
  printed (trace (snd run))
    = ["[WARN] Expected scale ~4, got 6.00 for t. Falling back to generate mode."] /\
  saved (trace (snd run))
    = [("out/hr/t_p000.png", (384, 384)); ("out/lr/t_p000.png", (96, 96))].
Proof. repeat split; vm_compute; reflexivity. Qed.

(** Paired mode on a companion at scale 4: no warning, three pairs. *)
Example paired_scale_4_is_kept :
  let run := process_paired_mode ["data"; "hr"; "u.png"] ["data"; "lr"; "u.png"]
               ["out"; "hr"] ["out"; "lr"] true (world_of paired_files) in
  fst run = Ok tt /\
  printed (trace (snd run)) = [] /\
  saved (trace (snd run))
    = [("out/hr/u_paired_p000.png", (384, 384));
       ("out/lr/u_paired_p000.png", (96, 96));
       ("out/hr/u_paired_p001.png", (384, 384));
       ("out/lr/u_paired_p001.png", (96, 96));
       ("out/hr/u_paired_p002.png", (384, 384));
       ("out/lr/u_paired_p002.png", (96, 96))].
Proof. repeat split; vm_compute; reflexivity. Qed.

(** A 200 by 300 source is brought to 384 by 576 before it is cut. *)
Example small_source_upscaled :
  exists img, ensure_min_size (gradient 200 300) MIN_HR_DIM = Ok img
              /\ size img = (384, 576).
Proof. eexists. split; vm_compute; reflexivity. Qed.

Lemma ensure_min_size_identity_witness :
  ensure_min_size (gradient 500 400) 384 = Ok (gradient 500 400).
Proof. apply ensure_min_size_identity. cbn. lia. Defined.

Lemma ensure_min_size_upscales_witness :
  exists img',
    ensure_min_size (gradient 200 300) 384 = Ok img' /\
    Z.min (width img') (height img') = 384 /\
    2 * Z.abs (width img' * 200 - 200 * 384) <= 200 /\
    2 * Z.abs (height img' * 200 - 300 * 384) <= 200.
Proof.
  apply (ensure_min_size_upscales (gradient 200 300) 384); cbn; lia.
Defined.

Lemma crop_offsets_in_bounds_witness :
  (exists patch off,
     center_crop (gradient 500 400) 384 384 = Ok (patch, off) /\
     in_bounds (gradient 500 400) 384 384 off) /\
  (exists patch off w',
     random_crop (gradient 500 400) 384 384 (world_of []) = (Ok (patch, off), w') /\
     in_bounds (gradient 500 400) 384 384 off).
Proof.
  apply (crop_offsets_in_bounds (gradient 500 400) 384 384 (world_of []));
    cbn; lia.
Defined.

Lemma random_crop_exact_size_witness :
  random_crop (gradient 384 384) 384 384 (world_of [])
    = (Ok (copy (gradient 384 384), (0, 0)), world_of []) /\
  forall (A : Type) (k : Image * (Z * Z) -> M A),
    bind (random_crop (gradient 384 384) 384 384) k (world_of [])
    = k (copy (gradient 384 384), (0, 0)) (world_of []).
Proof.
  apply (random_crop_exact_size (gradient 384 384) 384 384 (world_of []));
    reflexivity.
Defined.



Lemma generate_mode_patches_witness :
  exists pairs w',
    process_generate_mode ["data"; "hr"; "s.png"] ["out"; "hr"] ["out"; "lr"]
                          6 true (world_of paired_files) = (Ok tt, w') /\
    Z.of_nat (List.length pairs) = 6 /\
    trace w' = trace (world_of paired_files) ++ EOpen ["data"; "hr"; "s.png"]
                 :: pair_events ["out"; "hr"] ["out"; "lr"]
                      (path_stem ["data"; "hr"; "s.png"]) 0 pairs /\
    Forall (fun pr => size (fst pr) = (384, 384) /\ size (snd pr) = (96, 96))
           pairs.
Proof.
  apply (generate_mode_patches ["data"; "hr"; "s.png"] ["out"; "hr"]
           ["out"; "lr"] 6 true (world_of paired_files) (gradient 800 400)).
  - reflexivity.
  - unfold decoded. cbn. lia.
  - lia.
  - ready.
  - ready.
Defined.

Lemma paired_mode_fallback_witness :
  exists warning hr_patch lr_patch w',
    process_paired_mode ["data"; "hr"; "s.png"] ["data"; "lr"; "s.png"]
                        ["out"; "hr"] ["out"; "lr"] true
                        (world_of paired_files) = (Ok tt, w') /\
    prefix "[WARN]" warning = true /\
    trace w' = trace (world_of paired_files) ++
      [EOpen ["data"; "hr"; "s.png"]; EOpen ["data"; "lr"; "s.png"];
       EPrint warning; EOpen ["data"; "hr"; "s.png"];
       ESave (os_path_join ["out"; "hr"]
                (generate_name (path_stem ["data"; "hr"; "s.png"]) 0)) hr_patch;
       ESave (os_path_join ["out"; "lr"]
                (generate_name (path_stem ["data"; "hr"; "s.png"]) 0)) lr_patch] /\
    generated_pair (gradient 800 400) (hr_patch, lr_patch).
Proof.
  apply (paired_mode_fallback ["data"; "hr"; "s.png"] ["data"; "lr"; "s.png"]
           ["out"; "hr"] ["out"; "lr"] true (world_of paired_files)
           (gradient 800 400) (gradient 100 100)
           (gradient 800 400) (gradient 100 100)).
  - reflexivity.
  - reflexivity.
  - unfold decoded. cbn. lia.
  - unfold decoded. cbn. lia.
  - reflexivity.
  - reflexivity.
  - left. vm_compute. reflexivity.
  - ready.
  - ready.
Defined.

Lemma stem_collision_last_wins_witness :
  exists files,
    get_all_image_files ["data"; "hr"] (world_of twin_files)
      = (Ok files, world_of twin_files) /\
    count_occ string_dec (map fst files) (path_stem ["data"; "hr"; "a.png"]) = 1%nat /\
    (forall v, In (path_stem ["data"; "hr"; "a.png"], v) files
               <-> v = ["data"; "hr"; "a.png"]).
Proof.
  apply (stem_collision_last_wins ["data"; "hr"] (world_of twin_files)
           [["data"; "hr"; "a.jpg"]] [] ["data"; "hr"; "a.png"]).
  - reflexivity.
  - intros q [].
Defined.


End Runs.


(** * More of the script *)

(** ** File names *)

Module NameFacts.

Import DecimalZ Decimal.

Lemma chars_app (a b : string) :
  list_ascii_of_string (a ++ b) = list_ascii_of_string a ++ list_ascii_of_string b.
Proof. induction a as [| c a IH]; cbn; [reflexivity | rewrite IH; reflexivity]. Qed.

Lemma chars_inj (a b : string) :
  list_ascii_of_string a = list_ascii_of_string b -> a = b.
Proof.
  intros E. rewrite <- (string_of_list_ascii_of_string a),
    <- (string_of_list_ascii_of_string b), E. reflexivity.
Qed.

Lemma append_inj_l (a b c : string) : (a ++ b = a ++ c)%string -> b = c.
Proof.
  intros E. apply chars_inj. apply (f_equal list_ascii_of_string) in E.
  rewrite !chars_app in E. exact (app_inv_head _ _ _ E).
Qed.

Lemma append_inj_r (a b c : string) : (a ++ c = b ++ c)%string -> a = b.
Proof.
  intros E. apply chars_inj. apply (f_equal list_ascii_of_string) in E.
  rewrite !chars_app in E. exact (app_inv_tail _ _ _ E).
Qed.

Lemma digits_uint (d : uint) :
  Forall (fun c => is_digit c = true)
         (list_ascii_of_string (NilEmpty.string_of_uint d)).
Proof. induction d; cbn; constructor; auto. Qed.

Lemma str_int_nonneg (n : Z) :
  0 <= n ->
  exists d, str_int n = NilEmpty.string_of_uint d /\ Z.of_uint d = n.
Proof.
  intros Hn. unfold str_int.
  pose proof (DecimalZ.of_to n) as Hr.
  destruct n as [| p | p]; [| | lia].
  - exists (D0 Nil). split; reflexivity.
  - cbn [Z.to_int] in *. exists (Pos.to_uint p). split; [| exact Hr].
    cbn [NilZero.string_of_int]. unfold NilZero.string_of_uint.
    destruct (Pos.to_uint p) eqn:E; try reflexivity.
    cbn in Hr. discriminate.
Qed.

Lemma digits_zeros (k : nat) :
  Forall (fun c => is_digit c = true) (list_ascii_of_string (zeros k)).
Proof. induction k; cbn; constructor; auto. Qed.

Lemma digits_zfill (k : nat) (n : Z) :
  0 <= n -> Forall (fun c => is_digit c = true) (list_ascii_of_string (zfill k n)).
Proof.
  intros Hn. unfold zfill. rewrite chars_app. apply Forall_app. split.
  - apply digits_zeros.
  - destruct (str_int_nonneg n Hn) as (d & E & _). rewrite E. apply digits_uint.
Qed.

(** The index is read back from its zero-padded field. *)
Lemma zfill_decode (k : nat) (n : Z) :
  0 <= n ->
  option_map Z.of_uint (NilEmpty.uint_of_string (zfill k n)) = Some n.
Proof.
  intros Hn. unfold zfill.
  destruct (str_int_nonneg n Hn) as (d & E & Hd). rewrite E.
  induction (k - String.length (NilEmpty.string_of_uint d))%nat as [| j IH]; cbn [zeros].
  - cbn [append]. rewrite NilEmpty.usu. cbn. congruence.
  - cbn [append NilEmpty.uint_of_string].
    destruct (NilEmpty.uint_of_string (zeros j ++ NilEmpty.string_of_uint d)) as [u |];
      [| discriminate IH].
    cbn in *. exact IH.
Qed.

Lemma zfill_inj (k : nat) (i j : Z) :
  0 <= i -> 0 <= j -> zfill k i = zfill k j -> i = j.
Proof.
  intros Hi Hj E. pose proof (zfill_decode k i Hi) as Di.
  rewrite E, (zfill_decode k j Hj) in Di. congruence.
Qed.

(** A stem, a marker ending in a letter, and a field of digits: the field
    and the stem are read back from the end. *)
Lemma tagged_digits_inj (mark : list ascii) (m : ascii) (x y d1 d2 : list ascii) :
  is_digit m = false ->
  Forall (fun c => is_digit c = true) d1 ->
  Forall (fun c => is_digit c = true) d2 ->
  (x ++ mark ++ [m]) ++ d1 = (y ++ mark ++ [m]) ++ d2 ->
  x = y /\ d1 = d2.
Proof.
  intros Hm. revert d2. induction d1 as [| c d1 IH] using rev_ind; intros d2 H1 H2 E.
  - destruct d2 as [| c' d2] using rev_ind.
    + rewrite !app_nil_r in E. split; [| reflexivity].
      rewrite !app_assoc in E. apply app_inj_tail in E as [E _].
      exact (app_inv_tail _ _ _ E).
    + exfalso. rewrite app_nil_r, !app_assoc in E.
      apply app_inj_tail in E as [_ E]. subst c'.
      apply Forall_app in H2 as [_ H2]. inversion H2; congruence.
  - destruct d2 as [| c' d2 _] using rev_ind.
    + exfalso. rewrite app_nil_r, !app_assoc in E.
      apply app_inj_tail in E as [_ E]. subst c.
      apply Forall_app in H1 as [_ H1]. inversion H1; congruence.
    + rewrite !(app_assoc _ _ [c]), !(app_assoc _ _ [c']) in E.
      apply app_inj_tail in E as [E ->].
      apply Forall_app in H1 as [H1 _]. apply Forall_app in H2 as [H2 _].
      destruct (IH d2 H1 H2 E) as [-> ->]. auto.
Qed.

Lemma generate_name_inj (base1 base2 : string) (i j : Z) :
  0 <= i -> 0 <= j ->
  generate_name base1 i = generate_name base2 j ->
  base1 = base2 /\ i = j.
Proof.
  intros Hi Hj E. unfold generate_name in E.
  apply (f_equal list_ascii_of_string) in E. rewrite !chars_app in E.
  rewrite !app_assoc in E. apply app_inv_tail in E.
  destruct (tagged_digits_inj ["_"%char] "p"%char
              (list_ascii_of_string base1) (list_ascii_of_string base2)
              (list_ascii_of_string (zfill 3 i)) (list_ascii_of_string (zfill 3 j)))
    as [Eb Ed].
  - reflexivity.
  - apply digits_zfill; assumption.
  - apply digits_zfill; assumption.
  - rewrite <- !app_assoc in *. exact E.
  - split; [apply chars_inj; exact Eb |].
    apply (zfill_inj 3); [assumption .. | apply chars_inj; exact Ed].
Qed.

(** X6.  The file name of a generate-mode patch determines the stem and
    the index it was built from: for two different stems, or two
    different indices (an index is never negative), the names differ.
    So the patches of one source, and of sources of different stems, go
    to different files. *)
Theorem generate_name_injective (base1 base2 : string) (i j : Z) :
  0 <= i -> 0 <= j ->
  base1 <> base2 \/ i <> j ->
  generate_name base1 i <> generate_name base2 j.
Proof.
  intros Hi Hj Hd E. apply generate_name_inj in E as [Eb Ei]; [| assumption ..].
  destruct Hd; contradiction.
Qed.

End NameFacts.

Import NameFacts.

(** ** More on the geometry *)

Module GeometryMore.
Section Geometry.
Context {rnd : Random} {rsm : Resampler}.

Lemma crop_window (img patch : Image) (l t cw ch : Z) :
  crop img (l, t, l + cw, t + ch) = Ok patch ->
  0 <= l -> 0 <= t -> l + cw <= width img -> t + ch <= height img ->
  size patch = (cw, ch) /\
  forall x y, 0 <= x < cw -> 0 <= y < ch ->
    pix patch x y = pix img (l + x) (t + y).
Proof.
  intros E Hl Ht Hr Hb.
  assert (Hcw : 0 <= cw \/ cw < 0) by lia.
  destruct Hcw as [Hcw | Hcw].
  2:{ unfold crop in E. destruct (Z.ltb_spec (l + cw) l); [discriminate | lia]. }
  assert (Hch : 0 <= ch \/ ch < 0) by lia.
  destruct Hch as [Hch | Hch].
  2:{ unfold crop in E. destruct (l + cw <? l); [discriminate |].
      destruct (Z.ltb_spec (t + ch) t); [discriminate | lia]. }
  destruct (crop_ok img l t cw ch Hcw Hch) as (p & E' & Hsz & Hpix).
  rewrite E in E'. injection E' as <-. split; [exact Hsz |].
  intros x y Hx Hy. rewrite Hpix.
  destruct (Z.leb_spec 0 (l + x)); [| lia].
  destruct (Z.ltb_spec (l + x) (width img)); [| lia].
  destruct (Z.leb_spec 0 (t + y)); [| lia].
  destruct (Z.ltb_spec (t + y) (height img)); [| lia].
  reflexivity.
Qed.

(** X1.  For a window that fits the image, [center_crop] returns a patch
    of the requested size whose sample at [(x, y)] is the sample of the
    image at [(left + x, top + y)], and the window is centred: on each
    axis the margin after the window is the margin before it, or one
    more. *)
Theorem center_crop_centred (img : Image) (crop_w crop_h : Z) :
  0 <= crop_w <= width img -> 0 <= crop_h <= height img ->
  exists patch left_ top_,
    center_crop img crop_w crop_h = Ok (patch, (left_, top_)) /\
    size patch = (crop_w, crop_h) /\
    0 <= (width img - crop_w - left_) - left_ <= 1 /\
    0 <= (height img - crop_h - top_) - top_ <= 1 /\
    forall x y, 0 <= x < crop_w -> 0 <= y < crop_h ->
      pix patch x y = pix img (left_ + x) (top_ + y).
Proof.
  intros [Hcw Hw] [Hch Hh].
  destruct (center_crop_spec img crop_w crop_h Hcw Hch)
    as (patch & [l t] & E & Hoff & Hcrop & Hin).
  specialize (Hin Hw Hh). destruct Hin as (Hl & Ht & Hr & Hb).
  cbn [fst snd] in *. injection Hoff as El Et.
  destruct (crop_window img patch l t crop_w crop_h Hcrop Hl Ht Hr Hb) as [Hsz Hpix].
  exists patch, l, t. split; [exact E |]. split; [exact Hsz |].
  assert (Hdw : 0 <= width img - crop_w) by lia.
  assert (Hdh : 0 <= height img - crop_h) by lia.
  pose proof (Z.div_mod (width img - crop_w) 2 ltac:(lia)) as Dw.
  pose proof (Z.mod_pos_bound (width img - crop_w) 2 ltac:(lia)) as Mw.
  pose proof (Z.div_mod (height img - crop_h) 2 ltac:(lia)) as Dh.
  pose proof (Z.mod_pos_bound (height img - crop_h) 2 ltac:(lia)) as Mh.
  split; [lia |]. split; [lia |]. exact Hpix.
Qed.

(** X2.  For a window that fits the image, [random_crop] returns a patch
    of the requested size whose sample at [(x, y)] is the sample of the
    image at [(left + x, top + y)] for the offset it returns; it leaves
    the file system and the trace as they were. *)
Theorem random_crop_window (img : Image) (crop_w crop_h : Z) (w : world) :
  0 <= crop_w <= width img -> 0 <= crop_h <= height img ->
  exists patch left_ top_ w',
    random_crop img crop_w crop_h w = (Ok (patch, (left_, top_)), w') /\
    size patch = (crop_w, crop_h) /\
    (forall x y, 0 <= x < crop_w -> 0 <= y < crop_h ->
       pix patch x y = pix img (left_ + x) (top_ + y)) /\
    fs w' = fs w /\ trace w' = trace w.
Proof.
  intros [Hcw Hw] [Hch Hh].
  destruct (random_crop_spec img crop_w crop_h w Hcw Hch)
    as (patch & [l t] & w' & E & Hfs & Htr & Hcase & Hin).
  specialize (Hin Hw Hh). destruct Hin as (Hl & Ht & Hr & Hb).
  cbn [fst snd] in *.
  exists patch, l, t, w'. split; [exact E |].
  destruct Hcase as [(Hsame & -> & Hoff & _) | (_ & Hcrop)].
  - injection Hoff as -> ->. split; [exact Hsame |]. split; [| auto].
    intros x y _ _. reflexivity.
  - destruct (crop_window img patch l t crop_w crop_h Hcrop Hl Ht Hr Hb) as [Hsz Hpix].
    auto.
Qed.

(** X3.  [random_crop] does not raise on an image smaller than the
    window: the patch has the requested size all the same, and on an axis
    where the image is not longer than the window the offset is 0. *)
Theorem random_crop_undersized (img : Image) (crop_w crop_h : Z) (w : world) :
  0 <= crop_w -> 0 <= crop_h ->
  exists patch left_ top_ w',
    random_crop img crop_w crop_h w = (Ok (patch, (left_, top_)), w') /\
    size patch = (crop_w, crop_h) /\
    (width img <= crop_w -> left_ = 0) /\
    (height img <= crop_h -> top_ = 0).
Proof.
  intros Hcw Hch. unfold random_crop, size.
  destruct ((width img =? crop_w) && (height img =? crop_h)) eqn:Hsame.
  - apply andb_true_iff in Hsame as [Ew Eh]. apply Z.eqb_eq in Ew, Eh.
    exists (copy img), 0, 0, w. split; [reflexivity |].
    unfold copy. split; [f_equal; assumption | auto].
  - unfold bind.
    destruct (py_randint_ok 0 (Z.max 0 (width img - crop_w)) w)
      as (l & w1 & E1 & Hl & _); [lia |].
    rewrite E1.
    destruct (py_randint_ok 0 (Z.max 0 (height img - crop_h)) w1)
      as (t & w2 & E2 & Ht & _); [lia |].
    rewrite E2. unfold lift.
    destruct (crop_ok img l t crop_w crop_h Hcw Hch) as (patch & E & Hsz & _).
    rewrite E. exists patch, l, t, w2. split; [reflexivity |].
    split; [exact Hsz |]. split; intros; lia.
Qed.

(** X4.  [ensure_min_size] returns, on an image with positive sides (and
    [max side * min_size < 2^50]), an image no side of which is shorter
    than before or shorter than [min_size]. *)
Theorem ensure_min_size_never_shrinks (img : Image) (min_size : Z) :
  0 < width img -> 0 < height img ->
  Z.max (width img) (height img) * min_size < 2 ^ 50 ->
  exists img',
    ensure_min_size img min_size = Ok img' /\
    Z.max (width img) min_size <= width img' /\
    Z.max (height img) min_size <= height img'.
Proof.
  intros Hw Hh Hb.
  destruct (Z_lt_ge_dec (Z.min (width img) (height img)) min_size) as [Hlt | Hge].
  - destruct (ensure_min_size_small img min_size Hw Hh Hlt Hb)
      as (img' & E & Hmin & Nw & Nh).
    exists img'. split; [exact E |].
    set (s := Z.min (width img) (height img)) in *.
    assert (Hs : 0 < s) by (unfold s; lia).
    assert (Hsw : s <= width img) by (unfold s; lia).
    assert (Hsh : s <= height img) by (unfold s; lia).
    split.
    + assert (width img <= width img') by nia. lia.
    + assert (height img <= height img') by nia. lia.
  - exists img. split; [apply ensure_min_size_large; exact Hge | lia].
Qed.

(** X5.  [ensure_min_size] applied to its own result returns that result
    unchanged. *)
Theorem ensure_min_size_idempotent (img img' : Image) (min_size : Z) :
  0 < width img -> 0 < height img ->
  Z.max (width img) (height img) * min_size < 2 ^ 50 ->
  ensure_min_size img min_size = Ok img' ->
  ensure_min_size img' min_size = Ok img'.
Proof.
  intros Hw Hh Hb E.
  destruct (ensure_min_size_ok img min_size Hw Hh Hb) as (img2 & E2 & Hw2 & Hh2).
  rewrite E in E2. injection E2 as <-.
  apply ensure_min_size_large. lia.
Qed.

End Geometry.
End GeometryMore.

Import GeometryMore.

(** ** More on the enumeration of sources *)

Module FilesMore.

Lemma rfind_dot_app (x s : string) (i : nat) :
  rfind_dot s = Some i -> rfind_dot (x ++ s) = Some (String.length x + i)%nat.
Proof.
  intros E. induction x as [| c x IH]; cbn; [exact E | rewrite IH; reflexivity].
Qed.

Lemma substring_prefix (x s : string) :
  substring 0 (String.length x) (x ++ s) = x.
Proof.
  induction x as [| c x IH]; cbn.
  - destruct s; reflexivity.
  - rewrite IH. reflexivity.
Qed.

Lemma length_append (x s : string) :
  String.length (x ++ s) = (String.length x + String.length s)%nat.
Proof. induction x as [| c x IH]; cbn; [reflexivity | rewrite IH; reflexivity]. Qed.

(** The stem of [x.ext] is [x]; a name with a leading dot only, or with
    no dot, is its own stem. *)
Lemma name_stem_strips_extension (x ext : string) :
  x <> ""%string -> ext <> ""%string -> rfind_dot ext = None ->
  name_stem (x ++ "." ++ ext) = x /\
  name_stem ("." ++ ext) = ("." ++ ext)%string /\
  name_stem ext = ext /\
  forall d : path, path_stem (os_path_join d (x ++ "." ++ ext)) = x.
Proof.
  intros Hx He Hdot.
  assert (Hr : rfind_dot ("." ++ ext) = Some O).
  { cbn. rewrite Hdot. reflexivity. }
  assert (H1 : name_stem (x ++ "." ++ ext) = x).
  { unfold name_stem. rewrite (rfind_dot_app x _ O Hr), Nat.add_0_r.
    rewrite length_append. cbn [append String.length].
    destruct x as [| c x]; [congruence |]. destruct ext as [| e ext]; [congruence |].
    cbn [String.length].
    destruct (Nat.ltb_spec 0 (S (String.length x))) as [_ | H]; [| lia].
    destruct (Nat.ltb_spec (S (String.length x))
                (S (String.length x) + S (S (String.length ext)) - 1)) as [_ | H];
      [| lia].
    cbn [andb].
    change (S (String.length x)) with (String.length (String c x)).
    apply substring_prefix. }
  split; [exact H1 |]. split; [| split].
  - unfold name_stem. rewrite Hr. reflexivity.
  - unfold name_stem. rewrite Hdot. reflexivity.
  - intros d. unfold path_stem, os_path_join. rewrite last_last. exact H1.
Qed.

Section Files.
Context {rnd : Random} {rsm : Resampler}.

Lemma In_enumerate (w : world) (folder fp : path) :
  In fp (enumerate w folder) <->
  In fp (map fst (fs w)) /\ removelast fp = folder /\ fp <> [] /\
  exists pat, In pat exts /\ fnmatch (last fp ""%string) pat = true.
Proof.
  unfold enumerate. rewrite in_flat_map. split.
  - intros (pat & Hpat & Hin). unfold glob in Hin. apply filter_In in Hin as [Hfs Hc].
    apply andb_true_iff in Hc as [Hc Hm]. apply andb_true_iff in Hc as [Hp Hn].
    apply path_eqb_eq in Hp. split; [exact Hfs |]. split; [exact Hp |]. split.
    + intros ->. rewrite path_eqb_refl in Hn. discriminate.
    + exists pat. auto.
  - intros (Hfs & Hp & Hn & pat & Hpat & Hm). exists pat. split; [exact Hpat |].
    unfold glob. apply filter_In. split; [exact Hfs |].
    rewrite Hm, andb_true_r. apply andb_true_iff. split.
    + apply path_eqb_eq. exact Hp.
    + rewrite path_eqb_neq by exact Hn. reflexivity.
Qed.

Lemma dict_set_In {K V} (eqb : K -> K -> bool) (d : list (K * V)) k v k' v' :
  In (k', v') (dict_set eqb d k v) -> (k', v') = (k, v) \/ In (k', v') d.
Proof.
  induction d as [| [k0 v0] d IH]; cbn.
  - intros [E | []]. left. congruence.
  - destruct (eqb k k0); cbn.
    + intros [E | Hin]; [left; congruence | right; right; exact Hin].
    + intros [E | Hin]; [right; left; exact E |].
      destruct (IH Hin) as [E | Hin']; [left; exact E | right; right; exact Hin'].
Qed.


Lemma dict_fold_sound {K V} (eqb : K -> K -> bool) (key : V -> K)
    (l : list V) (d : list (K * V)) k v :
  In (k, v) (fold_left (fun d y => dict_set eqb d (key y) y) l d) ->
  In (k, v) d \/ (k = key v /\ In v l).
Proof.
  revert d. induction l as [| y l IH]; intros d; cbn [fold_left]; [auto |].
  intros Hin. destruct (IH _ Hin) as [Hd | [Hk Hl]].
  - destruct (dict_set_In _ _ _ _ _ _ Hd) as [E | Hd']; [| auto].
    injection E as -> ->. right. split; [reflexivity | left; reflexivity].
  - right. split; [exact Hk | right; exact Hl].
Qed.

Lemma dict_fold_keys {K V} (eqb : K -> K -> bool)
    (eqb_eq : forall a b, eqb a b = true <-> a = b) (key : V -> K)
    (l : list V) (d : list (K * V)) k :
  In k (map fst (fold_left (fun d y => dict_set eqb d (key y) y) l d)) <->
  In k (map fst d) \/ In k (map key l).
Proof.
  revert d. induction l as [| y l IH]; intros d; cbn [fold_left map].
  - cbn. intuition.
  - rewrite IH, (dict_set_keys eqb eqb_eq). cbn. intuition.
Qed.



Lemma is_suffix_from_append (x s : string) :
  is_suffix_from s (x ++ s) (String.length x) = true.
Proof.
  induction x as [| c x IH]; cbn [append String.length is_suffix_from];
    [destruct s; apply String.eqb_refl | exact IH].
Qed.

Lemma endswith_append (x s : string) : endswith (x ++ s) s = true.
Proof.
  unfold endswith. rewrite length_append.
  replace (String.length x + String.length s - String.length s)%nat
    with (String.length x) by lia.
  rewrite is_suffix_from_append, andb_true_r.
  apply Nat.leb_le. lia.
Qed.

(** X7.  An entry [x.ext] of the folder, [ext] being one of the ten
    extensions of the script and [x] not empty, is found under the key
    [x]: the result of [get_all_image_files] maps [x] to a path directly
    under the folder whose stem is [x]. *)
Theorem image_file_keyed_by_stem (folder : path) (x ext : string) (w : world) :
  x <> ""%string ->
  In ("*." ++ ext)%string exts ->
  In (os_path_join folder (x ++ "." ++ ext)) (map fst (fs w)) ->
  exists files v,
    get_all_image_files folder w = (Ok files, w) /\
    In (x, v) files /\ path_stem v = x /\ removelast v = folder.
Proof.
  intros Hx Hext Hin.
  assert (He : ext <> ""%string /\ rfind_dot ext = None).
  { unfold exts in Hext. cbn [In] in Hext.
    repeat (destruct Hext as [E | Hext];
            [injection E as <-; split; [discriminate | reflexivity] |]).
    destruct Hext. }
  destruct He as [He Hdot].
  destruct (name_stem_strips_extension x ext Hx He Hdot) as (_ & _ & _ & Hstem).
  rewrite get_all_image_files_enumerate.
  set (files := fold_left _ _ _). exists files.
  assert (Hen : In (os_path_join folder (x ++ "." ++ ext)) (enumerate w folder)).
  { apply In_enumerate. split; [exact Hin |]. unfold os_path_join. split.
    - apply removelast_last.
    - split; [destruct folder; discriminate |].
      exists ("*." ++ ext)%string. split; [exact Hext |].
      rewrite last_last. cbn [fnmatch append].
      change (String "." ext) with ("." ++ ext)%string.
      apply endswith_append. }
  assert (Hk : In x (map fst files)).
  { apply (dict_fold_keys String.eqb string_eqb_eq). right.
    rewrite <- (Hstem folder). apply in_map. exact Hen. }
  apply in_map_iff in Hk as ([k v] & Ek & Hkv). cbn in Ek. subst k.
  exists v. split; [reflexivity |]. split; [exact Hkv |].
  apply dict_fold_sound in Hkv as [[] | [Hk Hv]].
  apply In_enumerate in Hv as (_ & Hp & _). auto.
Qed.

End Files.
End FilesMore.

Import FilesMore.

(** ** Events and the file system *)

Module EffectFacts.
Section Effects.
Context {rnd : Random} {rsm : Resampler}.

Lemma apply_saves_app (e1 e2 : list event) (f : list (path * node)) :
  apply_saves (e1 ++ e2) f = apply_saves e2 (apply_saves e1 f).
Proof. unfold apply_saves. apply fold_left_app. Qed.

Lemma emits_silent {A} (Q : event -> Prop) (c : M A) :
  (forall w, trace (snd (c w)) = trace w /\ fs (snd (c w)) = fs w) -> emits Q c.
Proof.
  intros Hc w. destruct (Hc w) as [T F]. exists [].
  rewrite app_nil_r. cbn. auto.
Qed.

Lemma emits_ret {A} (Q : event -> Prop) (a : A) : emits Q (ret a).
Proof. apply emits_silent. intros w. auto. Qed.

Lemma emits_lift {A} (Q : event -> Prop) (r : result A) : emits Q (lift r).
Proof. apply emits_silent. intros w. auto. Qed.


Lemma emits_print (Q : event -> Prop) (line : string) :
  Q (EPrint line) -> emits Q (print line).
Proof. intros Hq w. exists [EPrint line]. cbn. auto. Qed.

Lemma emits_py_randint (Q : event -> Prop) (a b : Z) : emits Q (py_randint a b).
Proof.
  apply emits_silent. intros w. unfold py_randint.
  destruct (b <? a); [auto |]. destruct (randint a b (rng w)). auto.
Qed.

Lemma emits_save (Q : event -> Prop) (img : Image) (p : path) :
  Q (ESave p img) -> emits Q (save img p).
Proof.
  intros Hq w. unfold save.
  destruct (negb (is_dir w (removelast p))).
  - exists []. rewrite app_nil_r. cbn. auto.
  - destruct (lookup w p) as [[| |] |]; cbn [snd trace fs];
      solve [exists []; rewrite app_nil_r; cbn; auto
            | exists [ESave p img]; cbn; auto].
Qed.

(** The rule for sequencing, with what is known of the value passed. *)
Lemma emits_bind {A B} (Q : event -> Prop) (c : M A) (k : A -> M B) :
  emits Q c ->
  (forall a, (exists w, fst (c w) = Ok a) -> emits Q (k a)) ->
  emits Q (bind c k).
Proof.
  intros Hc Hk w. unfold bind. destruct (Hc w) as (e1 & T1 & F1 & Q1).
  destruct (c w) as [[a | e] w1] eqn:E; cbn [snd] in *.
  - assert (Hv : exists w0, fst (c w0) = Ok a).
    { exists w. rewrite E. reflexivity. }
    destruct (Hk a Hv w1) as (e2 & T2 & F2 & Q2).
    exists (e1 ++ e2). rewrite T2, T1, F2, F1, apply_saves_app, app_assoc.
    split; [reflexivity |]. split; [reflexivity |]. apply Forall_app. auto.
  - exists e1. auto.
Qed.

Lemma emits_for_each {X} (Q : event -> Prop) (xs : list X) (body : X -> M unit) :
  (forall x, emits Q (body x)) -> emits Q (for_each xs body).
Proof.
  intros Hb. induction xs as [| x xs IH]; cbn [for_each].
  - apply emits_ret.
  - apply emits_bind; [apply Hb | intros _ _; exact IH].
Qed.

Lemma emits_random_crop (Q : event -> Prop) (img : Image) (cw ch : Z) :
  emits Q (random_crop img cw ch).
Proof.
  unfold random_crop, size.
  destruct ((width img =? cw) && (height img =? ch)); [apply emits_ret |].
  apply emits_bind; [apply emits_py_randint | intros l _].
  apply emits_bind; [apply emits_py_randint | intros t _].
  apply emits_bind; [apply emits_lift | intros p _]. apply emits_ret.
Qed.

Lemma crop_size (img p : Image) (l t cw ch : Z) :
  crop img (l, t, l + cw, t + ch) = Ok p -> size p = (cw, ch).
Proof.
  unfold crop. destruct (l + cw <? l); [discriminate |].
  destruct (t + ch <? t); [discriminate |].
  intros [= <-]. unfold size. cbn [width height]. f_equal; lia.
Qed.

Lemma center_crop_size (img p : Image) (cw ch : Z) (off : Z * Z) :
  center_crop img cw ch = Ok (p, off) -> size p = (cw, ch).
Proof.
  unfold center_crop, size, rbind.
  destruct (crop img _) as [q | e] eqn:E; [| discriminate].
  intros [= <- _]. exact (crop_size _ _ _ _ _ _ E).
Qed.

Lemma random_crop_size (img p : Image) (cw ch : Z) (off : Z * Z) (w : world) :
  fst (random_crop img cw ch w) = Ok (p, off) -> size p = (cw, ch).
Proof.
  unfold random_crop, size.
  destruct ((width img =? cw) && (height img =? ch)) eqn:Hsame.
  - apply andb_true_iff in Hsame as [Ew Eh]. apply Z.eqb_eq in Ew, Eh.
    cbn. intros [= <- _]. unfold copy. f_equal; assumption.
  - unfold bind.
    destruct (py_randint 0 (Z.max 0 (width img - cw)) w) as [[l | e] w1];
      [| discriminate].
    destruct (py_randint 0 (Z.max 0 (height img - ch)) w1) as [[t | e] w2];
      [| discriminate].
    unfold lift. destruct (crop img _) as [q | e] eqn:E; [| discriminate].
    cbn. intros [= <- _]. exact (crop_size _ _ _ _ _ _ E).
Qed.

Lemma resize_size (img p : Image) (nw nh : Z) (f : Resampling) :
  resize img (nw, nh) f = Ok p -> size p = (nw, nh).
Proof.
  unfold resize.
  destruct ((nw =? width img) && (nh =? height img)) eqn:Hsame.
  - apply andb_true_iff in Hsame as [Ew Eh]. apply Z.eqb_eq in Ew, Eh.
    intros [= <-]. unfold copy, size. f_equal; congruence.
  - destruct ((nw <? 1) || (nh <? 1)); [discriminate |].
    intros [= <-]. reflexivity.
Qed.

(** Generate mode, on any world: after the [open], nothing but saves of
    patches of the two sizes under the two output directories. *)
Lemma process_generate_mode_emits (hr_path ho lo : path) (n : Z) (rc : bool)
    (w : world) :
  exists evs,
    trace (snd (process_generate_mode hr_path ho lo n rc w))
      = trace w ++ EOpen hr_path :: evs /\
    fs (snd (process_generate_mode hr_path ho lo n rc w))
      = apply_saves evs (fs w) /\
    Forall (patch_save ho lo) evs.
Proof.
  destruct (process_generate_mode hr_path ho lo n rc w) as [res w'] eqn:E.
  cbn [snd].
  unfold process_generate_mode, open_rgb, bind at 1 2, log in E.
  set (w0 := {| fs := fs w; rng := rng w; trace := trace w ++ [EOpen hr_path] |}) in E.
  destruct (lookup w0 hr_path) as [[| img |] |].
  1, 3, 4: injection E as <- <-; exists []; unfold w0; cbn; auto.
  match type of E with
  | ?c w0 = _ => assert (Hc : emits (patch_save ho lo) c)
  end.
  { apply emits_bind; [apply emits_lift | intros img' _].
    unfold size. apply emits_for_each. intros i.
    apply emits_bind.
    { destruct rc; [destruct (_ && _) |];
        solve [apply emits_random_crop | apply emits_lift]. }
    intros [hp off] [w1 Hv].
    assert (Hsz : size hp = (HR_PATCH, HR_PATCH)).
    { destruct rc; [destruct (_ && _) |];
        solve [ exact (random_crop_size _ _ _ _ _ _ Hv)
              | unfold lift in Hv; cbn [fst] in Hv;
                exact (center_crop_size _ _ _ _ _ Hv) ]. }
    apply emits_bind; [apply emits_lift | intros lp [w2 Hl]].
    unfold lift in Hl. cbn [fst] in Hl. apply resize_size in Hl.
    apply emits_bind; [| intros _ _]; apply emits_save; cbn [patch_save];
      unfold os_path_join; rewrite removelast_last; auto. }
  destruct (Hc w0) as (evs & T & F & Q). rewrite E in T, F. cbn [snd] in T, F.
  exists evs. rewrite T, F. unfold w0. cbn [trace fs]. rewrite <- app_assoc. auto.
Qed.

(** What a sequence of saves leaves at a path. *)
Lemma apply_saves_untouched (evs : list event) (f : list (path * node)) (q : path) :
  (forall img, ~ In (ESave q img) evs) ->
  dict_get path_eqb (apply_saves evs f) q = dict_get path_eqb f q.
Proof.
  revert f. induction evs as [| e evs IH]; intros f Hno; [reflexivity |].
  unfold apply_saves. cbn [fold_left]. fold (apply_saves evs).
  rewrite IH by (intros img Hin; apply (Hno img); right; exact Hin).
  destruct e as [p | p | p img | l]; try reflexivity.
  apply dict_get_set_other; [apply path_eqb_eq |].
  intros ->. apply (Hno img). left. reflexivity.
Qed.

Lemma apply_saves_last (e1 e2 : list event) (f : list (path * node))
    (q : path) (img : Image) :
  (forall img', ~ In (ESave q img') e2) ->
  dict_get path_eqb (apply_saves (e1 ++ ESave q img :: e2) f) q
  = Some (ImageFile img).
Proof.
  intros Hno. rewrite apply_saves_app.
  change (apply_saves (ESave q img :: e2) (apply_saves e1 f))
    with (apply_saves e2 (dict_set path_eqb (apply_saves e1 f) q (ImageFile img))).
  rewrite apply_saves_untouched by exact Hno.
  apply dict_get_set_same, path_eqb_eq.
Qed.

Lemma apply_saves_frame (Q : event -> Prop) (evs : list event)
    (f : list (path * node)) (q : path) :
  dict_get path_eqb (apply_saves evs f) q = dict_get path_eqb f q \/
  exists img, dict_get path_eqb (apply_saves evs f) q = Some (ImageFile img)
              /\ In (ESave q img) evs.
Proof.
  induction evs as [| e evs IH] using rev_ind; [left; reflexivity |].
  rewrite apply_saves_app.
  destruct e as [p | p | p img | l]; cbn [apply_saves fold_left];
    try (destruct IH as [IH | (img' & IH & Hin)];
         [left; exact IH | right; exists img'; split; [exact IH | apply in_or_app; left; exact Hin]]).
  destruct (list_eq_dec string_dec q p) as [-> | Hne].
  - right. exists img. split; [apply dict_get_set_same, path_eqb_eq |].
    apply in_or_app. right. left. reflexivity.
  - rewrite dict_get_set_other; [| apply path_eqb_eq | exact Hne].
    destruct IH as [IH | (img' & IH & Hin)];
      [left; exact IH | right; exists img'; split; [exact IH | apply in_or_app; left; exact Hin]].
Qed.

End Effects.
End EffectFacts.

Import EffectFacts.

(** ** More on generate mode *)

Module GenerateMore.
Section Generate.
Context {rnd : Random} {rsm : Resampler}.

Lemma pair_events_In (ho lo : path) (base : string) (q : path) (img : Image)
    (ps : list (Image * Image)) :
  forall k,
  In (ESave q img) (pair_events ho lo base k ps) ->
  exists j pr,
    nth_error ps j = Some pr /\
    (q = os_path_join ho (generate_name base (k + Z.of_nat j)) /\ img = fst pr
     \/ q = os_path_join lo (generate_name base (k + Z.of_nat j)) /\ img = snd pr).
Proof.
  induction ps as [| [hp lp] ps IH]; intros k; cbn [pair_events]; [intros [] |].
  intros [E | [E | Hin]].
  - injection E as <- <-. exists O, (hp, lp). rewrite Z.add_0_r. auto.
  - injection E as <- <-. exists O, (hp, lp). rewrite Z.add_0_r. auto.
  - destruct (IH _ Hin) as (j & pr & Hn & Hq). exists (S j), pr.
    split; [exact Hn |].
    replace (k + Z.of_nat (S j)) with (k + 1 + Z.of_nat j) by lia. exact Hq.
Qed.

Lemma pair_events_split (ho lo : path) (base : string)
    (ps : list (Image * Image)) :
  forall k i hp lp,
  nth_error ps i = Some (hp, lp) ->
  pair_events ho lo base k ps
  = pair_events ho lo base k (firstn i ps)
    ++ ESave (os_path_join ho (generate_name base (k + Z.of_nat i))) hp
    :: ESave (os_path_join lo (generate_name base (k + Z.of_nat i))) lp
    :: pair_events ho lo base (k + Z.of_nat i + 1) (skipn (S i) ps).
Proof.
  induction ps as [| [hp0 lp0] ps IH]; intros k i hp lp Hn.
  - destruct i; discriminate Hn.
  - destruct i as [| i].
    + injection Hn as -> ->. cbn. rewrite Z.add_0_r. reflexivity.
    + cbn [nth_error] in Hn. cbn [firstn skipn pair_events app].
      rewrite (IH (k + 1) i hp lp Hn).
      replace (k + 1 + Z.of_nat i) with (k + Z.of_nat (S i)) by lia.
      reflexivity.
Qed.

Lemma join_inj (d1 d2 : path) (n1 n2 : string) :
  os_path_join d1 n1 = os_path_join d2 n2 -> d1 = d2 /\ n1 = n2.
Proof. unfold os_path_join. apply app_inj_tail. Qed.

(** X9.  In generate mode every pair saved is aligned: the
    high-resolution patch is a 384 by 384 window lying inside the source
    (as [ensure_min_size] left it), and the low-resolution patch is that
    very patch downsampled. *)
Theorem generate_mode_pairs_aligned (hr_path hr_out_dir lr_out_dir : path)
    (patches_per_image : Z) (random_crop_enabled : bool)
    (w : world) (img0 : Image) :
  lookup w hr_path = Some (ImageFile img0) ->
  decoded img0 ->
  out_ready w hr_out_dir -> out_ready w lr_out_dir ->
  exists img pairs w',
    ensure_min_size img0 MIN_HR_DIM = Ok img /\
    process_generate_mode hr_path hr_out_dir lr_out_dir
                          patches_per_image random_crop_enabled w
      = (Ok tt, w') /\
    saves (trace w')
      = saves (trace w)
        ++ saves (pair_events hr_out_dir lr_out_dir (path_stem hr_path) 0 pairs) /\
    Forall (generated_pair img) pairs.
Proof.
  intros Hlook Hdec Hho Hlo.
  destruct (decoded_min_size img0 MIN_HR_DIM Hdec) as (img & Hens & Hw & Hh).
  { unfold MIN_HR_DIM, HR_PATCH. lia. }
  destruct (process_generate_mode_spec hr_path hr_out_dir lr_out_dir
              patches_per_image random_crop_enabled w img0 img
              Hlook Hens Hw Hh Hho Hlo)
    as (pairs & w' & E & _ & Htr & Hgen & _ & _).
  exists img, pairs, w'. split; [exact Hens |]. split; [exact E |].
  split; [| exact Hgen].
  rewrite Htr. unfold saves. rewrite flat_map_app. reflexivity.
Qed.

(** X10.  After generate mode on a source that opens, with two different
    output directories: for every index [i] below [patches_per_image] the
    file [stem_pNNN.png] of the high-resolution directory holds the
    [i]-th high-resolution patch and the file of the same name in the
    low-resolution directory holds its low-resolution patch; no patch has
    been overwritten by a later one, and every path outside the two
    directories holds what it held. *)
Theorem generate_mode_manifest (hr_path hr_out_dir lr_out_dir : path)
    (patches_per_image : Z) (random_crop_enabled : bool)
    (w : world) (img0 : Image) :
  lookup w hr_path = Some (ImageFile img0) ->
  decoded img0 ->
  out_ready w hr_out_dir -> out_ready w lr_out_dir ->
  hr_out_dir <> lr_out_dir ->
  exists pairs w',
    process_generate_mode hr_path hr_out_dir lr_out_dir
                          patches_per_image random_crop_enabled w
      = (Ok tt, w') /\
    List.length pairs = Z.to_nat patches_per_image /\
    (forall i hr_patch lr_patch,
       nth_error pairs i = Some (hr_patch, lr_patch) ->
       lookup w' (os_path_join hr_out_dir
                    (generate_name (path_stem hr_path) (Z.of_nat i)))
         = Some (ImageFile hr_patch) /\
       lookup w' (os_path_join lr_out_dir
                    (generate_name (path_stem hr_path) (Z.of_nat i)))
         = Some (ImageFile lr_patch) /\
       size hr_patch = (384, 384) /\ size lr_patch = (96, 96)) /\
    (forall q, removelast q <> hr_out_dir -> removelast q <> lr_out_dir ->
       lookup w' q = lookup w q).
Proof.
  intros Hlook Hdec Hho Hlo Hne.
  destruct (decoded_min_size img0 MIN_HR_DIM Hdec) as (img & Hens & Hw & Hh).
  { unfold MIN_HR_DIM, HR_PATCH. lia. }
  destruct (process_generate_mode_spec hr_path hr_out_dir lr_out_dir
              patches_per_image random_crop_enabled w img0 img
              Hlook Hens Hw Hh Hho Hlo)
    as (pairs & w' & E & Hlen & Htr & _ & Hsz & _).
  destruct (process_generate_mode_emits hr_path hr_out_dir lr_out_dir
              patches_per_image random_crop_enabled w)
    as (evs & Htr' & Hfs & _).
  rewrite E in Htr', Hfs. cbn [snd] in Htr', Hfs.
  rewrite Htr in Htr'. apply app_inv_head in Htr'. injection Htr' as <-.
  set (base := path_stem hr_path) in *.
  exists pairs, w'. split; [exact E |]. split; [exact Hlen |]. split.
  - intros i hp lp Hn.
    pose proof (pair_events_split hr_out_dir lr_out_dir base pairs 0 i hp lp Hn) as Hs.
    rewrite Z.add_0_l in Hs.
    assert (Hback : forall q im j,
              In (ESave q im)
                 (pair_events hr_out_dir lr_out_dir base (Z.of_nat i + 1)
                              (skipn (S i) pairs)) ->
              q = os_path_join hr_out_dir (generate_name base j)
              \/ q = os_path_join lr_out_dir (generate_name base j) ->
              j <> Z.of_nat i \/ j < 0).
    { intros q im j Hin Hq. apply pair_events_In in Hin as (j' & pr & _ & Hq').
      destruct (Z.eq_dec j (Z.of_nat i)) as [-> | Hj]; [| left; exact Hj].
      exfalso.
      assert (Hnm : generate_name base (Z.of_nat i + 1 + Z.of_nat j')
                    = generate_name base (Z.of_nat i)).
      { destruct Hq as [-> | ->], Hq' as [[Hq' _] | [Hq' _]];
          apply join_inj in Hq' as [_ Hq']; auto. }
      apply generate_name_inj in Hnm as [_ Hnm]; lia. }
    split; [| split].
    + unfold lookup. rewrite Hfs, Hs. apply apply_saves_last.
      intros img' [Ex | Hin].
      * injection Ex as Ex _. apply join_inj in Ex as [Ex _]. congruence.
      * destruct (Hback _ _ (Z.of_nat i) Hin ltac:(left; reflexivity)); lia.
    + unfold lookup. rewrite Hfs, Hs.
      match goal with
      | |- context [?a ++ ?x :: ?y :: ?b] =>
          replace (a ++ x :: y :: b) with ((a ++ [x]) ++ y :: b)
            by (rewrite <- app_assoc; reflexivity)
      end.
      apply apply_saves_last.
      intros img' Hin.
      destruct (Hback _ _ (Z.of_nat i) Hin ltac:(right; reflexivity)); lia.
    + rewrite Forall_forall in Hsz. apply nth_error_In in Hn.
      exact (Hsz _ Hn).
  - intros q Hq1 Hq2. unfold lookup. rewrite Hfs.
    apply apply_saves_untouched. intros im Hin.
    apply pair_events_In in Hin as (j & pr & _ & [[-> _] | [-> _]]);
      unfold os_path_join in *; rewrite removelast_last in *; congruence.
Qed.

(** *** A path that does not resolve *)





(** X12.  When random cropping is off, or a side of the source (as
    [ensure_min_size] left it) is not above 384, which is so for every
    source that had to be scaled up: all the pairs of the source are the
    same centre crop with its downsample, saved [patches_per_image]
    times under the successive names, and the generator is not drawn
    from. *)
Theorem generate_mode_centre_only (hr_path hr_out_dir lr_out_dir : path)
    (patches_per_image : Z) (random_crop_enabled : bool)
    (w : world) (img0 img : Image) :
  lookup w hr_path = Some (ImageFile img0) ->
  decoded img0 ->
  ensure_min_size img0 MIN_HR_DIM = Ok img ->
  random_crop_enabled = false \/ width img <= 384 \/ height img <= 384 ->
  out_ready w hr_out_dir -> out_ready w lr_out_dir ->
  exists hr_patch off lr_patch w',
    center_crop img 384 384 = Ok (hr_patch, off) /\
    downsample hr_patch (96, 96) = Ok lr_patch /\
    process_generate_mode hr_path hr_out_dir lr_out_dir
                          patches_per_image random_crop_enabled w
      = (Ok tt, w') /\
    trace w' = trace w ++ EOpen hr_path
                 :: pair_events hr_out_dir lr_out_dir (path_stem hr_path) 0
                      (repeat (hr_patch, lr_patch) (Z.to_nat patches_per_image)) /\
    rng w' = rng w.
Proof.
  intros Hlook Hdec Hens Hcentre Hho Hlo.
  destruct (center_crop_spec img HR_PATCH HR_PATCH) as (hp & off & Ec & _);
    [unfold HR_PATCH; lia .. |].
  destruct (downsample_ok hp) as (lp & Ed & _).
  exists hp, off, lp.
  unfold process_generate_mode, open_rgb, bind at 1 2, log.
  unfold lookup at 1. cbn [fs]. fold (lookup w hr_path). rewrite Hlook.
  unfold bind at 1, lift at 1. rewrite Hens. unfold size.
  set (w0 := {| fs := fs w; rng := rng w; trace := trace w ++ [EOpen hr_path] |}).
  match goal with
  | |- context [for_each ?xs ?body] =>
      destruct (for_each_inv xs body
        (fun k w1 =>
           trace w1 = trace w0 ++ pair_events hr_out_dir lr_out_dir
                                    (path_stem hr_path) 0 (repeat (hp, lp) k) /\
           rng w1 = rng w /\ same_dirs w w1) w0) as (w' & E & Htr & Hrng & _)
  end.
  - intros k i w1 Hnth (Htr & Hrng & Hsd).
    apply nth_error_range in Hnth. subst i.
    assert (Hstep :
      (if random_crop_enabled
       then if (width img >? HR_PATCH) && (height img >? HR_PATCH)
            then random_crop img HR_PATCH HR_PATCH
            else lift (center_crop img HR_PATCH HR_PATCH)
       else lift (center_crop img HR_PATCH HR_PATCH)) w1 = (Ok (hp, off), w1)).
    { unfold lift. rewrite Ec.
      destruct random_crop_enabled; [| reflexivity].
      destruct Hcentre as [Hc | Hc]; [discriminate |].
      unfold HR_PATCH.
      destruct (Z.gtb_spec (width img) 384), (Z.gtb_spec (height img) 384);
        cbn [andb]; try reflexivity; lia. }
    unfold bind at 1. rewrite Hstep.
    unfold bind at 1, lift at 1. rewrite Ed.
    destruct (save_ok hp hr_out_dir (generate_name (path_stem hr_path) (Z.of_nat k)) w1)
      as (w3 & Es1 & Htr3 & Hr3 & Hsd3).
    { apply (out_ready_same_dirs w); assumption. }
    unfold bind at 1. rewrite Es1.
    assert (Hsd3' : same_dirs w w3) by (apply (same_dirs_trans _ w1); assumption).
    destruct (save_ok lp lr_out_dir (generate_name (path_stem hr_path) (Z.of_nat k)) w3)
      as (w4 & Es2 & Htr4 & Hr4 & Hsd4).
    { apply (out_ready_same_dirs w); assumption. }
    rewrite Es2. exists w4. split; [reflexivity |]. split; [| split].
    + rewrite Htr4, Htr3, Htr.
      replace (repeat (hp, lp) (S k)) with (repeat (hp, lp) k ++ [(hp, lp)])
        by (rewrite <- repeat_cons; reflexivity).
      rewrite pair_events_app, repeat_length. cbn [pair_events].
      rewrite Z.add_0_l, <- !app_assoc. reflexivity.
    + congruence.
    + apply (same_dirs_trans _ w3); assumption.
  - cbn [repeat pair_events]. rewrite app_nil_r.
    split; [reflexivity |]. split; [reflexivity |]. apply same_dirs_fs. reflexivity.
  - rewrite length_range in Htr.
    exists w'. split; [exact Ec |]. split; [exact Ed |]. split; [exact E |].
    split; [| exact Hrng].
    rewrite Htr. unfold w0. cbn [trace]. rewrite <- app_assoc. reflexivity.
Qed.



End Generate.
End GenerateMore.

Import GenerateMore.

(** ** Floats on an exact scale *)

Module ScaleFacts.

Lemma pow2_le (a b : Z) : a <= b -> (pow2 a <= pow2 b)%Q.
Proof.
  intros Hab. replace b with (a + (b - a)) by lia. rewrite pow2_add.
  pose proof (pow2_pos a) as Ha.
  assert (H1 : (1 <= pow2 (b - a))%Q).
  { rewrite pow2_inject by lia. change 1%Q with (inject_Z 1). rewrite <- Zle_Qle.
    pose proof (Z.pow_pos_nonneg 2 (b - a)). lia. }
  nra.
Qed.

Lemma ulp_exp_comp (x y : Q) : (x == y)%Q -> ~ (x == 0)%Q -> ulp_exp x = ulp_exp y.
Proof.
  intros E Hx.
  assert (Hy : ~ (y == 0)%Q) by (rewrite <- E; exact Hx).
  pose proof (ulp_exp_lower x Hx) as Lx. pose proof (ulp_exp_upper x Hx) as Ux.
  pose proof (ulp_exp_lower y Hy) as Ly. pose proof (ulp_exp_upper y Hy) as Uy.
  assert (Ea : (Qabs y == Qabs x)%Q) by (rewrite E; reflexivity).
  rewrite Ea in Ly, Uy.
  assert (Hp : (pow2 prec == 2 * pow2 (prec - 1))%Q).
  { replace prec with (1 + (prec - 1)) at 1 by lia. rewrite pow2_add. reflexivity. }
  pose proof (pow2_pos (prec - 1)) as Hpp.
  assert (Hlt : forall a b, (pow2 (prec - 1) * pow2 a <= Qabs x)%Q ->
            (Qabs x < pow2 prec * pow2 b)%Q -> a <= b).
  { intros a b La Ub. destruct (Z_le_gt_dec a b) as [H | H]; [exact H | exfalso].
    pose proof (pow2_le (b + 1) a ltac:(lia)) as Hm.
    rewrite pow2_add in Hm. change (pow2 1) with 2%Q in Hm.
    rewrite Hp in Ub. pose proof (pow2_pos b). pose proof (pow2_pos a). nra. }
  apply Z.le_antisymm; [apply Hlt | apply Hlt]; assumption.
Qed.

#[export] Instance fl_comp : Proper (Qeq ==> Qeq) fl.
Proof.
  intros x y E. unfold fl.
  destruct (Qeq_bool x 0) eqn:Hx.
  - apply Qeq_bool_iff in Hx. rewrite E in Hx. apply Qeq_bool_iff in Hx.
    rewrite Hx. reflexivity.
  - assert (Hx' : ~ (x == 0)%Q).
    { intros Hc. apply Qeq_bool_iff in Hc. congruence. }
    assert (Hy : Qeq_bool y 0 = false).
    { destruct (Qeq_bool y 0) eqn:Hy; [| reflexivity].
      apply Qeq_bool_iff in Hy. rewrite <- E in Hy. contradiction. }
    rewrite Hy, <- (ulp_exp_comp x y E Hx').
    assert (Er : round_half_even (x / pow2 (ulp_exp x))
                 = round_half_even (y / pow2 (ulp_exp x))).
    { apply round_half_even_comp. apply Qdiv_comp; [exact E | reflexivity]. }
    rewrite Er. reflexivity.
Qed.

Lemma fgt_comp (x x' y y' : Q) : (x == x')%Q -> (y == y')%Q -> fgt x y = fgt x' y'.
Proof. intros Ex Ey. unfold fgt. rewrite Ex, Ey. reflexivity. Qed.

Lemma int_truediv_multiple (k b : Z) :
  b <> 0 -> Z.abs k < 2 ^ prec -> (int_truediv (k * b) b == inject_Z k)%Q.
Proof.
  intros Hb Hk. unfold int_truediv.
  assert (E : (inject_Z (k * b) / inject_Z b == inject_Z k)%Q).
  { rewrite inject_Z_mult. field. intros Hc.
    unfold Qeq in Hc. cbn in Hc. lia. }
  rewrite E. apply fl_int. exact Hk.
Qed.

(** The float product of an [int] below [2^50] by a scale that is exactly
    4 is four times the [int]. *)
Lemma scaled_offset_exact (l : Z) (scale : Q) :
  (scale == 4)%Q -> 0 <= l < 2 ^ 50 ->
  round_half_even (fmul (of_int l) scale) = 4 * l.
Proof.
  intros Es Hl. unfold fmul.
  assert (E : (fl (of_int l * scale) == inject_Z (4 * l))%Q).
  { rewrite Es, of_int_exact by (unfold prec; lia).
    assert (E4 : (inject_Z l * 4 == inject_Z (4 * l))%Q).
    { rewrite inject_Z_mult. change (inject_Z 4) with 4%Q. ring. }
    rewrite E4. apply fl_int. unfold prec. lia. }
  rewrite E. apply round_half_even_Z.
Qed.

Lemma exact_scale_tests (hw hh lw lh : Z) :
  0 < lw -> 0 < lh -> hw = UPSCALE * lw -> hh = UPSCALE * lh ->
  let scale_w := int_truediv hw lw in
  let scale_h := int_truediv hh lh in
  let scale := fdiv (fadd scale_w scale_h) lit_2_0 in
  fgt (fabs (fsub scale_w scale_h)) lit_0_1 = false /\
  fgt (fabs (fsub scale (of_int UPSCALE))) lit_0_5 = false /\
  (scale == 4)%Q.
Proof.
  intros Hlw Hlh -> -> scale_w scale_h scale.
  change UPSCALE with 4 in *.
  assert (Ew : (scale_w == 4)%Q).
  { unfold scale_w. rewrite (int_truediv_multiple 4 lw); [reflexivity | lia |].
    unfold prec. cbn. lia. }
  assert (Eh : (scale_h == 4)%Q).
  { unfold scale_h. rewrite (int_truediv_multiple 4 lh); [reflexivity | lia |].
    unfold prec. cbn. lia. }
  assert (E2 : (lit_2_0 == 2)%Q).
  { unfold lit_2_0. change 2%Q with (inject_Z 2). apply fl_int. unfold prec. cbn. lia. }
  assert (Es : (scale == 4)%Q).
  { unfold scale, fdiv, fadd.
    assert (E8 : (fl (scale_w + scale_h) == 8)%Q).
    { rewrite Ew, Eh. change (4 + 4)%Q with (inject_Z 8). change 8%Q with (inject_Z 8).
      apply fl_int. unfold prec. cbn. lia. }
    rewrite E8, E2. change (8 / 2)%Q with (inject_Z 8 / inject_Z 2)%Q.
    assert (E : (inject_Z 8 / inject_Z 2 == inject_Z 4)%Q) by reflexivity.
    rewrite E. apply fl_int. unfold prec. cbn. lia. }
  assert (Hz : forall x y, (x == 4)%Q -> (y == 4)%Q -> (fabs (fsub x y) == 0)%Q).
  { intros x y Ex Ey. unfold fabs, fsub. rewrite Ex, Ey.
    assert (E : (4 - 4 == inject_Z 0)%Q) by reflexivity.
    rewrite E, fl_int by (unfold prec; cbn; lia). reflexivity. }
  split; [| split; [| exact Es]].
  - rewrite (fgt_comp _ 0 _ lit_0_1 (Hz _ _ Ew Eh) (Qeq_refl _)). reflexivity.
  - rewrite (fgt_comp _ 0 _ lit_0_5 (Hz _ _ Es (of_int_exact 4 ltac:(unfold prec; cbn; lia)))
               (Qeq_refl _)).
    reflexivity.
Qed.

End ScaleFacts.

Import ScaleFacts.

(** ** More on paired mode *)

Module PairedMore.
Section Paired.
Context {rnd : Random} {rsm : Resampler}.

Lemma paired_events_app ho lo base i ps qs :
  paired_events ho lo base i (ps ++ qs)
  = paired_events ho lo base i ps
    ++ paired_events ho lo base (i + Z.of_nat (List.length ps)) qs.
Proof.
  revert i. induction ps as [| [hp lp] ps IH]; intros i;
    cbn [paired_events app List.length].
  - rewrite Z.add_0_r. reflexivity.
  - rewrite IH. cbn [app]. f_equal. f_equal. f_equal. f_equal.
    rewrite Nat2Z.inj_succ. lia.
Qed.

Lemma paired_mode_run (hr_path lr_path hr_out_dir lr_out_dir : path)
    (random_crop_enabled : bool) (w : world)
    (hr0 lr0 hr_img lr_img : Image) :
  lookup w hr_path = Some (ImageFile hr0) ->
  lookup w lr_path = Some (ImageFile lr0) ->
  decoded hr0 -> decoded lr0 ->
  ensure_min_size lr0 LR_PATCH = Ok lr_img ->
  ensure_min_size hr0 HR_PATCH = Ok hr_img ->
  let scale_w := int_truediv (width hr_img) (width lr_img) in
  let scale_h := int_truediv (height hr_img) (height lr_img) in
  let scale := fdiv (fadd scale_w scale_h) lit_2_0 in
  fgt (fabs (fsub scale_w scale_h)) lit_0_1 = false ->
  fgt (fabs (fsub scale (of_int UPSCALE))) lit_0_5 = false ->
  out_ready w hr_out_dir -> out_ready w lr_out_dir ->
  exists pairs w',
    process_paired_mode hr_path lr_path hr_out_dir lr_out_dir
                        random_crop_enabled w = (Ok tt, w') /\
    List.length pairs = (if random_crop_enabled then 3 else 1)%nat /\
    trace w' = trace w ++ EOpen hr_path :: EOpen lr_path
                 :: paired_events hr_out_dir lr_out_dir (path_stem hr_path) 0 pairs /\
    Forall (paired_pair hr_img lr_img scale) pairs /\
    Forall (fun pr => size (fst pr) = (384, 384) /\ size (snd pr) = (96, 96))
           pairs.
Proof.
  intros Hhr Hlr Hdhr Hdlr Elr Ehr scale_w scale_h scale Hasp Hsc Hho Hlo.
  destruct (decoded_min_size lr0 LR_PATCH Hdlr) as (lr' & Elr' & Hlw & Hlh).
  { unfold LR_PATCH. lia. }
  rewrite Elr in Elr'. injection Elr' as <-.
  destruct (decoded_min_size hr0 HR_PATCH Hdhr) as (hr' & Ehr' & Hhw & Hhh).
  { unfold HR_PATCH. lia. }
  rewrite Ehr in Ehr'. injection Ehr' as <-.
  unfold process_paired_mode, open_rgb, bind at 1 2, log.
  unfold lookup at 1. cbn [fs]. fold (lookup w hr_path). rewrite Hhr.
  unfold bind at 1 2. unfold lookup at 1. cbn [fs]. fold (lookup w lr_path).
  rewrite Hlr.
  unfold bind at 1, lift at 1. rewrite Elr.
  unfold bind at 1, lift at 1. rewrite Ehr.
  unfold size.
  destruct (Z.eqb_spec (width lr_img) 0) as [Hz | _]; [unfold LR_PATCH in Hlw; lia |].
  destruct (Z.eqb_spec (height lr_img) 0) as [Hz | _]; [unfold LR_PATCH in Hlh; lia |].
  cbn [orb]. fold scale_w scale_h. fold scale. rewrite Hasp, Hsc.
  set (w0 := {| fs := fs w; rng := rng w;
                trace := (trace w ++ [EOpen hr_path]) ++ [EOpen lr_path] |}).
  assert (Hw0 : same_dirs w w0) by (apply same_dirs_fs; reflexivity).
  match goal with
  | |- context [for_each ?xs ?body] =>
      destruct (for_each_inv xs body
        (fun k w1 => exists pairs,
           List.length pairs = k /\
           trace w1 = trace w0 ++ paired_events hr_out_dir lr_out_dir
                                    (path_stem hr_path) 0 pairs /\
           Forall (paired_pair hr_img lr_img scale) pairs /\
           Forall (fun pr => size (fst pr) = (384, 384)
                             /\ size (snd pr) = (96, 96)) pairs /\
           same_dirs w w1) w0) as (w' & E & pairs & Hlen & Htr & Hpp & Hsz & Hsd)
  end.
  - intros k i w1 Hnth (pairs & Hlen & Htr & Hpp & Hsz & Hsd).
    apply nth_error_range in Hnth. subst i.
    assert (Hcrop : exists lp l t w2,
      (if random_crop_enabled && (width lr_img >? LR_PATCH)
          && (height lr_img >? LR_PATCH)
       then random_crop lr_img LR_PATCH LR_PATCH
       else lift (center_crop lr_img LR_PATCH LR_PATCH)) w1
        = (Ok (lp, (l, t)), w2) /\
      fs w2 = fs w1 /\ trace w2 = trace w1 /\
      in_bounds lr_img LR_PATCH LR_PATCH (l, t) /\
      crop lr_img (l, t, l + LR_PATCH, t + LR_PATCH) = Ok lp).
    { destruct (random_crop_enabled && (width lr_img >? LR_PATCH)
                && (height lr_img >? LR_PATCH)) eqn:Hbig.
      - apply andb_true_iff in Hbig as [Hbig Hbh].
        apply andb_true_iff in Hbig as [_ Hbw].
        apply Z.gtb_lt in Hbw, Hbh.
        destruct (random_crop_spec lr_img LR_PATCH LR_PATCH w1)
          as (lp & [l t] & w2 & Er & Hfs & Htr' & Hcase & Hin);
          [unfold LR_PATCH; lia .. |].
        exists lp, l, t, w2. split; [exact Er |]. split; [exact Hfs |].
        split; [exact Htr' |]. split; [apply Hin; lia |].
        destruct Hcase as [(Hsame & _) | (_ & Hc)]; [| exact Hc].
        unfold size in Hsame. injection Hsame as Ew Eh. lia.
      - destruct (center_crop_spec lr_img LR_PATCH LR_PATCH)
          as (lp & [l t] & Ec & _ & Hc & Hin); [unfold LR_PATCH; lia .. |].
        exists lp, l, t, w1. unfold lift. rewrite Ec. auto 10. }
    destruct Hcrop as (lp & l & t & w2 & Ecrop & Hfs2 & Htr2 & Hin & Hc).
    unfold bind at 1. rewrite Ecrop.
    set (hl := Z.min (Z.max 0 (round_half_even (fmul (of_int l) scale)))
                     (width hr_img - HR_PATCH)).
    set (ht := Z.min (Z.max 0 (round_half_even (fmul (of_int t) scale)))
                     (height hr_img - HR_PATCH)).
    destruct (crop_ok hr_img hl ht HR_PATCH HR_PATCH)
      as (hp & Eh & Hhsz & _); [unfold HR_PATCH; lia .. |].
    unfold bind at 1, lift at 1. rewrite Eh.
    assert (Hlsz : size lp = (LR_PATCH, LR_PATCH)) by exact (crop_size _ _ _ _ _ _ Hc).
    assert (Er : resize lp (LR_PATCH, LR_PATCH) BICUBIC = Ok lp).
    { unfold resize. unfold size in Hlsz. injection Hlsz as Ew Eh'.
      rewrite Ew, Eh', !Z.eqb_refl. reflexivity. }
    unfold bind at 1, lift at 1. rewrite Er.
    assert (Hsd2 : same_dirs w w2).
    { apply (same_dirs_trans _ w1); [exact Hsd | apply same_dirs_fs; exact Hfs2]. }
    destruct (save_ok hp hr_out_dir (paired_name (path_stem hr_path) (Z.of_nat k)) w2)
      as (w3 & Es1 & Htr3 & _ & Hsd3).
    { apply (out_ready_same_dirs w); assumption. }
    unfold bind at 1. rewrite Es1.
    assert (Hsd3' : same_dirs w w3) by (apply (same_dirs_trans _ w2); assumption).
    destruct (save_ok lp lr_out_dir (paired_name (path_stem hr_path) (Z.of_nat k)) w3)
      as (w4 & Es2 & Htr4 & _ & Hsd4).
    { apply (out_ready_same_dirs w); assumption. }
    rewrite Es2. exists w4. split; [reflexivity |].
    exists (pairs ++ [(hp, lp)]). split.
    { rewrite length_app. cbn. lia. }
    split.
    { rewrite Htr4, Htr3, Htr2, Htr, paired_events_app, Hlen.
      cbn [paired_events]. rewrite Z.add_0_l, <- !app_assoc. reflexivity. }
    split; [| split].
    + apply Forall_app. split; [exact Hpp |]. constructor; [| constructor].
      exists l, t. cbn [fst snd]. split; [exact Hin |]. split; [exact Hc |].
      fold hl ht. split; [| exact Eh].
      unfold in_bounds. cbn [fst snd]. unfold hl, ht. lia.
    + apply Forall_app. split; [exact Hsz |]. constructor; [| constructor].
      cbn [fst snd]. auto.
    + apply (same_dirs_trans _ w3); assumption.
  - exists []. split; [reflexivity |]. cbn [paired_events]. rewrite app_nil_r.
    split; [reflexivity |]. auto.
  - rewrite length_range in Hlen.
    exists pairs, w'. split; [exact E |]. split.
    { rewrite Hlen. destruct random_crop_enabled; reflexivity. }
    split.
    { rewrite Htr. unfold w0. cbn [trace]. rewrite <- !app_assoc. reflexivity. }
    auto.
Qed.

(** X13.  Paired mode on a pair that passes both consistency tests saves
    three pairs when random cropping is on and one when it is off, under
    the paired-mode names.  In each pair the low-resolution patch is a
    96 by 96 window lying inside the low-resolution image, saved as it is
    (the final resize changes nothing), and the high-resolution patch is
    the 384 by 384 window of the high-resolution image at the offset
    scaled, rounded and clamped, which lies inside that image. *)
Theorem paired_mode_pairs (hr_path lr_path hr_out_dir lr_out_dir : path)
    (random_crop_enabled : bool) (w : world)
    (hr0 lr0 hr_img lr_img : Image) :
  lookup w hr_path = Some (ImageFile hr0) ->
  lookup w lr_path = Some (ImageFile lr0) ->
  decoded hr0 -> decoded lr0 ->
  ensure_min_size lr0 LR_PATCH = Ok lr_img ->
  ensure_min_size hr0 HR_PATCH = Ok hr_img ->
  let scale_w := int_truediv (width hr_img) (width lr_img) in
  let scale_h := int_truediv (height hr_img) (height lr_img) in
  let scale := fdiv (fadd scale_w scale_h) lit_2_0 in
  fgt (fabs (fsub scale_w scale_h)) lit_0_1 = false ->
  fgt (fabs (fsub scale (of_int UPSCALE))) lit_0_5 = false ->
  out_ready w hr_out_dir -> out_ready w lr_out_dir ->
  exists pairs w',
    process_paired_mode hr_path lr_path hr_out_dir lr_out_dir
                        random_crop_enabled w = (Ok tt, w') /\
    List.length pairs = (if random_crop_enabled then 3 else 1)%nat /\
    trace w' = trace w ++ EOpen hr_path :: EOpen lr_path
                 :: paired_events hr_out_dir lr_out_dir (path_stem hr_path) 0 pairs /\
    Forall (paired_pair hr_img lr_img scale) pairs /\
    Forall (fun pr => size (fst pr) = (384, 384) /\ size (snd pr) = (96, 96))
           pairs.
Proof. exact (paired_mode_run hr_path lr_path hr_out_dir lr_out_dir random_crop_enabled w hr0 lr0 hr_img lr_img). Qed.

(** X18.  Paired mode on a pair in which the high-resolution image is
    exactly four times the low-resolution one on both axes (and the
    latter is at least 96 by 96) never falls back: it saves three pairs,
    or one when random cropping is off, and in each pair the
    high-resolution patch is the window of the high-resolution image at
    exactly four times the offset of the low-resolution patch, so the two
    patches show the same part of the picture. *)
Theorem paired_mode_exact_scale (hr_path lr_path hr_out_dir lr_out_dir : path)
    (random_crop_enabled : bool) (w : world) (hr_img lr_img : Image) :
  lookup w hr_path = Some (ImageFile hr_img) ->
  lookup w lr_path = Some (ImageFile lr_img) ->
  decoded hr_img ->
  LR_PATCH <= width lr_img -> LR_PATCH <= height lr_img ->
  width hr_img = UPSCALE * width lr_img ->
  height hr_img = UPSCALE * height lr_img ->
  out_ready w hr_out_dir -> out_ready w lr_out_dir ->
  exists pairs w',
    process_paired_mode hr_path lr_path hr_out_dir lr_out_dir
                        random_crop_enabled w = (Ok tt, w') /\
    List.length pairs = (if random_crop_enabled then 3 else 1)%nat /\
    trace w' = trace w ++ EOpen hr_path :: EOpen lr_path
                 :: paired_events hr_out_dir lr_out_dir (path_stem hr_path) 0 pairs /\
    Forall (fun pr => exists l t,
              in_bounds lr_img LR_PATCH LR_PATCH (l, t) /\
              crop lr_img (l, t, l + LR_PATCH, t + LR_PATCH) = Ok (snd pr) /\
              crop hr_img (UPSCALE * l, UPSCALE * t,
                           UPSCALE * l + HR_PATCH, UPSCALE * t + HR_PATCH)
                = Ok (fst pr))
           pairs.
Proof.
  intros Hhr Hlr [Hdw Hdh] Hlw Hlh Ew Eh Hho Hlo.
  change UPSCALE with 4 in *. unfold LR_PATCH in Hlw, Hlh.
  assert (Hdl : decoded lr_img) by (unfold decoded; lia).
  assert (Elr : ensure_min_size lr_img LR_PATCH = Ok lr_img).
  { apply ensure_min_size_large. unfold LR_PATCH. lia. }
  assert (Ehr : ensure_min_size hr_img HR_PATCH = Ok hr_img).
  { apply ensure_min_size_large. unfold HR_PATCH. lia. }
  destruct (exact_scale_tests (width hr_img) (height hr_img)
              (width lr_img) (height lr_img))
    as (Hasp & Hsc & Es); try (change UPSCALE with 4); try lia.
  destruct (paired_mode_run hr_path lr_path hr_out_dir lr_out_dir random_crop_enabled
              w hr_img lr_img hr_img lr_img Hhr Hlr (conj Hdw Hdh) Hdl Elr Ehr
              Hasp Hsc Hho Hlo)
    as (pairs & w' & E & Hlen & Htr & Hpairs & _).
  exists pairs, w'. split; [exact E |]. split; [exact Hlen |]. split; [exact Htr |].
  eapply Forall_impl; [| exact Hpairs].
  intros pr (l & t & Hin & Hcl & _ & Hch). exists l, t.
  split; [exact Hin |]. split; [exact Hcl |].
  destruct Hin as (Hl0 & Ht0 & Hl1 & Ht1). cbn [fst snd] in *.
  unfold LR_PATCH in Hl1, Ht1.
  rewrite !(scaled_offset_exact _ _ Es) in Hch by lia.
  unfold HR_PATCH in Hch |- *.
  replace (Z.min (Z.max 0 (4 * l)) (width hr_img - 384)) with (4 * l) in Hch by lia.
  replace (Z.min (Z.max 0 (4 * t)) (height hr_img - 384)) with (4 * t) in Hch by lia.
  exact Hch.
Qed.


End Paired.
End PairedMore.

Import PairedMore.

(** ** More on the batch driver *)

Module BatchMore.
Section Batch.
Context {rnd : Random} {rsm : Resampler} {txt : ExnText}.

Lemma emits_try_except {A} (Q : event -> Prop) (c : M A) (h : exn -> M A) :
  emits Q c -> (forall e, emits Q (h e)) -> emits Q (try_except c h).
Proof.
  intros Hc Hh w. unfold try_except. destruct (Hc w) as (e1 & T1 & F1 & Q1).
  destruct (c w) as [[a | e] w1]; cbn [snd] in *.
  - exists e1. auto.
  - destruct (Hh e w1) as (e2 & T2 & F2 & Q2).
    exists (e1 ++ e2). rewrite T2, T1, F2, F1, apply_saves_app, app_assoc.
    split; [reflexivity |]. split; [reflexivity |]. apply Forall_app. auto.
Qed.

Lemma emits_process_generate_mode (hr_path ho lo : path) (n : Z) (rc : bool) :
  emits (patch_save ho lo) (process_generate_mode hr_path ho lo n rc).
Proof.
  intros w.
  destruct (process_generate_mode_emits hr_path ho lo n rc w) as (evs & T & F & Q).
  exists (EOpen hr_path :: evs). split; [exact T |]. split; [exact F |].
  constructor; [exact I | exact Q].
Qed.

Lemma emits_batch_loop (ho lo : path) (total : nat) (items : list (string * path)) :
  forall p, emits (patch_save ho lo) (batch_loop items ho lo total p).
Proof.
  induction items as [| [hr_name hr_path] rest IH]; intros p; cbn [batch_loop].
  - apply emits_ret.
  - apply emits_bind; [| intros p' _; apply IH].
    apply emits_try_except.
    + apply emits_bind; [apply emits_process_generate_mode | intros _ _].
      apply emits_bind; [| intros _ _; apply emits_ret].
      destruct (_ =? _); [apply emits_print; exact I | apply emits_ret].
    + intros e. apply emits_bind; [apply emits_print; exact I | intros _ _].
      apply emits_ret.
Qed.



(** *** When every source opens *)

Lemma saves_app (t1 t2 : list event) : saves (t1 ++ t2) = saves t1 ++ saves t2.
Proof. unfold saves. apply flat_map_app. Qed.

Lemma saves_pair_events ho lo base (k : nat) (ps : list (Image * Image)) :
  map fst (saves (pair_events ho lo base (Z.of_nat k) ps))
  = flat_map (fun i => [os_path_join ho (generate_name base (Z.of_nat i));
                        os_path_join lo (generate_name base (Z.of_nat i))])
             (seq k (List.length ps)).
Proof.
  revert k. induction ps as [| [hp lp] ps IH]; intros k; [reflexivity |].
  cbn [pair_events List.length seq flat_map app].
  change (saves (ESave ?p1 ?i1 :: ESave ?p2 ?i2 :: ?t))
    with ((p1, i1) :: (p2, i2) :: saves t).
  cbn [map fst]. do 2 f_equal.
  replace (Z.of_nat k + 1) with (Z.of_nat (S k)) by lia. apply IH.
Qed.

Lemma opened_pair_events ho lo base k (ps : list (Image * Image)) :
  opened (pair_events ho lo base k ps) = [].
Proof.
  revert k. induction ps as [| [hp lp] ps IH]; intros k; [reflexivity |].
  cbn [pair_events]. exact (IH (k + 1)).
Qed.

Lemma decoded_patch (img : Image) :
  size img = (HR_PATCH, HR_PATCH) \/ size img = (LR_PATCH, LR_PATCH) -> decoded img.
Proof.
  unfold size, decoded, HR_PATCH, LR_PATCH. intros [[= -> ->] | [= -> ->]]; lia.
Qed.

Lemma printed_app (t1 t2 : list event) :
  Concrete.printed (t1 ++ t2) = Concrete.printed t1 ++ Concrete.printed t2.
Proof. unfold Concrete.printed. apply flat_map_app. Qed.

Lemma printed_pair_events ho lo base k (ps : list (Image * Image)) :
  Concrete.printed (pair_events ho lo base k ps) = [].
Proof.
  revert k. induction ps as [| [hp lp] ps IH]; intros k; [reflexivity |].
  cbn [pair_events]. exact (IH (k + 1)).
Qed.

Lemma batch_loop_run (ho lo : path) (total : nat)
    (items : list (string * path)) :
  forall (p : Z) (w : world),
  out_ready w ho -> out_ready w lo ->
  (forall hr_name hr_path, In (hr_name, hr_path) items ->
     exists img, lookup w hr_path = Some (ImageFile img) /\ decoded img) ->
  exists w' evs,
    batch_loop items ho lo total p w
      = (Ok (p + Z.of_nat (List.length items)), w') /\
    trace w' = trace w ++ evs /\
    opened evs = map snd items /\
    map fst (saves evs)
    = flat_map (fun it => pair_targets ho lo (path_stem (snd it))
                            (Z.to_nat PATCHES_PER_IMAGE)) items /\
    Concrete.printed evs
    = map (fun j => ("  Processed " ++ str_int j ++ "/"
                          ++ str_int (Z.of_nat total) ++ " HR images...")%string)
          (filter (fun j => j mod 20 =? 0)
                  (map (fun i => p + 1 + Z.of_nat i) (seq 0 (List.length items)))).
Proof.
  induction items as [| [hr_name hr_path] rest IH]; intros p w Hho Hlo Hsrc.
  - exists w, []. cbn. rewrite Z.add_0_r, app_nil_r. auto.
  - cbn [batch_loop]. unfold bind at 1, try_except, bind at 1.
    destruct (Hsrc hr_name hr_path (or_introl eq_refl)) as (img0 & Hlook & Hdec).
    destruct (decoded_min_size img0 MIN_HR_DIM Hdec) as (img & Hens & Hw & Hh).
    { unfold MIN_HR_DIM, HR_PATCH. lia. }
    destruct (process_generate_mode_spec hr_path ho lo PATCHES_PER_IMAGE
                RANDOM_CROP w img0 img Hlook Hens Hw Hh Hho Hlo)
      as (pairs & w1 & E & Hlen & Htr & _ & _ & Hsd).
    destruct (process_generate_mode_emits hr_path ho lo PATCHES_PER_IMAGE
                RANDOM_CROP w) as (evs & _ & Hfs & Hq).
    rewrite E in Hfs |- *. cbn [snd] in Hfs.
    assert (Hsrc1 : forall w2, fs w2 = fs w1 ->
              forall n hp, In (n, hp) rest ->
              exists im, lookup w2 hp = Some (ImageFile im) /\ decoded im).
    { intros w2 Hfs2 n hp Hin. unfold lookup. rewrite Hfs2, Hfs.
      destruct (apply_saves_frame (patch_save ho lo) evs (fs w) hp)
        as [Es | (im & Es & Hin')].
      - rewrite Es. apply (Hsrc n hp). right. exact Hin.
      - exists im. split; [exact Es |]. rewrite Forall_forall in Hq.
        specialize (Hq _ Hin'). cbn [patch_save] in Hq.
        apply decoded_patch. tauto. }
    assert (Hstep : forall w2 extra, fs w2 = fs w1 ->
              trace w2 = trace w1 ++ extra ->
              opened extra = [] -> saves extra = [] ->
              Concrete.printed extra
              = (if (p + 1) mod 20 =? 0
                 then [("  Processed " ++ str_int (p + 1) ++ "/"
                        ++ str_int (Z.of_nat total) ++ " HR images...")%string]
                 else []) ->
              exists w' evs',
                batch_loop rest ho lo total (p + 1) w2
                  = (Ok (p + Z.of_nat (List.length ((hr_name, hr_path) :: rest))), w') /\
                trace w' = trace w ++ evs' /\
                opened evs' = map snd ((hr_name, hr_path) :: rest) /\
                map fst (saves evs')
                = flat_map (fun it => pair_targets ho lo (path_stem (snd it))
                                        (Z.to_nat PATCHES_PER_IMAGE))
                           ((hr_name, hr_path) :: rest) /\
                Concrete.printed evs'
                = map (fun j => ("  Processed " ++ str_int j ++ "/"
                          ++ str_int (Z.of_nat total) ++ " HR images...")%string)
                      (filter (fun j => j mod 20 =? 0)
                              (map (fun i => p + 1 + Z.of_nat i)
                                   (seq 0 (List.length ((hr_name, hr_path) :: rest)))))).
    { intros w2 extra Hfs2 Ht2 Ho2 Hs2 Hp2.
      assert (Hsd2 : same_dirs w w2).
      { apply (same_dirs_trans _ w1); [exact Hsd | apply same_dirs_fs; exact Hfs2]. }
      destruct (IH (p + 1) w2) as (w' & evs' & El & Ht & Ho & Hs & Hp).
      - apply (out_ready_same_dirs w); assumption.
      - apply (out_ready_same_dirs w); assumption.
      - apply Hsrc1. exact Hfs2.
      - exists w',
          ((EOpen hr_path :: pair_events ho lo (path_stem hr_path) 0 pairs)
             ++ extra ++ evs').
        split.
        { rewrite El. cbn [List.length]. do 2 f_equal. lia. }
        split; [| split; [| split]].
        + rewrite Ht, Ht2, Htr, <- !app_assoc. reflexivity.
        + rewrite !opened_app, Ho2, Ho. cbn [opened flat_map app].
          fold (opened (pair_events ho lo (path_stem hr_path) 0 pairs)).
          rewrite opened_pair_events. reflexivity.
        + rewrite !saves_app, Hs2, !map_app, Hs.
          change (saves (EOpen hr_path :: pair_events ho lo (path_stem hr_path) 0 pairs))
            with (saves (pair_events ho lo (path_stem hr_path) (Z.of_nat 0) pairs)).
          rewrite saves_pair_events, Hlen. reflexivity.
        + rewrite !printed_app, Hp2, Hp.
          change (Concrete.printed
                    (EOpen hr_path :: pair_events ho lo (path_stem hr_path) 0 pairs))
            with (Concrete.printed (pair_events ho lo (path_stem hr_path) 0 pairs)).
          rewrite printed_pair_events. cbn [app List.length seq map filter].
          rewrite <- seq_shift, map_map, Z.add_0_r.
          rewrite (map_ext (fun i => p + 1 + Z.of_nat (S i))
                           (fun i => p + 1 + 1 + Z.of_nat i)) by (intros i; lia).
          destruct ((p + 1) mod 20 =? 0); reflexivity. }
    unfold bind at 1.
    destruct ((p + 1) mod 20 =? 0) eqn:Hmod.
    + match goal with
      | |- context [print ?line w1] =>
          change (print line w1) with (Ok tt, snd (print line w1));
          destruct (Hstep (snd (print line w1)) [EPrint line])
            as (w' & evs' & Hw')
      end; try reflexivity.
      exists w', evs'. exact Hw'.
    + unfold ret at 1. destruct (Hstep w1 []) as (w' & evs' & Hw'); try reflexivity.
      * rewrite app_nil_r. reflexivity.
      * exists w', evs'. exact Hw'.
Qed.

Section DictKeys.
Context {K V : Type} (eqb : K -> K -> bool).
Hypothesis eqb_eq : forall a b, eqb a b = true <-> a = b.

Lemma dict_set_new_key (d : list (K * V)) k v :
  dict_get eqb d k = None -> map fst (dict_set eqb d k v) = map fst d ++ [k].
Proof.
  induction d as [| [k0 v0] d IH]; cbn; [reflexivity |].
  destruct (eqb k k0); [discriminate |]. intros Hn. cbn. rewrite IH; auto.
Qed.

Lemma dict_get_key (d : list (K * V)) k :
  In k (map fst d) -> dict_get eqb d k <> None.
Proof.
  induction d as [| [k0 v0] d IH]; cbn; [intros [] |].
  intros [-> | Hin].
  - assert (E : eqb k k = true) by (apply eqb_eq; reflexivity).
    rewrite E. discriminate.
  - destruct (eqb k k0); [discriminate | apply IH; exact Hin].
Qed.

Lemma dict_get_Some_key (d : list (K * V)) k v :
  dict_get eqb d k = Some v -> In k (map fst d).
Proof.
  intros Hg. apply (dict_get_In eqb eqb_eq) in Hg.
  apply (in_map fst) in Hg. exact Hg.
Qed.
End DictKeys.

Lemma mkdir_chain_keys (todo : list string) :
  forall (done : path) (w : world),
  exists news,
    map fst (fs (snd (mkdir_chain done todo w))) = map fst (fs w) ++ news /\
    Forall (fun q => exists k, (1 <= k <= List.length todo)%nat
                               /\ q = done ++ firstn k todo) news.
Proof.
  induction todo as [| c todo IH]; intros done w; cbn [mkdir_chain].
  - exists []. rewrite app_nil_r. auto.
  - unfold bind at 1.
    assert (Hshift : forall news : list path,
      Forall (fun q => exists k, (1 <= k <= List.length todo)%nat
                                 /\ q = (done ++ [c]) ++ firstn k todo) news ->
      Forall (fun q => exists k, (1 <= k <= List.length (c :: todo))%nat
                                 /\ q = done ++ firstn k (c :: todo)) news).
    { intros news Hn. eapply Forall_impl; [| exact Hn].
      intros q (k & Hk & ->). exists (S k). cbn [List.length firstn].
      rewrite <- app_assoc. split; [lia | reflexivity]. }
    destruct (lookup w (done ++ [c])) as [[| img |] |] eqn:El.
    + destruct (IH (done ++ [c]) w) as (news & E & Hn).
      exists news. split; [exact E | apply Hshift; exact Hn].
    + exists []. rewrite app_nil_r. destruct todo; cbn; auto.
    + exists []. rewrite app_nil_r. destruct todo; cbn; auto.
    + unfold bind at 1.
      change (set_node (done ++ [c]) Dir w)
        with (Ok tt, snd (set_node (done ++ [c]) Dir w)).
      set (w1 := snd (set_node (done ++ [c]) Dir w)).
      destruct (IH (done ++ [c]) w1) as (news & E & Hn).
      exists ((done ++ [c]) :: news). split.
      * rewrite E. unfold w1, set_node. cbn [snd fs].
        rewrite dict_set_new_key by exact El. rewrite <- app_assoc. reflexivity.
      * constructor; [| apply Hshift; exact Hn].
        exists 1%nat. cbn [List.length firstn]. split; [lia | reflexivity].
Qed.

Lemma mkdir_chain_made (todo : list string) :
  forall (done : path) (w : world),
  todo <> [] ->
  fst (mkdir_chain done todo w) = Ok tt ->
  lookup (snd (mkdir_chain done todo w)) (done ++ todo) = Some Dir.
Proof.
  induction todo as [| c todo IH]; intros done w Hne; [congruence |].
  cbn [mkdir_chain]. unfold bind at 1 3.
  assert (Hrest : forall w1, lookup w1 (done ++ [c]) = Some Dir ->
            fst (mkdir_chain (done ++ [c]) todo w1) = Ok tt ->
            lookup (snd (mkdir_chain (done ++ [c]) todo w1)) (done ++ c :: todo)
            = Some Dir).
  { intros w1 Hd Hok. destruct todo as [| c' todo].
    - cbn. exact Hd.
    - replace (done ++ c :: c' :: todo) with ((done ++ [c]) ++ c' :: todo)
        by (rewrite <- app_assoc; reflexivity).
      apply IH; [discriminate | exact Hok]. }
  destruct (lookup w (done ++ [c])) as [[| img |] |] eqn:El.
  - apply Hrest. exact El.
  - destruct todo; discriminate.
  - destruct todo; discriminate.
  - unfold bind at 1 2.
    change (set_node (done ++ [c]) Dir w)
      with (Ok tt, snd (set_node (done ++ [c]) Dir w)).
    apply Hrest. apply lookup_set_same.
Qed.

Lemma makedirs_effect (p : path) (w : world) :
  can_makedirs w p -> p <> [] ->
  exists w' news,
    makedirs p w = (Ok tt, w') /\
    trace w' = trace w ++ [EMakedirs p] /\
    adds_dirs w w' /\
    lookup w' p = Some Dir /\
    map fst (fs w') = map fst (fs w) ++ news /\
    Forall (fun q => exists k, (1 <= k <= List.length p)%nat /\ q = firstn k p) news.
Proof.
  intros Hcan Hne.
  destruct (makedirs_frame p w) as (r & w' & E & Htr & Hadd).
  pose proof (makedirs_ok p w Hcan) as Hok. rewrite E in Hok. cbn [fst] in Hok.
  subst r. unfold makedirs, bind, log in E.
  set (w0 := {| fs := fs w; rng := rng w; trace := trace w ++ [EMakedirs p] |}) in E.
  destruct (mkdir_chain_keys p [] w0) as (news & Hk & Hn).
  pose proof (mkdir_chain_made p [] w0 Hne) as Hm.
  rewrite E in Hk, Hm. cbn [fst snd app] in Hk, Hm.
  exists w', news. unfold makedirs, bind, log. fold w0. rewrite E.
  split; [reflexivity |]. split; [exact Htr |]. split; [exact Hadd |].
  split; [apply Hm; reflexivity |]. split; [exact Hk | exact Hn].
Qed.

Lemma prefix_not_child (output_folder hr_folder : path) (x : string) (k : nat) :
  (forall rest, output_folder <> hr_folder ++ rest) ->
  (1 <= k <= List.length (os_path_join output_folder x))%nat ->
  removelast (firstn k (os_path_join output_folder x)) <> hr_folder.
Proof.
  intros Hout Hk. unfold os_path_join in *. rewrite length_app in Hk. cbn in Hk.
  destruct k as [| j]; [lia |].
  rewrite removelast_firstn by (rewrite length_app; cbn; lia).
  rewrite firstn_app. replace (j - List.length output_folder)%nat with O by lia.
  cbn [firstn]. rewrite app_nil_r. intros Hc.
  apply (Hout (skipn j output_folder)). rewrite <- Hc. symmetry.
  apply firstn_skipn.
Qed.

Lemma enumerate_new_keys (w w' : world) (folder : path) (news : list path) :
  map fst (fs w') = map fst (fs w) ++ news ->
  Forall (fun q => removelast q <> folder) news ->
  enumerate w' folder = enumerate w folder.
Proof.
  intros Hk Hn. unfold enumerate. apply flat_map_ext. intros pat.
  unfold glob. rewrite Hk.
  assert (Hgen : forall (f : path -> bool) (l : list path),
            (forall q, In q news -> f q = false) ->
            filter f (l ++ news) = filter f l).
  { intros f l Hf. rewrite filter_app.
    assert (E : filter f news = []).
    { clear Hk Hn. induction news as [| q ns IH]; [reflexivity |].
      cbn [filter]. rewrite (Hf q (or_introl eq_refl)).
      apply IH. intros q' Hq'. apply Hf. right. exact Hq'. }
    rewrite E. apply app_nil_r. }
  apply Hgen. intros q Hq. rewrite Forall_forall in Hn.
  rewrite (path_eqb_neq _ _ (Hn q Hq)). reflexivity.
Qed.

Lemma batch_generate_run (hr_folder output_folder : path) (w : world) :
  let hr_out := os_path_join output_folder "hr" in
  let lr_out := os_path_join output_folder "lr" in
  can_makedirs w hr_out -> can_makedirs w lr_out ->
  (forall name, lookup w (os_path_join hr_out name) <> Some Dir) ->
  (forall name, lookup w (os_path_join lr_out name) <> Some Dir) ->
  (forall rest, output_folder <> hr_folder ++ rest) ->
  (forall fp, In fp (enumerate w hr_folder) ->
     exists img, lookup w fp = Some (ImageFile img) /\ decoded img) ->
  exists hr_files wb evs w',
    get_all_image_files hr_folder w = (Ok hr_files, w) /\
    batch_process hr_folder output_folder "generate" w = (Ok tt, w') /\
    trace w' = trace w
               ++ [EMakedirs hr_out; EMakedirs lr_out;
                   EPrint ("Found " ++ str_int (Z.of_nat (List.length hr_files))
                           ++ " HR images")%string;
                   EPrint "Mode: generate LR patches by downsampling HR."]
               ++ evs
               ++ [EPrint (newline ++ "Finished. Processed "
                           ++ str_int (Z.of_nat (List.length hr_files))
                           ++ " HR images.")%string;
                   EPrint ("Output HR dir: " ++ str_path hr_out)%string;
                   EPrint ("Output LR dir: " ++ str_path lr_out)%string] /\
    adds_dirs w wb /\
    fs w' = apply_saves evs (fs wb) /\
    Forall (patch_save hr_out lr_out) evs /\
    opened evs = map snd hr_files /\
    map fst (saves evs)
    = flat_map (fun it => pair_targets hr_out lr_out (path_stem (snd it))
                            (Z.to_nat PATCHES_PER_IMAGE)) hr_files /\
    (forall k v, In (k, v) hr_files -> k = path_stem v) /\
    NoDup (map fst hr_files) /\
    Concrete.printed evs
    = map (fun j => ("  Processed " ++ str_int j ++ "/"
                     ++ str_int (Z.of_nat (List.length hr_files))
                     ++ " HR images...")%string)
          (filter (fun j => j mod 20 =? 0)
                  (map (fun i => 1 + Z.of_nat i) (seq 0 (List.length hr_files)))).
Proof.
  intros hr_out lr_out Hc1 Hc2 Hsub1 Hsub2 Hout Hsrc.
  assert (Hne1 : hr_out <> []) by (unfold hr_out, os_path_join; destruct output_folder; discriminate).
  assert (Hne2 : lr_out <> []) by (unfold lr_out, os_path_join; destruct output_folder; discriminate).
  destruct (makedirs_effect hr_out w Hc1 Hne1)
    as (wa & na & E1 & Htr1 & Hadd1 & Hd1 & Hk1 & Hn1).
  destruct (makedirs_effect lr_out wa (can_makedirs_adds_dirs _ _ _ Hadd1 Hc2) Hne2)
    as (wb & nb & E2 & Htr2 & Hadd2 & Hd2 & Hk2 & Hn2).
  pose proof (adds_dirs_trans _ _ _ Hadd1 Hadd2) as Hadd.
  assert (Hkeep : forall q n, lookup w q = Some n -> lookup wb q = Some n).
  { intros q n Hq. destruct Hadd as [_ Hadd]. destruct (Hadd q) as [Eq | [Eq _]]; congruence. }
  assert (Hkeep2 : forall q n, lookup wa q = Some n -> lookup wb q = Some n).
  { intros q n Hq. destruct Hadd2 as [_ Hadd2]. destruct (Hadd2 q) as [Eq | [Eq _]]; congruence. }
  assert (Hlen1 : List.length hr_out = S (List.length output_folder)).
  { unfold hr_out, os_path_join. rewrite length_app. cbn. lia. }
  assert (Hlen2 : List.length lr_out = S (List.length output_folder)).
  { unfold lr_out, os_path_join. rewrite length_app. cbn. lia. }
  assert (Hkeys : map fst (fs wb) = map fst (fs w) ++ (na ++ nb)).
  { rewrite Hk2, Hk1, app_assoc. reflexivity. }
  assert (Hnews : Forall (fun q => (List.length q <= S (List.length output_folder))%nat
                                   /\ removelast q <> hr_folder) (na ++ nb)).
  { apply Forall_app. split.
    - eapply Forall_impl; [| exact Hn1]. intros q (k & Hk & ->). split.
      + rewrite length_firstn. lia.
      + apply prefix_not_child; assumption.
    - eapply Forall_impl; [| exact Hn2]. intros q (k & Hk & ->). split.
      + rewrite length_firstn. lia.
      + apply prefix_not_child; assumption. }
  assert (Hready : forall d, (d = hr_out \/ d = lr_out) ->
            lookup wb d = Some Dir ->
            (forall name, lookup w (os_path_join d name) <> Some Dir) ->
            out_ready wb d).
  { intros d Hdd Hdir Hsub. split.
    - unfold is_dir. destruct d; [reflexivity |]. rewrite Hdir. reflexivity.
    - intros name Hc.
      assert (Hin : In (os_path_join d name) (map fst (fs wb))).
      { apply (dict_get_Some_key path_eqb path_eqb_eq _ _ _ Hc). }
      rewrite Hkeys in Hin. apply in_app_or in Hin as [Hin | Hin].
      + apply (dict_get_key path_eqb path_eqb_eq) in Hin.
        fold (lookup w (os_path_join d name)) in Hin.
        destruct (lookup w (os_path_join d name)) as [n |] eqn:El; [| congruence].
        rewrite (Hkeep _ _ El) in Hc. injection Hc as ->. exact (Hsub name El).
      + rewrite Forall_forall in Hnews. destruct (Hnews _ Hin) as [Hl _].
        unfold os_path_join in Hl. rewrite length_app in Hl. cbn in Hl.
        destruct Hdd as [-> | ->]; lia. }
  assert (Hho : out_ready wb hr_out).
  { apply Hready; [left; reflexivity | apply Hkeep2; exact Hd1 | exact Hsub1]. }
  assert (Hlo : out_ready wb lr_out).
  { apply Hready; [right; reflexivity | exact Hd2 | exact Hsub2]. }
  assert (Henum : enumerate wb hr_folder = enumerate w hr_folder).
  { apply (enumerate_new_keys w wb hr_folder (na ++ nb) Hkeys).
    eapply Forall_impl; [| exact Hnews]. intros q [_ Hq]. exact Hq. }
  rewrite get_all_image_files_enumerate.
  set (hr_files := fold_left _ (enumerate w hr_folder) []).
  exists hr_files, wb. unfold batch_process. fold hr_out lr_out.
  unfold bind at 1. rewrite E1. unfold bind at 1. rewrite E2.
  unfold bind at 1. rewrite get_all_image_files_enumerate, Henum. fold hr_files.
  unfold bind at 1, print at 1, log at 1.
  rewrite String.eqb_refl.
  unfold bind at 1 2, print at 1, log at 1.
  match goal with
  | |- context [batch_loop hr_files hr_out lr_out _ 0 ?w0] => set (w1 := w0)
  end.
  assert (Hsd : same_dirs wb w1) by (apply same_dirs_fs; reflexivity).
  destruct (batch_loop_run hr_out lr_out (List.length hr_files) hr_files 0 w1)
    as (w2 & evs & El & Ht & Ho & Hs & Hp).
  { apply (out_ready_same_dirs wb); assumption. }
  { apply (out_ready_same_dirs wb); assumption. }
  { intros n hp Hin.
    apply FilesMore.dict_fold_sound in Hin as [[] | [_ Hin]].
    destruct (Hsrc hp Hin) as (img & Hl & Hdec). exists img. split; [| exact Hdec].
    unfold lookup, w1. cbn [fs]. fold (lookup wb hp). apply Hkeep. exact Hl. }
  destruct (emits_batch_loop hr_out lr_out (List.length hr_files) hr_files 0 w1)
    as (evs2 & T2 & F2 & Q2).
  rewrite El in T2, F2. cbn [snd] in T2, F2.
  rewrite Ht in T2. apply app_inv_head in T2. subst evs2.
  rewrite El. rewrite Z.add_0_l.
  unfold bind, print, log. cbn [trace fs rng].
  exists evs. eexists. split; [reflexivity |]. split; [reflexivity |]. cbn [trace fs].
  split; [| split; [| split; [| split; [| split; [| split; [| split; [| split]]]]]]].
  - rewrite Ht. unfold w1. cbn [trace]. rewrite Htr2, Htr1, <- !app_assoc. reflexivity.
  - exact Hadd.
  - exact F2.
  - exact Q2.
  - exact Ho.
  - exact Hs.
  - intros k v Hin. apply FilesMore.dict_fold_sound in Hin as [[] | [Hk _]]. exact Hk.
  - apply dict_fold_NoDup; [exact string_eqb_eq | constructor].
  - exact Hp.
Qed.

Lemma length_pair_targets (ho lo : path) (items : list (string * path)) :
  List.length (flat_map (fun it => pair_targets ho lo (path_stem (snd it))
                                     (Z.to_nat PATCHES_PER_IMAGE)) items)
  = (12 * List.length items)%nat.
Proof.
  induction items as [| it items IH]; [reflexivity |].
  cbn [flat_map]. rewrite length_app, IH. cbn [List.length].
  change (List.length (pair_targets ho lo (path_stem (snd it))
                         (Z.to_nat PATCHES_PER_IMAGE))) with 12%nat.
  lia.
Qed.

Lemma In_pair_targets (ho lo : path) (base : string) (n : nat) (q : path) :
  In q (pair_targets ho lo base n) <->
  exists i, (i < n)%nat /\
    (q = os_path_join ho (generate_name base (Z.of_nat i)) \/
     q = os_path_join lo (generate_name base (Z.of_nat i))).
Proof.
  unfold pair_targets. rewrite in_flat_map. split.
  - intros (i & Hi & Hq). apply in_seq in Hi. exists i. split; [lia |].
    cbn [In] in Hq. destruct Hq as [<- | [<- | []]]; auto.
  - intros (i & Hi & Hq). exists i. split; [apply in_seq; lia |].
    cbn [In]. destruct Hq as [-> | ->]; auto.
Qed.

Lemma NoDup_flat_map {A B C} (f : A -> list B) (g : A -> C) (l : list A) :
  (forall x, In x l -> NoDup (f x)) ->
  (forall x y z, In x l -> In y l -> In z (f x) -> In z (f y) -> g x = g y) ->
  NoDup (map g l) ->
  NoDup (flat_map f l).
Proof.
  induction l as [| a l IH]; intros Hf Hg Hnd; [constructor |].
  cbn [flat_map]. cbn [map] in Hnd. apply NoDup_cons_iff in Hnd as [Hna Hnd].
  apply NoDup_app.
  - apply Hf. left. reflexivity.
  - apply IH; [| | exact Hnd].
    + intros x Hx. apply Hf. right. exact Hx.
    + intros x y z Hx Hy. apply Hg; right; assumption.
  - intros z Hz Hz'. apply in_flat_map in Hz' as (y & Hy & Hzy).
    apply Hna. rewrite (Hg a y z); [apply in_map; exact Hy | left; reflexivity
                                   | right; exact Hy | exact Hz | exact Hzy].
Qed.

Lemma NoDup_pair_targets (ho lo : path) (base : string) (n : nat) :
  ho <> lo -> NoDup (pair_targets ho lo base n).
Proof.
  intros Hne. unfold pair_targets. apply (NoDup_flat_map _ (fun i => i)).
  - intros i _. constructor; [| constructor; [intros [] | constructor]].
    intros [E | []]. apply join_inj in E as [E _]. congruence.
  - intros i j z _ _ Hi Hj. cbn [In] in Hi, Hj.
    assert (E : generate_name base (Z.of_nat i) = generate_name base (Z.of_nat j)).
    { destruct Hi as [<- | [<- | []]]; destruct Hj as [E | [E | []]];
        apply join_inj in E as [_ E]; congruence. }
    apply generate_name_inj in E as [_ E]; lia.
  - rewrite map_id. apply seq_NoDup.
Qed.

Lemma apply_saves_saved (evs : list event) (f : list (path * node)) (q : path) :
  In q (map fst (saves evs)) ->
  exists img, dict_get path_eqb (apply_saves evs f) q = Some (ImageFile img)
              /\ In (ESave q img) evs.
Proof.
  induction evs as [| e evs IH] using rev_ind; [intros [] |].
  rewrite saves_app, map_app, apply_saves_app. intros Hin.
  assert (Hold : In q (map fst (saves evs)) ->
            (forall img, e <> ESave q img) ->
            exists img, dict_get path_eqb (apply_saves [e] (apply_saves evs f)) q
                        = Some (ImageFile img)
                        /\ In (ESave q img) (evs ++ [e])).
  { intros Hq Hne. destruct (IH Hq) as (img & Hg & Hi). exists img.
    split; [| apply in_or_app; left; exact Hi].
    destruct e as [p | p | p im | l]; cbn [apply_saves fold_left]; try exact Hg.
    rewrite dict_get_set_other; [exact Hg | apply path_eqb_eq |].
    intros ->. exact (Hne im eq_refl). }
  destruct e as [p | p | p im | l].
  1, 2, 4: apply Hold; [| intros; discriminate];
    cbn in Hin; rewrite app_nil_r in Hin; exact Hin.
  destruct (list_eq_dec string_dec q p) as [-> | Hne].
  - exists im. split; [apply dict_get_set_same, path_eqb_eq |].
    apply in_or_app. right. left. reflexivity.
  - apply Hold; [| intros img [= E _]; congruence].
    apply in_app_or in Hin as [Hin | Hin]; [exact Hin |].
    cbn in Hin. destruct Hin as [E | []]. congruence.
Qed.

(** X16.  When the two folders are spelled with names of entries only,
    the output folder is not the input folder nor inside it, its two
    directories can be made and hold no sub-directory, and every file
    enumerated in the input folder is an image: [batch_process]
    in generate mode returns normally, opens every source found, saves
    twelve files for each (six pairs), and reports as processed the
    number of sources found. *)
Theorem batch_all_sources_processed (hr_folder output_folder : path) (w : world) :
  let hr_out := os_path_join output_folder "hr" in
  let lr_out := os_path_join output_folder "lr" in
  plain hr_folder -> plain output_folder ->
  can_makedirs w hr_out -> can_makedirs w lr_out ->
  (forall name, lookup w (os_path_join hr_out name) <> Some Dir) ->
  (forall name, lookup w (os_path_join lr_out name) <> Some Dir) ->
  (forall rest, output_folder <> hr_folder ++ rest) ->
  (forall fp, In fp (enumerate w hr_folder) ->
     exists img, lookup w fp = Some (ImageFile img) /\ decoded img) ->
  exists hr_files w',
    get_all_image_files hr_folder w = (Ok hr_files, w) /\
    batch_process hr_folder output_folder "generate" w = (Ok tt, w') /\
    opened (trace w') = opened (trace w) ++ map snd hr_files /\
    List.length (saves (trace w'))
      = (List.length (saves (trace w)) + 12 * List.length hr_files)%nat /\
    In (EPrint (newline ++ "Finished. Processed "
                ++ str_int (Z.of_nat (List.length hr_files)) ++ " HR images.")%string)
       (trace w').
Proof.
  intros hr_out lr_out _ _ Hc1 Hc2 Hsub1 Hsub2 Hout Hsrc.
  destruct (batch_generate_run hr_folder output_folder w Hc1 Hc2 Hsub1 Hsub2 Hout Hsrc)
    as (hr_files & wb & evs & w' & Eg & Eb & Ht & _ & _ & _ & Ho & Hs & _).
  exists hr_files, w'. split; [exact Eg |]. split; [exact Eb |].
  fold hr_out lr_out in Ht, Hs. rewrite Ht. split; [| split].
  - rewrite !opened_app, Ho. cbn. rewrite app_nil_r. reflexivity.
  - rewrite !saves_app, !length_app.
    rewrite <- (length_map fst (saves evs)), Hs, length_pair_targets. cbn. lia.
  - apply in_or_app. right. apply in_or_app. right. apply in_or_app. right.
    left. reflexivity.
Qed.

(** X17.  Under the same conditions the data set is complete and nothing
    in it has been overwritten: the paths saved during the run are
    pairwise distinct, and for every source found and every index below
    6 the run leaves a 384 by 384 image at [hr/stem_pNNN.png] and a
    96 by 96 image at [lr/stem_pNNN.png] of the output folder. *)
Theorem batch_dataset_complete (hr_folder output_folder : path) (w : world) :
  let hr_out := os_path_join output_folder "hr" in
  let lr_out := os_path_join output_folder "lr" in
  plain hr_folder -> plain output_folder ->
  can_makedirs w hr_out -> can_makedirs w lr_out ->
  (forall name, lookup w (os_path_join hr_out name) <> Some Dir) ->
  (forall name, lookup w (os_path_join lr_out name) <> Some Dir) ->
  (forall rest, output_folder <> hr_folder ++ rest) ->
  (forall fp, In fp (enumerate w hr_folder) ->
     exists img, lookup w fp = Some (ImageFile img) /\ decoded img) ->
  exists hr_files w' evs,
    get_all_image_files hr_folder w = (Ok hr_files, w) /\
    batch_process hr_folder output_folder "generate" w = (Ok tt, w') /\
    trace w' = trace w ++ evs /\
    NoDup (map fst (saves evs)) /\
    forall k v i, In (k, v) hr_files -> 0 <= i < PATCHES_PER_IMAGE ->
      exists hp lp,
        lookup w' (os_path_join hr_out (generate_name k i)) = Some (ImageFile hp) /\
        size hp = (HR_PATCH, HR_PATCH) /\
        lookup w' (os_path_join lr_out (generate_name k i)) = Some (ImageFile lp) /\
        size lp = (LR_PATCH, LR_PATCH).
Proof.
  intros hr_out lr_out _ _ Hc1 Hc2 Hsub1 Hsub2 Hout Hsrc.
  destruct (batch_generate_run hr_folder output_folder w Hc1 Hc2 Hsub1 Hsub2 Hout Hsrc)
    as (hr_files & wb & evs & w' & Eg & Eb & Ht & _ & Hfs & Hq & _ & Hs & Hkey & Hnd & _).
  fold hr_out lr_out in Ht, Hfs, Hq, Hs.
  assert (Hne : hr_out <> lr_out).
  { intros E. apply join_inj in E as [_ E]. discriminate. }
  eexists hr_files, w', _. split; [exact Eg |]. split; [exact Eb |].
  split; [exact Ht |]. split.
  - rewrite !saves_app, !map_app. cbn [saves flat_map map app]. rewrite app_nil_r, Hs.
    apply (NoDup_flat_map _ fst).
    + intros it _. apply NoDup_pair_targets. exact Hne.
    + intros [k1 v1] [k2 v2] z H1 H2 Hz1 Hz2. cbn [fst snd] in *.
      rewrite (Hkey _ _ H1), (Hkey _ _ H2).
      apply In_pair_targets in Hz1 as (i & _ & Hz1).
      apply In_pair_targets in Hz2 as (j & _ & Hz2).
      assert (E : generate_name (path_stem v1) (Z.of_nat i)
                  = generate_name (path_stem v2) (Z.of_nat j)).
      { destruct Hz1 as [-> | ->]; destruct Hz2 as [E | E];
          apply join_inj in E as [_ E]; exact E. }
      apply generate_name_inj in E as [E _]; [exact E | lia | lia].
    + exact Hnd.
  - intros k v i Hin Hi.
    assert (Hsaved : forall d, d = hr_out \/ d = lr_out ->
              exists img, lookup w' (os_path_join d (generate_name k i))
                          = Some (ImageFile img)
                          /\ patch_save hr_out lr_out
                               (ESave (os_path_join d (generate_name k i)) img)).
    { intros d Hd.
      destruct (apply_saves_saved evs (fs wb) (os_path_join d (generate_name k i)))
        as (img & Hg & Hi').
      - rewrite Hs. apply in_flat_map. exists (k, v). split; [exact Hin |].
        cbn [snd]. rewrite <- (Hkey _ _ Hin). apply In_pair_targets.
        exists (Z.to_nat i). unfold PATCHES_PER_IMAGE in *.
        rewrite Z2Nat.id by lia. split; [lia |].
        destruct Hd as [-> | ->]; auto.
      - exists img. unfold lookup. rewrite Hfs. split; [exact Hg |].
        rewrite Forall_forall in Hq. exact (Hq _ Hi'). }
    destruct (Hsaved hr_out (or_introl eq_refl)) as (hp & Hl1 & Hp1).
    destruct (Hsaved lr_out (or_intror eq_refl)) as (lp & Hl2 & Hp2).
    cbn [patch_save] in Hp1, Hp2. unfold os_path_join in Hp1, Hp2.
    rewrite removelast_last in Hp1, Hp2.
    exists hp, lp. split; [exact Hl1 |]. split; [| split; [exact Hl2 |]].
    + destruct Hp1 as [[_ Hsz] | [E _]]; [exact Hsz | congruence].
    + destruct Hp2 as [[E _] | [_ Hsz]]; [congruence | exact Hsz].
Qed.

Lemma multiples_of_20 (n : nat) :
  filter (fun j => j mod 20 =? 0) (map (fun i => 1 + Z.of_nat i) (seq 0 n))
  = map (fun k => 20 * Z.of_nat k) (seq 1 (n / 20)).
Proof.
  induction n as [| n IH]; [reflexivity |].
  rewrite seq_S, map_app, filter_app, IH. cbn [seq map filter Nat.add].
  pose proof (Nat.div_mod_eq n 20) as Hn. pose proof (Nat.div_mod_eq (S n) 20) as HSn.
  pose proof (Nat.mod_upper_bound n 20 ltac:(lia)) as Hb.
  pose proof (Nat.mod_upper_bound (S n) 20 ltac:(lia)) as HSb.
  assert (Hz : Z.of_nat (S n mod 20) = (1 + Z.of_nat n) mod 20).
  { rewrite Nat2Z.inj_mod. f_equal. lia. }
  destruct (Z.eqb_spec ((1 + Z.of_nat n) mod 20) 0) as [Hm | Hm].
  - assert (E : (S n / 20 = S (n / 20))%nat) by lia.
    rewrite E, seq_S, map_app. cbn [map Nat.add]. do 2 f_equal. lia.
  - assert (E : (S n / 20 = n / 20)%nat) by lia.
    rewrite E, app_nil_r. reflexivity.
Qed.

(** X21.  Under the same conditions the lines printed by the run are,
    in order: the count of sources found, the line of the mode, one
    progress line after every twentieth source (and none at other
    times), the final count, which is the number of sources found, and
    the two output directories. *)
Theorem batch_console_output (hr_folder output_folder : path) (w : world) :
  let hr_out := os_path_join output_folder "hr" in
  let lr_out := os_path_join output_folder "lr" in
  plain hr_folder -> plain output_folder ->
  can_makedirs w hr_out -> can_makedirs w lr_out ->
  (forall name, lookup w (os_path_join hr_out name) <> Some Dir) ->
  (forall name, lookup w (os_path_join lr_out name) <> Some Dir) ->
  (forall rest, output_folder <> hr_folder ++ rest) ->
  (forall fp, In fp (enumerate w hr_folder) ->
     exists img, lookup w fp = Some (ImageFile img) /\ decoded img) ->
  exists hr_files w',
    get_all_image_files hr_folder w = (Ok hr_files, w) /\
    batch_process hr_folder output_folder "generate" w = (Ok tt, w') /\
    let n := List.length hr_files in
    Concrete.printed (trace w')
    = Concrete.printed (trace w)
      ++ [("Found " ++ str_int (Z.of_nat n) ++ " HR images")%string;
          "Mode: generate LR patches by downsampling HR."%string]
      ++ map (fun k => ("  Processed " ++ str_int (20 * Z.of_nat k) ++ "/"
                        ++ str_int (Z.of_nat n) ++ " HR images...")%string)
             (seq 1 (n / 20))
      ++ [(newline ++ "Finished. Processed " ++ str_int (Z.of_nat n)
           ++ " HR images.")%string;
          ("Output HR dir: " ++ str_path hr_out)%string;
          ("Output LR dir: " ++ str_path lr_out)%string].
Proof.
  intros hr_out lr_out _ _ Hc1 Hc2 Hsub1 Hsub2 Hout Hsrc.
  destruct (batch_generate_run hr_folder output_folder w Hc1 Hc2 Hsub1 Hsub2 Hout Hsrc)
    as (hr_files & wb & evs & w' & Eg & Eb & Ht & _ & _ & _ & _ & _ & _ & _ & Hp).
  exists hr_files, w'. split; [exact Eg |]. split; [exact Eb |].
  fold hr_out lr_out in Ht. cbn zeta. rewrite Ht, !printed_app, Hp.
  rewrite multiples_of_20, map_map. reflexivity.
Qed.

(** *** Failures of single files *)

(** C8.  In generate mode, for folders spelled with names of entries
    only and output directories that can be made, [batch_process]
    returns normally whatever happens to single files.  The files
    [hr_files] it works on are those that [get_all_image_files] finds in
    the input folder once the two output directories are made, and
    every file that matched in the folder before has its stem among
    them.  Every one of them is opened, in order; the outcomes [rs] of
    the files are those of [isolated_run], started in the world after
    the two opening lines; for each file that raised, its error line
    with its path and the text of the error is printed; and the closing
    line reports [count_ok rs], the number of files processed. *)
Theorem batch_failure_isolation (hr_folder output_folder : path) (w : world) :
  let hr_out := os_path_join output_folder "hr" in
  let lr_out := os_path_join output_folder "lr" in
  plain hr_folder -> plain output_folder ->
  can_makedirs w hr_out -> can_makedirs w lr_out ->
  exists wa wb hr_files w1 rs w2 w',
    makedirs hr_out w = (Ok tt, wa) /\
    makedirs lr_out wa = (Ok tt, wb) /\
    get_all_image_files hr_folder wb = (Ok hr_files, wb) /\
    (forall fp, In fp (enumerate w hr_folder) ->
       exists v, In (path_stem fp, v) hr_files) /\
    fs w1 = fs wb /\ rng w1 = rng wb /\
    trace w1 = trace wb
               ++ [EPrint ("Found " ++ str_int (Z.of_nat (List.length hr_files))
                           ++ " HR images")%string;
                   EPrint "Mode: generate LR patches by downsampling HR."] /\
    batch_process hr_folder output_folder "generate" w = (Ok tt, w') /\
    isolated_run hr_out lr_out (List.length hr_files) hr_files 0 w1
                 rs (count_ok rs) w2 /\
    List.length rs = List.length hr_files /\
    opened (trace w') = opened (trace w) ++ map snd hr_files /\
    (forall i hr_name hr_path e,
       nth_error hr_files i = Some (hr_name, hr_path) ->
       nth_error rs i = Some (Raise e) ->
       In (EPrint (error_line hr_path e)) (trace w')) /\
    trace w' = trace w2 ++
      [EPrint (newline ++ "Finished. Processed " ++ str_int (count_ok rs)
               ++ " HR images.")%string;
       EPrint ("Output HR dir: " ++ str_path hr_out)%string;
       EPrint ("Output LR dir: " ++ str_path lr_out)%string].
Proof.
  intros hr_out lr_out _ _ Hc1 Hc2.
  assert (Hne1 : hr_out <> [])
    by (unfold hr_out, os_path_join; destruct output_folder; discriminate).
  assert (Hne2 : lr_out <> [])
    by (unfold lr_out, os_path_join; destruct output_folder; discriminate).
  destruct (makedirs_effect hr_out w Hc1 Hne1)
    as (wa & na & E1 & Htr1 & Hadd1 & _ & Hk1 & _).
  destruct (makedirs_effect lr_out wa (can_makedirs_adds_dirs _ _ _ Hadd1 Hc2) Hne2)
    as (wb & nb & E2 & Htr2 & Hadd2 & _ & Hk2 & _).
  unfold batch_process. fold hr_out lr_out.
  unfold bind at 1. rewrite E1. unfold bind at 1. rewrite E2.
  unfold bind at 1. rewrite get_all_image_files_enumerate.
  set (hr_files := fold_left _ (enumerate wb hr_folder) []).
  unfold bind at 1, print at 1, log at 1.
  rewrite String.eqb_refl.
  unfold bind at 1 2, print at 1, log at 1.
  match goal with
  | |- context [batch_loop hr_files hr_out lr_out _ 0 ?w0] => set (w1 := w0)
  end.
  destruct (batch_loop_isolated hr_out lr_out (List.length hr_files) hr_files 0 w1)
    as (rs & p' & w2 & El & Hrun).
  rewrite El.
  destruct (isolated_run_count _ _ _ _ _ _ _ _ _ Hrun) as [Hp Hlen].
  rewrite Z.add_0_l in Hp. subst p'.
  destruct (isolated_run_trace _ _ _ _ _ _ _ _ _ Hrun) as (evs & T & O & L).
  unfold bind, print, log. cbn [trace fs rng].
  exists wa, wb, hr_files, w1, rs, w2. eexists.
  split; [first [exact E1 | reflexivity] |].
  split; [first [exact E2 | reflexivity] |].
  split; [rewrite get_all_image_files_enumerate; reflexivity |].
  split.
  { intros fp Hin.
    assert (Hin' : In fp (enumerate wb hr_folder)).
    { apply In_enumerate in Hin as (Hfs & Hrest). apply In_enumerate.
      split; [| exact Hrest]. rewrite Hk2, Hk1.
      apply in_or_app. left. apply in_or_app. left. exact Hfs. }
    assert (Hk : In (path_stem fp) (map fst hr_files)).
    { apply (dict_fold_keys String.eqb string_eqb_eq). right.
      apply in_map. exact Hin'. }
    apply in_map_iff in Hk as ([k v] & Ek & Hkv). cbn in Ek. subst k.
    exists v. exact Hkv. }
  split; [reflexivity |]. split; [reflexivity |].
  split; [unfold w1; cbn [trace]; rewrite <- app_assoc; reflexivity |].
  split; [reflexivity |]. cbn [trace].
  split; [exact Hrun |]. split; [exact Hlen |].
  assert (Tw1 : trace w1 = trace w ++ [EMakedirs hr_out; EMakedirs lr_out]
                             ++ [EPrint ("Found " ++ str_int (Z.of_nat (List.length hr_files))
                                         ++ " HR images")%string;
                                 EPrint "Mode: generate LR patches by downsampling HR."]).
  { unfold w1. cbn [trace]. rewrite Htr2, Htr1, <- !app_assoc. reflexivity. }
  split.
  { rewrite <- !app_assoc, T, Tw1, !opened_app, O. cbn. rewrite !app_nil_r. reflexivity. }
  split.
  { intros i hn hp e Hi Hr. rewrite <- !app_assoc, T.
    apply in_or_app. left. apply in_or_app. right. exact (L i hn hp e Hi Hr). }
  rewrite <- !app_assoc. reflexivity.
Qed.

(** *** How the batch can fail *)








End Batch.
End BatchMore.

Import BatchMore.

(** ** What paired mode writes *)

Module PairedWrites.
Section Paired.
Context {rnd : Random} {rsm : Resampler}.




End Paired.
End PairedWrites.

Import PairedWrites.

(** ** More runs on concrete files *)

Module MoreRuns.

Import Concrete.
Local Open Scope string_scope.
Local Open Scope list_scope.
Local Open Scope Z_scope.

(** Sources that do not open, each with the exception of its [open]: a
    truncated image, a path below a regular file, a name that is not in
    its folder, a directory. *)
Example sources_that_do_not_open :
  let run p := fst (process_generate_mode p ["out"; "hr"] ["out"; "lr"] 6 true
                      (world_of broken_files)) in
  run ["data"; "hr"; "d.png"]
    = Raise (OSError "image file is truncated (4 bytes not processed)") /\
  run ["notes"; "a.png"] = Raise (NotADirectoryError ["notes"; "a.png"]) /\
  run ["data"; "hr"; "z.png"] = Raise (FileNotFoundError ["data"; "hr"; "z.png"]) /\
  run ["data"; "hr"] = Raise (IsADirectoryError ["data"; "hr"]) /\
  str_exn (NotADirectoryError ["notes"; "a.png"])
    = "[Errno 20] Not a directory: 'notes/a.png'".
Proof. repeat split; vm_compute; reflexivity. Qed.

(** A regular file where the output folder is to be made: [makedirs]
    fails on the directory it was making, and the run ends there. *)
Example output_folder_is_a_file :
  fst (main blocked_files) = Raise (NotADirectoryError ["processed"; "hr"]) /\
  opened (trace (snd (main blocked_files))) = [].
Proof. repeat split; vm_compute; reflexivity. Qed.

Lemma center_crop_centred_witness :
  exists patch left_ top_,
    center_crop (gradient 501 400) 384 384 = Ok (patch, (left_, top_)) /\
    size patch = (384, 384) /\
    0 <= (width (gradient 501 400) - 384 - left_) - left_ <= 1 /\
    0 <= (height (gradient 501 400) - 384 - top_) - top_ <= 1 /\
    forall x y, 0 <= x < 384 -> 0 <= y < 384 ->
      pix patch x y = pix (gradient 501 400) (left_ + x) (top_ + y).
Proof.
  apply (center_crop_centred (gradient 501 400) 384 384); cbn; lia.
Defined.

Lemma random_crop_window_witness :
  exists patch left_ top_ w',
    random_crop (gradient 500 400) 384 384 (world_of files3)
      = (Ok (patch, (left_, top_)), w') /\
    size patch = (384, 384) /\
    (forall x y, 0 <= x < 384 -> 0 <= y < 384 ->
       pix patch x y = pix (gradient 500 400) (left_ + x) (top_ + y)) /\
    fs w' = fs (world_of files3) /\ trace w' = trace (world_of files3).
Proof.
  apply (random_crop_window (gradient 500 400) 384 384 (world_of files3)); cbn; lia.
Defined.

Lemma random_crop_undersized_witness :
  exists patch left_ top_ w',
    random_crop (gradient 200 500) 384 384 (world_of files3)
      = (Ok (patch, (left_, top_)), w') /\
    size patch = (384, 384) /\
    (width (gradient 200 500) <= 384 -> left_ = 0) /\
    (height (gradient 200 500) <= 384 -> top_ = 0).
Proof.
  apply (random_crop_undersized (gradient 200 500) 384 384 (world_of files3)); lia.
Defined.

Lemma ensure_min_size_never_shrinks_witness :
  exists img',
    ensure_min_size (gradient 200 300) 384 = Ok img' /\
    Z.max (width (gradient 200 300)) 384 <= width img' /\
    Z.max (height (gradient 200 300)) 384 <= height img'.
Proof.
  apply (ensure_min_size_never_shrinks (gradient 200 300) 384); cbn; lia.
Defined.

Lemma ensure_min_size_idempotent_witness :
  ensure_min_size upscaled 384 = Ok upscaled.
Proof.
  apply (ensure_min_size_idempotent (gradient 200 300) upscaled 384).
  - cbn. lia.
  - cbn. lia.
  - cbn. lia.
  - vm_compute. reflexivity.
Defined.

Lemma generate_name_injective_witness :
  generate_name "cat" 7 <> generate_name "cat_p007" 7.
Proof.
  apply (generate_name_injective "cat" "cat_p007" 7 7).
  - lia.
  - lia.
  - left. discriminate.
Defined.

Lemma image_file_keyed_by_stem_witness :
  exists files v,
    get_all_image_files ["data"; "hr"] (world_of two_files)
      = (Ok files, world_of two_files) /\
    In ("c", v) files /\ path_stem v = "c" /\ removelast v = ["data"; "hr"].
Proof.
  apply (image_file_keyed_by_stem ["data"; "hr"] "c" "jpg" (world_of two_files)).
  - discriminate.
  - left. reflexivity.
  - cbn. auto 10.
Defined.

Lemma generate_mode_pairs_aligned_witness :
  exists img pairs w',
    ensure_min_size (gradient 200 300) MIN_HR_DIM = Ok img /\
    process_generate_mode ["data"; "hr"; "c.png"] ["out"; "hr"] ["out"; "lr"]
                          6 true (world_of ready_files)
      = (Ok tt, w') /\
    saves (trace w')
      = saves (trace (world_of ready_files))
        ++ saves (pair_events ["out"; "hr"] ["out"; "lr"]
                    (path_stem ["data"; "hr"; "c.png"]) 0 pairs) /\
    Forall (generated_pair img) pairs.
Proof.
  apply (generate_mode_pairs_aligned ["data"; "hr"; "c.png"] ["out"; "hr"]
           ["out"; "lr"] 6 true (world_of ready_files) (gradient 200 300)).
  - reflexivity.
  - unfold decoded. cbn. lia.
  - ready.
  - ready.
Defined.

Lemma generate_mode_manifest_witness :
  exists pairs w',
    process_generate_mode ["data"; "hr"; "a.png"] ["out"; "hr"] ["out"; "lr"]
                          6 true (world_of ready_files)
      = (Ok tt, w') /\
    List.length pairs = Z.to_nat 6 /\
    (forall i hr_patch lr_patch,
       nth_error pairs i = Some (hr_patch, lr_patch) ->
       lookup w' (os_path_join ["out"; "hr"]
                    (generate_name (path_stem ["data"; "hr"; "a.png"]) (Z.of_nat i)))
         = Some (ImageFile hr_patch) /\
       lookup w' (os_path_join ["out"; "lr"]
                    (generate_name (path_stem ["data"; "hr"; "a.png"]) (Z.of_nat i)))
         = Some (ImageFile lr_patch) /\
       size hr_patch = (384, 384) /\ size lr_patch = (96, 96)) /\
    (forall q, removelast q <> ["out"; "hr"] -> removelast q <> ["out"; "lr"] ->
       lookup w' q = lookup (world_of ready_files) q).
Proof.
  apply (generate_mode_manifest ["data"; "hr"; "a.png"] ["out"; "hr"]
           ["out"; "lr"] 6 true (world_of ready_files) (gradient 500 500)).
  - reflexivity.
  - unfold decoded. cbn. lia.
  - ready.
  - ready.
  - discriminate.
Defined.


Lemma generate_mode_centre_only_witness :
  exists hr_patch off lr_patch w',
    center_crop upscaled 384 384 = Ok (hr_patch, off) /\
    downsample hr_patch (96, 96) = Ok lr_patch /\
    process_generate_mode ["data"; "hr"; "c.png"] ["out"; "hr"] ["out"; "lr"]
                          6 true (world_of ready_files)
      = (Ok tt, w') /\
    trace w' = trace (world_of ready_files) ++ EOpen ["data"; "hr"; "c.png"]
                 :: pair_events ["out"; "hr"] ["out"; "lr"]
                      (path_stem ["data"; "hr"; "c.png"]) 0
                      (repeat (hr_patch, lr_patch) (Z.to_nat 6)) /\
    rng w' = rng (world_of ready_files).
Proof.
  apply (generate_mode_centre_only ["data"; "hr"; "c.png"] ["out"; "hr"]
           ["out"; "lr"] 6 true (world_of ready_files) (gradient 200 300) upscaled).
  - reflexivity.
  - unfold decoded. cbn. lia.
  - vm_compute. reflexivity.
  - right. left. cbn. lia.
  - ready.
  - ready.
Defined.


Lemma paired_mode_pairs_witness :
  exists pairs w',
    process_paired_mode ["data"; "hr"; "u.png"] ["data"; "lr"; "u.png"]
                        ["out"; "hr"] ["out"; "lr"] true
                        (world_of paired_files) = (Ok tt, w') /\
    List.length pairs = 3%nat /\
    trace w' = trace (world_of paired_files)
                 ++ EOpen ["data"; "hr"; "u.png"] :: EOpen ["data"; "lr"; "u.png"]
                 :: paired_events ["out"; "hr"] ["out"; "lr"]
                      (path_stem ["data"; "hr"; "u.png"]) 0 pairs /\
    Forall (paired_pair (gradient 400 400) (gradient 100 100)
              (fdiv (fadd (int_truediv 400 100) (int_truediv 400 100)) lit_2_0))
           pairs /\
    Forall (fun pr => size (fst pr) = (384, 384) /\ size (snd pr) = (96, 96))
           pairs.
Proof.
  apply (paired_mode_pairs ["data"; "hr"; "u.png"] ["data"; "lr"; "u.png"]
           ["out"; "hr"] ["out"; "lr"] true (world_of paired_files)
           (gradient 400 400) (gradient 100 100)
           (gradient 400 400) (gradient 100 100)).
  - reflexivity.
  - reflexivity.
  - unfold decoded. cbn. lia.
  - unfold decoded. cbn. lia.
  - reflexivity.
  - reflexivity.
  - vm_compute. reflexivity.
  - vm_compute. reflexivity.
  - ready.
  - ready.
Defined.

Lemma paired_mode_exact_scale_witness :
  exists pairs w',
    process_paired_mode ["data"; "hr"; "u.png"] ["data"; "lr"; "u.png"]
                        ["out"; "hr"] ["out"; "lr"] true
                        (world_of paired_files) = (Ok tt, w') /\
    List.length pairs = 3%nat /\
    trace w' = trace (world_of paired_files)
                 ++ EOpen ["data"; "hr"; "u.png"] :: EOpen ["data"; "lr"; "u.png"]
                 :: paired_events ["out"; "hr"] ["out"; "lr"]
                      (path_stem ["data"; "hr"; "u.png"]) 0 pairs /\
    Forall (fun pr => exists l t,
              in_bounds (gradient 100 100) LR_PATCH LR_PATCH (l, t) /\
              crop (gradient 100 100) (l, t, l + LR_PATCH, t + LR_PATCH)
                = Ok (snd pr) /\
              crop (gradient 400 400) (UPSCALE * l, UPSCALE * t,
                                       UPSCALE * l + HR_PATCH, UPSCALE * t + HR_PATCH)
                = Ok (fst pr))
           pairs.
Proof.
  apply (paired_mode_exact_scale ["data"; "hr"; "u.png"] ["data"; "lr"; "u.png"]
           ["out"; "hr"] ["out"; "lr"] true (world_of paired_files)
           (gradient 400 400) (gradient 100 100)).
  - reflexivity.
  - reflexivity.
  - unfold decoded. cbn. lia.
  - unfold LR_PATCH. cbn. lia.
  - unfold LR_PATCH. cbn. lia.
  - reflexivity.
  - reflexivity.
  - ready.
  - ready.
Defined.


Lemma batch_all_sources_processed_witness :
  exists hr_files w',
    get_all_image_files ["data"; "hr"] (world_of two_files)
      = (Ok hr_files, world_of two_files) /\
    batch_process ["data"; "hr"] ["processed"] "generate" (world_of two_files)
      = (Ok tt, w') /\
    opened (trace w') = opened (trace (world_of two_files)) ++ map snd hr_files /\
    List.length (saves (trace w'))
      = (List.length (saves (trace (world_of two_files)))
         + 12 * List.length hr_files)%nat /\
    In (EPrint (newline ++ "Finished. Processed "
                ++ str_int (Z.of_nat (List.length hr_files)) ++ " HR images."))
       (trace w').
Proof.
  apply (batch_all_sources_processed ["data"; "hr"] ["processed"] (world_of two_files)).
  - reflexivity.
  - reflexivity.
  - makeable.
  - makeable.
  - intros name. vm_compute. discriminate.
  - intros name. vm_compute. discriminate.
  - intros rest. discriminate.
  - intros fp Hin. vm_compute in Hin.
    destruct Hin as [<- | [<- | []]]; eexists; (split; [reflexivity |]);
      unfold decoded; cbn; lia.
Defined.

Lemma batch_dataset_complete_witness :
  exists hr_files w' evs,
    get_all_image_files ["data"; "hr"] (world_of two_files)
      = (Ok hr_files, world_of two_files) /\
    batch_process ["data"; "hr"] ["processed"] "generate" (world_of two_files)
      = (Ok tt, w') /\
    trace w' = trace (world_of two_files) ++ evs /\
    NoDup (map fst (saves evs)) /\
    forall k v i, In (k, v) hr_files -> 0 <= i < PATCHES_PER_IMAGE ->
      exists hp lp,
        lookup w' (os_path_join (os_path_join ["processed"] "hr") (generate_name k i))
          = Some (ImageFile hp) /\
        size hp = (HR_PATCH, HR_PATCH) /\
        lookup w' (os_path_join (os_path_join ["processed"] "lr") (generate_name k i))
          = Some (ImageFile lp) /\
        size lp = (LR_PATCH, LR_PATCH).
Proof.
  apply (batch_dataset_complete ["data"; "hr"] ["processed"] (world_of two_files)).
  - reflexivity.
  - reflexivity.
  - makeable.
  - makeable.
  - intros name. vm_compute. discriminate.
  - intros name. vm_compute. discriminate.
  - intros rest. discriminate.
  - intros fp Hin. vm_compute in Hin.
    destruct Hin as [<- | [<- | []]]; eexists; (split; [reflexivity |]);
      unfold decoded; cbn; lia.
Defined.

Lemma batch_console_output_witness :
  exists hr_files w',
    get_all_image_files ["data"; "hr"] (world_of two_files)
      = (Ok hr_files, world_of two_files) /\
    batch_process ["data"; "hr"] ["processed"] "generate" (world_of two_files)
      = (Ok tt, w') /\
    let n := List.length hr_files in
    printed (trace w')
    = printed (trace (world_of two_files))
      ++ [("Found " ++ str_int (Z.of_nat n) ++ " HR images")%string;
          "Mode: generate LR patches by downsampling HR."]
      ++ map (fun k => ("  Processed " ++ str_int (20 * Z.of_nat k) ++ "/"
                        ++ str_int (Z.of_nat n) ++ " HR images...")%string)
             (seq 1 (n / 20))
      ++ [(newline ++ "Finished. Processed " ++ str_int (Z.of_nat n)
           ++ " HR images.")%string;
          ("Output HR dir: " ++ str_path (os_path_join ["processed"] "hr"))%string;
          ("Output LR dir: " ++ str_path (os_path_join ["processed"] "lr"))%string].
Proof.
  apply (batch_console_output ["data"; "hr"] ["processed"] (world_of two_files)).
  - reflexivity.
  - reflexivity.
  - makeable.
  - makeable.
  - intros name. vm_compute. discriminate.
  - intros name. vm_compute. discriminate.
  - intros rest. discriminate.
  - intros fp Hin. vm_compute in Hin.
    destruct Hin as [<- | [<- | []]]; eexists; (split; [reflexivity |]);
      unfold decoded; cbn; lia.
Defined.


Lemma batch_failure_isolation_witness :
  exists wa wb hr_files w1 rs w2 w',
    makedirs (os_path_join ["processed"] "hr") (world_of files3) = (Ok tt, wa) /\
    makedirs (os_path_join ["processed"] "lr") wa = (Ok tt, wb) /\
    get_all_image_files ["data"; "hr"] wb = (Ok hr_files, wb) /\
    (forall fp, In fp (enumerate (world_of files3) ["data"; "hr"]) ->
       exists v, In (path_stem fp, v) hr_files) /\
    fs w1 = fs wb /\ rng w1 = rng wb /\
    trace w1 = trace wb
               ++ [EPrint ("Found " ++ str_int (Z.of_nat (List.length hr_files))
                           ++ " HR images")%string;
                   EPrint "Mode: generate LR patches by downsampling HR."] /\
    batch_process ["data"; "hr"] ["processed"] "generate" (world_of files3)
      = (Ok tt, w') /\
    isolated_run (os_path_join ["processed"] "hr")
                 (os_path_join ["processed"] "lr")
                 (List.length hr_files) hr_files 0 w1 rs (count_ok rs) w2 /\
    List.length rs = List.length hr_files /\
    opened (trace w') = opened (trace (world_of files3)) ++ map snd hr_files /\
    (forall i hr_name hr_path e,
       nth_error hr_files i = Some (hr_name, hr_path) ->
       nth_error rs i = Some (Raise e) ->
       In (EPrint (error_line hr_path e)) (trace w')) /\
    trace w' = trace w2 ++
      [EPrint (newline ++ "Finished. Processed " ++ str_int (count_ok rs)
               ++ " HR images.")%string;
       EPrint ("Output HR dir: "
               ++ str_path (os_path_join ["processed"] "hr"))%string;
       EPrint ("Output LR dir: "
               ++ str_path (os_path_join ["processed"] "lr"))%string].
Proof.
  apply (batch_failure_isolation ["data"; "hr"] ["processed"] (world_of files3)).
  - reflexivity.
  - reflexivity.
  - makeable.
  - makeable.
Defined.

End MoreRuns.
